(** * TypeMap analysis engine: cache, incremental parser, symbol extractor,
      dependency analyzer

    A shallow embedding of the analysis core of the TypeMap extension
    (src/cache/cacheManager.ts, src/analysis/incrementalParser.ts,
    src/analysis/lightweightParser.ts, src/analysis/metricsCollector.ts and
    the dependency analyzer) together with the properties its specification
    states about it.

    Conventions.
    - JavaScript numbers that hold line numbers, sizes and counters are
      integers here ([Z]); a [length] is a [nat].
    - JavaScript strings are [string]s of 8-bit characters: the embedding
      covers ASCII text.
    - A [Map] whose iteration order is never observed is a [gmap]; a [Map] or
      [Set] that the code iterates is an insertion-ordered list.
    - A call that can throw gives an [Outcome], the value returned or the
      exception; a promise that can be rejected gives an [option].
    - What the code obtains from its host (the TypeScript compiler, Node's
      [crypto] and [path], the editor's file system and clock) is a field of a
      class of the section, or an explicit argument. *)

From Stdlib Require Import ZArith QArith String Ascii List Lia Bool.
From stdpp Require Import base gmap strings list.

Open Scope Z_scope.
Set Warnings "-register-all".

(* ===================================================================== *)
(** * Cache manager (src/cache/cacheManager.ts) *)
(* ===================================================================== *)

Module Cache.

(** [CacheEntry<T>] of src/types/cache.ts. *)
Record CacheEntry (T : Type) := mkEntry {
  key : string;
  hash : string;
  timestamp : Z;
  data : T;
  dependencies : list string
}.
Arguments mkEntry {T}.
Arguments key {T}.
Arguments hash {T}.
Arguments timestamp {T}.
Arguments data {T}.
Arguments dependencies {T}.

(** [CacheStatistics] of src/types/cache.ts. *)
Record CacheStatistics := mkStats {
  hits : Z;
  misses : Z;
  size : Z;
  maxSize : Z;
  evictions : Z
}.

(** What the manager takes from Node: the SHA-256 hex digest of a string and
    the length of [JSON.stringify(entry)] ([None] when it throws). *)
Class Runtime (T : Type) := {
  sha256_hex : string -> string;
  stringify_length : CacheEntry T -> option Z
}.

(** The fields of a [CacheManager]; [workspaceState] is the persistent store
    behind [context.workspaceState] (the second tier). *)
Record State (T : Type) := mkState {
  maxSizeMB : Z;
  l1Cache : gmap string (CacheEntry T);
  l1Order : list string;
  l1SizeBytes : Z;
  stats : CacheStatistics;
  workspaceState : gmap string (CacheEntry T)
}.
Arguments mkState {T}.
Arguments maxSizeMB {T}.
Arguments l1Cache {T}.
Arguments l1Order {T}.
Arguments l1SizeBytes {T}.
Arguments stats {T}.
Arguments workspaceState {T}.

(** The file system as [get] reads it: the text of a file, or [None] when
    reading fails. *)
Definition FileSystem := string -> option string.

Section Manager.
Context {T : Type} {RT : Runtime T}.

(** [constructor(context, maxSizeMB = 100)], over the given workspace
    store. *)
Definition create (store : gmap string (CacheEntry T)) (mb : Z) : State T :=
  {| maxSizeMB := mb;
     l1Cache := ∅;
     l1Order := [];
     l1SizeBytes := 0;
     stats := {| hits := 0; misses := 0; size := 0;
                 maxSize := mb * 1024 * 1024; evictions := 0 |};
     workspaceState := store |}.

(** [computeHash]: the first 16 hex digits of the SHA-256 digest. *)
Definition computeHash (content : string) : string :=
  substring 0 16 (sha256_hex content).

(** [getCacheKey]. *)
Definition getCacheKey (filePath : string) : string :=
  ("typemap.cache." ++ computeHash filePath)%string.

(** [getFileHash]: [None] when the file cannot be read. ([get] returns
    [null] at once on [!hash], which also holds for the empty string.) *)
Definition getFileHash (fs : FileSystem) (filePath : string) : option string :=
  computeHash <$> fs filePath.

(** [estimateSize]: twice the length of the serialized entry, 1024 when
    serialization throws. *)
Definition estimateSize (entry : CacheEntry T) : Z :=
  match stringify_length entry with
  | Some n => n * 2
  | None => 1024
  end.

Definition maxBytes (st : State T) : Z := maxSizeMB st * 1024 * 1024.

(** [l1Order.indexOf(key)] followed by [splice(index, 1)]: the first
    occurrence is removed. *)
Fixpoint remove_first (k : string) (l : list string) : list string :=
  match l with
  | [] => []
  | x :: l' => if String.eqb x k then l' else x :: remove_first k l'
  end.

(** [touchL1]. *)
Definition touchL1 (k : string) (st : State T) : State T :=
  if bool_decide (k ∈ l1Order st) then
    {| maxSizeMB := maxSizeMB st;
       l1Cache := l1Cache st;
       l1Order := remove_first k (l1Order st) ++ [k];
       l1SizeBytes := l1SizeBytes st;
       stats := stats st;
       workspaceState := workspaceState st |}
  else st.

(** The eviction loop of [setL1]: while the new entry does not fit and the
    order is not empty, shift the oldest key; when it still has an entry,
    release its size, delete it and count one eviction. The result is the
    remaining order, the cache, the size and the eviction counter. *)
Fixpoint evict (entrySize limit : Z) (order : list string)
    (cache : gmap string (CacheEntry T)) (bytes evicted : Z)
    : list string * gmap string (CacheEntry T) * Z * Z :=
  match order with
  | [] => (order, cache, bytes, evicted)
  | oldestKey :: rest =>
      if bytes + entrySize >? limit then
        match cache !! oldestKey with
        | Some oldEntry =>
            evict entrySize limit rest (delete oldestKey cache)
                  (bytes - estimateSize oldEntry) (evicted + 1)
        | None => evict entrySize limit rest cache bytes evicted
        end
      else (order, cache, bytes, evicted)
  end.

(** [setL1]. *)
Definition setL1 (k : string) (entry : CacheEntry T) (st : State T) : State T :=
  let entrySize := estimateSize entry in
  let '(order, cache, bytes, evicted) :=
    evict entrySize (maxBytes st) (l1Order st) (l1Cache st)
          (l1SizeBytes st) (evictions (stats st)) in
  {| maxSizeMB := maxSizeMB st;
     l1Cache := <[k := entry]> cache;
     l1Order := order ++ [k];
     l1SizeBytes := bytes + entrySize;
     stats := {| hits := hits (stats st); misses := misses (stats st);
                 size := bytes + entrySize; maxSize := maxSize (stats st);
                 evictions := evicted |};
     workspaceState := workspaceState st |}.

Definition count_hit (st : State T) : State T :=
  {| maxSizeMB := maxSizeMB st; l1Cache := l1Cache st; l1Order := l1Order st;
     l1SizeBytes := l1SizeBytes st;
     stats := {| hits := hits (stats st) + 1; misses := misses (stats st);
                 size := size (stats st); maxSize := maxSize (stats st);
                 evictions := evictions (stats st) |};
     workspaceState := workspaceState st |}.

Definition count_miss (st : State T) : State T :=
  {| maxSizeMB := maxSizeMB st; l1Cache := l1Cache st; l1Order := l1Order st;
     l1SizeBytes := l1SizeBytes st;
     stats := {| hits := hits (stats st); misses := misses (stats st) + 1;
                 size := size (stats st); maxSize := maxSize (stats st);
                 evictions := evictions (stats st) |};
     workspaceState := workspaceState st |}.

(** The entry stored under [k], when its hash is the given one. *)
Definition valid_entry (m : gmap string (CacheEntry T)) (k h : string)
    : option (CacheEntry T) :=
  match m !! k with
  | Some e => if String.eqb (hash e) h then Some e else None
  | None => None
  end.

(** [get]: the new state and the data served ([None] for [null]). *)
Definition get (fs : FileSystem) (st : State T) (filePath : string)
    : State T * option T :=
  match getFileHash fs filePath with
  | None => (st, None)
  | Some h =>
      if String.eqb h "" then (st, None) else
      let k := getCacheKey filePath in
      match valid_entry (l1Cache st) k h with
      | Some l1Entry => (count_hit (touchL1 k st), Some (data l1Entry))
      | None =>
          match valid_entry (workspaceState st) k h with
          | Some l2Data => (count_hit (setL1 k l2Data st), Some (data l2Data))
          | None => (count_miss st, None)
          end
      end
  end.

(** [set]; [now] is the value of [Date.now()]. *)
Definition set (now : Z) (st : State T) (filePath : string) (d : T)
    (content : string) : State T :=
  let k := getCacheKey filePath in
  let entry := {| key := k; hash := computeHash content; timestamp := now;
                  data := d; dependencies := [] |} in
  let st1 := setL1 k entry st in
  {| maxSizeMB := maxSizeMB st1; l1Cache := l1Cache st1;
     l1Order := l1Order st1; l1SizeBytes := l1SizeBytes st1;
     stats := stats st1;
     workspaceState := <[k := entry]> (workspaceState st1) |}.

(** [clear]: the first tier and the counters are reset; the workspace
    store is left as it is. *)
Definition clear (st : State T) : State T :=
  {| maxSizeMB := maxSizeMB st;
     l1Cache := ∅;
     l1Order := [];
     l1SizeBytes := 0;
     stats := {| hits := 0; misses := 0; size := 0;
                 maxSize := maxSizeMB st * 1024 * 1024; evictions := 0 |};
     workspaceState := workspaceState st |}.

(** One round of the loop of [invalidate]. *)
Definition invalidate1 (st : State T) (filePath : string) : State T :=
  let k := getCacheKey filePath in
  {| maxSizeMB := maxSizeMB st;
     l1Cache := delete k (l1Cache st);
     l1Order := if bool_decide (is_Some (l1Cache st !! k))
                then List.filter (fun x => negb (String.eqb x k)) (l1Order st)
                else l1Order st;
     l1SizeBytes := l1SizeBytes st;
     stats := stats st;
     workspaceState := delete k (workspaceState st) |}.

(** [invalidate]. *)
Definition invalidate (st : State T) (filePaths : list string) : State T :=
  fold_left invalidate1 filePaths st.

(** [getStats]: the counters, with [size] read from [l1SizeBytes]. *)
Definition getStats (st : State T) : CacheStatistics :=
  {| hits := hits (stats st); misses := misses (stats st);
     size := l1SizeBytes st; maxSize := maxSize (stats st);
     evictions := evictions (stats st) |}.

End Manager.

End Cache.

(* ===================================================================== *)
(** * MD5 (Node's [crypto.createHash('md5')], RFC 1321) *)
(* ===================================================================== *)

Module MD5.

Definition w32 (x : Z) : Z := x mod 2 ^ 32.

Definition rotl (x c : Z) : Z :=
  w32 (Z.lor (Z.shiftl x c) (Z.shiftr (w32 x) (32 - c))).

Definition not32 (x : Z) : Z := Z.lxor (w32 x) 0xffffffff.

(** The sine table. *)
Definition K : list Z :=
  [ 0xd76aa478; 0xe8c7b756; 0x242070db; 0xc1bdceee;
    0xf57c0faf; 0x4787c62a; 0xa8304613; 0xfd469501;
    0x698098d8; 0x8b44f7af; 0xffff5bb1; 0x895cd7be;
    0x6b901122; 0xfd987193; 0xa679438e; 0x49b40821;
    0xf61e2562; 0xc040b340; 0x265e5a51; 0xe9b6c7aa;
    0xd62f105d; 0x02441453; 0xd8a1e681; 0xe7d3fbc8;
    0x21e1cde6; 0xc33707d6; 0xf4d50d87; 0x455a14ed;
    0xa9e3e905; 0xfcefa3f8; 0x676f02d9; 0x8d2a4c8a;
    0xfffa3942; 0x8771f681; 0x6d9d6122; 0xfde5380c;
    0xa4beea44; 0x4bdecfa9; 0xf6bb4b60; 0xbebfbc70;
    0x289b7ec6; 0xeaa127fa; 0xd4ef3085; 0x04881d05;
    0xd9d4d039; 0xe6db99e5; 0x1fa27cf8; 0xc4ac5665;
    0xf4292244; 0x432aff97; 0xab9423a7; 0xfc93a039;
    0x655b59c3; 0x8f0ccc92; 0xffeff47d; 0x85845dd1;
    0x6fa87e4f; 0xfe2ce6e0; 0xa3014314; 0x4e0811a1;
    0xf7537e82; 0xbd3af235; 0x2ad7d2bb; 0xeb86d391 ].

(** The per-round shift amounts. *)
Definition shifts : list Z :=
  [ 7; 12; 17; 22; 7; 12; 17; 22; 7; 12; 17; 22; 7; 12; 17; 22;
    5; 9; 14; 20; 5; 9; 14; 20; 5; 9; 14; 20; 5; 9; 14; 20;
    4; 11; 16; 23; 4; 11; 16; 23; 4; 11; 16; 23; 4; 11; 16; 23;
    6; 10; 15; 21; 6; 10; 15; 21; 6; 10; 15; 21; 6; 10; 15; 21 ].

Definition bytes_of_string (s : string) : list Z :=
  List.map (fun c => Z.of_nat (nat_of_ascii c)) (list_ascii_of_string s).

(** [n] little-endian bytes of [x]. *)
Fixpoint le_bytes (n : nat) (x : Z) : list Z :=
  match n with
  | O => []
  | S n' => x mod 256 :: le_bytes n' (x / 256)
  end.

(** The message followed by [0x80], zeros up to 56 modulo 64, and the bit
    length as a 64-bit little-endian number. *)
Definition pad (msg : list Z) : list Z :=
  let len := Z.of_nat (List.length msg) in
  let zeros := Z.to_nat ((55 - len) mod 64) in
  msg ++ [0x80] ++ List.repeat 0 zeros ++ le_bytes 8 ((len * 8) mod 2 ^ 64).

Fixpoint word_of_le (bs : list Z) : Z :=
  match bs with
  | [] => 0
  | b :: bs' => b + 256 * word_of_le bs'
  end.

(** Consecutive groups of [n] elements; [fuel] bounds their number. *)
Fixpoint chunks {A} (fuel n : nat) (l : list A) : list (list A) :=
  match fuel with
  | O => []
  | S fuel' =>
      match l with
      | [] => []
      | _ => firstn n l :: chunks fuel' n (skipn n l)
      end
  end.

Definition words_of_block (block : list Z) : list Z :=
  List.map word_of_le (chunks 16 4 block).

Definition round (M : list Z) (i : Z) (st : Z * Z * Z * Z) : Z * Z * Z * Z :=
  let '(A, B, C, D) := st in
  let '(F, g) :=
    if i <? 16 then (Z.lor (Z.land B C) (Z.land (not32 B) D), i)
    else if i <? 32 then (Z.lor (Z.land D B) (Z.land (not32 D) C), (5 * i + 1) mod 16)
    else if i <? 48 then (Z.lxor (Z.lxor B C) D, (3 * i + 5) mod 16)
    else (Z.lxor C (Z.lor B (not32 D)), (7 * i) mod 16) in
  let F' := w32 (F + A + nth (Z.to_nat i) K 0 + nth (Z.to_nat g) M 0) in
  (D, w32 (B + rotl F' (nth (Z.to_nat i) shifts 0)), B, C).

Definition process_block (h : Z * Z * Z * Z) (block : list Z) : Z * Z * Z * Z :=
  let M := words_of_block block in
  let '(a0, b0, c0, d0) := h in
  let '(A, B, C, D) :=
    fold_left (fun st i => round M (Z.of_nat i) st) (seq 0 64) h in
  (w32 (a0 + A), w32 (b0 + B), w32 (c0 + C), w32 (d0 + D)).

Definition digest (s : string) : list Z :=
  let msg := pad (bytes_of_string s) in
  let '(a, b, c, d) :=
    fold_left process_block (chunks (List.length msg) 64 msg)
              (0x67452301, 0xefcdab89, 0x98badcfe, 0x10325476) in
  le_bytes 4 a ++ le_bytes 4 b ++ le_bytes 4 c ++ le_bytes 4 d.

Definition hex_digit (n : Z) : ascii :=
  if n <? 10 then ascii_of_nat (Z.to_nat (48 + n))
  else ascii_of_nat (Z.to_nat (87 + n)).

Fixpoint hex_of_bytes (bs : list Z) : string :=
  match bs with
  | [] => EmptyString
  | b :: bs' => String (hex_digit (b / 16)) (String (hex_digit (b mod 16)) (hex_of_bytes bs'))
  end.

(** [crypto.createHash('md5').update(s).digest('hex')]. *)
Definition md5_hex (s : string) : string := hex_of_bytes (digest s).

End MD5.


(* ===================================================================== *)
(** * The TypeScript syntax tree, as the analyzers read it *)
(* ===================================================================== *)

Module Ts.

(** The members of [ts.SyntaxKind] that the analyzers test for; every other
    kind is an [OtherKind]. *)
Inductive SyntaxKind :=
  | EndOfFileToken
  | ImportDeclaration | ExportDeclaration | ExportAssignment
  | ExpressionStatement | EmptyStatement
  | FunctionDeclaration | VariableStatement | VariableDeclarationList
  | VariableDeclaration
  | ClassDeclaration | InterfaceDeclaration | TypeAliasDeclaration
  | EnumDeclaration | ModuleDeclaration | ModuleBlock
  | Identifier | ArrowFunction | FunctionExpression
  | MethodDeclaration | Constructor | PropertyDeclaration
  | GetAccessor | SetAccessor
  | MethodSignature | CallSignature | PropertySignature
  | HeritageClause | Block
  | IfStatement | ForStatement | ForInStatement | ForOfStatement
  | WhileStatement | DoStatement | CaseClause | CatchClause
  | ConditionalExpression | BinaryExpression
  | SwitchStatement | TryStatement | ReturnStatement | ThrowStatement
  | CallExpression | PropertyAccessExpression
  | ExportKeyword | DefaultKeyword | AsyncKeyword | StaticKeyword
  | PrivateKeyword | AbstractKeyword | OverrideKeyword
  | ExtendsKeyword | ImplementsKeyword
  | AmpersandAmpersandToken | BarBarToken | QuestionQuestionToken
  | OtherKind (tag : nat).

Global Instance SyntaxKind_eq_dec : EqDecision SyntaxKind.
Proof. solve_decision. Defined.

(** The property of its parent under which a node hangs. *)
Inductive Role :=
  | RoleModifier | RoleName | RoleParameter | RoleBody
  | RoleDeclarationList | RoleDeclaration | RoleInitializer
  | RoleHeritageClause | RoleHeritageType | RoleMember
  | RoleExpression | RoleArgument
  | RoleElseStatement | RoleOperatorToken
  | RoleOther.

Global Instance Role_eq_dec : EqDecision Role.
Proof. solve_decision. Defined.

(** A node of the tree built by [ts.createSourceFile]. [startLine],
    [startCharacter] and [endLine] are what
    [sourceFile.getLineAndCharacterOfPosition] gives for [node.getStart()] and
    [node.getEnd()] (zero-based); the parser gives every node a position, so
    the [catch] fallbacks of the analyzers are not modelled. [text] is the
    text of an identifier, [token] the [token] of a heritage clause, [jsDoc]
    the answer of [hasJsDocComment], and [children] the nodes in the order of
    [ts.forEachChild]. *)
Inductive Node := Nd {
  kind : SyntaxKind;
  role : Role;
  text : string;
  startLine : Z;
  startCharacter : Z;
  endLine : Z;
  token : option SyntaxKind;
  jsDoc : bool;
  children : list Node
}.

Definition is_kind (k : SyntaxKind) (n : Node) : bool := bool_decide (kind n = k).

Definition childrenWith (r : Role) (n : Node) : list Node :=
  List.filter (fun c => bool_decide (role c = r)) (children n).

(** [node.name], [node.modifiers], [node.parameters], [node.members],
    [node.heritageClauses], [node.arguments], [node.expression],
    [node.initializer], [node.operatorToken]. *)
Definition name (n : Node) : option Node := head (childrenWith RoleName n).
Definition modifiers (n : Node) : list Node := childrenWith RoleModifier n.
Definition parameters (n : Node) : list Node := childrenWith RoleParameter n.
Definition members (n : Node) : list Node := childrenWith RoleMember n.
Definition heritageClauses (n : Node) : list Node := childrenWith RoleHeritageClause n.
Definition arguments (n : Node) : list Node := childrenWith RoleArgument n.
Definition expression (n : Node) : option Node := head (childrenWith RoleExpression n).
Definition initializer (n : Node) : option Node := head (childrenWith RoleInitializer n).
Definition operatorToken (n : Node) : option Node := head (childrenWith RoleOperatorToken n).

(** [node.declarationList.declarations] of a variable statement. *)
Definition declarations (n : Node) : list Node :=
  match head (childrenWith RoleDeclarationList n) with
  | Some dl => childrenWith RoleDeclaration dl
  | None => []
  end.

(** [modifiers?.some(m => m.kind === k)]. *)
Definition hasModifier (k : SyntaxKind) (n : Node) : bool :=
  existsb (is_kind k) (modifiers n).

(** A comment token of the scanner: whether it is a multi-line comment, and
    its text. *)
Record CommentTrivia := mkComment { multiLine : bool; commentText : string }.

(** The source file: its statements, the end-of-file token that
    [forEachChild] visits after them, the line of [sourceFile.getEnd()], and
    the comments that [ts.createScanner] yields over its text. *)
Record SourceFile := mkSourceFile {
  fileName : string;
  fullText : string;
  statements : list Node;
  endOfFileToken : Node;
  lastLine : Z;
  comments : list CommentTrivia
}.

(** [ts.forEachChild(sourceFile, ...)]. *)
Definition sourceFileChildren (sf : SourceFile) : list Node :=
  statements sf ++ [endOfFileToken sf].

Inductive ScriptKind := TS | TSX.

(** [ts.createSourceFile(fileName, content, ScriptTarget.Latest, true,
    scriptKind)]; without a script kind the compiler chooses by extension. *)
Class Compiler := {
  createSourceFile : string -> string -> option ScriptKind -> SourceFile
}.

End Ts.

(* ===================================================================== *)
(** * Metrics collector (src/analysis/metricsCollector.ts) *)
(* ===================================================================== *)

Module Metrics.
Import Ts.

Record NodeMetrics := mkNodeMetrics {
  cyclomaticComplexity : Z;
  cognitiveComplexity : Z;
  maxNestingDepth : Z;
  returnCount : Z;
  throwCount : Z;
  callbackDepth : Z;
  promiseChainLength : Z;
  methodCount : Z;
  fieldCount : Z;
  staticMethodCount : Z;
  staticFieldCount : Z;
  privateMethodCount : Z;
  publicMethodCount : Z;
  asyncMethodCount : Z
}.

(** [TraversalState]. *)
Record TraversalState := mkTraversal {
  t_cyclomatic : Z;
  t_cognitive : Z;
  t_currentNesting : Z;
  t_maxNesting : Z;
  t_cognitiveNestingLevel : Z;
  t_returnCount : Z;
  t_throwCount : Z;
  t_currentCallbackDepth : Z;
  t_maxCallbackDepth : Z;
  t_maxPromiseChainLength : Z;
  t_insideNestedFunction : bool
}.

Definition add_cyclomatic (d : Z) (s : TraversalState) : TraversalState :=
  mkTraversal (t_cyclomatic s + d) (t_cognitive s) (t_currentNesting s)
    (t_maxNesting s) (t_cognitiveNestingLevel s) (t_returnCount s)
    (t_throwCount s) (t_currentCallbackDepth s) (t_maxCallbackDepth s)
    (t_maxPromiseChainLength s) (t_insideNestedFunction s).

Definition add_cognitive (d : Z) (s : TraversalState) : TraversalState :=
  mkTraversal (t_cyclomatic s) (t_cognitive s + d) (t_currentNesting s)
    (t_maxNesting s) (t_cognitiveNestingLevel s) (t_returnCount s)
    (t_throwCount s) (t_currentCallbackDepth s) (t_maxCallbackDepth s)
    (t_maxPromiseChainLength s) (t_insideNestedFunction s).

(** [currentNestingDepth++] with the running maximum. *)
Definition enter_nesting (s : TraversalState) : TraversalState :=
  mkTraversal (t_cyclomatic s) (t_cognitive s) (t_currentNesting s + 1)
    (Z.max (t_maxNesting s) (t_currentNesting s + 1))
    (t_cognitiveNestingLevel s) (t_returnCount s)
    (t_throwCount s) (t_currentCallbackDepth s) (t_maxCallbackDepth s)
    (t_maxPromiseChainLength s) (t_insideNestedFunction s).

Definition leave_nesting (s : TraversalState) : TraversalState :=
  mkTraversal (t_cyclomatic s) (t_cognitive s) (t_currentNesting s - 1)
    (t_maxNesting s) (t_cognitiveNestingLevel s) (t_returnCount s)
    (t_throwCount s) (t_currentCallbackDepth s) (t_maxCallbackDepth s)
    (t_maxPromiseChainLength s) (t_insideNestedFunction s).

Definition add_cognitiveNesting (d : Z) (s : TraversalState) : TraversalState :=
  mkTraversal (t_cyclomatic s) (t_cognitive s) (t_currentNesting s)
    (t_maxNesting s) (t_cognitiveNestingLevel s + d) (t_returnCount s)
    (t_throwCount s) (t_currentCallbackDepth s) (t_maxCallbackDepth s)
    (t_maxPromiseChainLength s) (t_insideNestedFunction s).

Definition add_return (s : TraversalState) : TraversalState :=
  mkTraversal (t_cyclomatic s) (t_cognitive s) (t_currentNesting s)
    (t_maxNesting s) (t_cognitiveNestingLevel s) (t_returnCount s + 1)
    (t_throwCount s) (t_currentCallbackDepth s) (t_maxCallbackDepth s)
    (t_maxPromiseChainLength s) (t_insideNestedFunction s).

Definition add_throw (s : TraversalState) : TraversalState :=
  mkTraversal (t_cyclomatic s) (t_cognitive s) (t_currentNesting s)
    (t_maxNesting s) (t_cognitiveNestingLevel s) (t_returnCount s)
    (t_throwCount s + 1) (t_currentCallbackDepth s) (t_maxCallbackDepth s)
    (t_maxPromiseChainLength s) (t_insideNestedFunction s).

(** [currentCallbackDepth++] with the running maximum. *)
Definition enter_callback (s : TraversalState) : TraversalState :=
  mkTraversal (t_cyclomatic s) (t_cognitive s) (t_currentNesting s)
    (t_maxNesting s) (t_cognitiveNestingLevel s) (t_returnCount s)
    (t_throwCount s) (t_currentCallbackDepth s + 1)
    (Z.max (t_maxCallbackDepth s) (t_currentCallbackDepth s + 1))
    (t_maxPromiseChainLength s) (t_insideNestedFunction s).

Definition leave_callback (s : TraversalState) : TraversalState :=
  mkTraversal (t_cyclomatic s) (t_cognitive s) (t_currentNesting s)
    (t_maxNesting s) (t_cognitiveNestingLevel s) (t_returnCount s)
    (t_throwCount s) (t_currentCallbackDepth s - 1) (t_maxCallbackDepth s)
    (t_maxPromiseChainLength s) (t_insideNestedFunction s).

Definition set_insideNested (b : bool) (s : TraversalState) : TraversalState :=
  mkTraversal (t_cyclomatic s) (t_cognitive s) (t_currentNesting s)
    (t_maxNesting s) (t_cognitiveNestingLevel s) (t_returnCount s)
    (t_throwCount s) (t_currentCallbackDepth s) (t_maxCallbackDepth s)
    (t_maxPromiseChainLength s) b.

Definition isFunctionLiteral (n : Node) : bool :=
  is_kind FunctionExpression n || is_kind ArrowFunction n.

(** [isCallbackFunction], with the parent and the grandparent of the node
    (a function literal always has both in a parsed file). *)
Definition isCallbackFunction (parent grand : option Node) (n : Node) : bool :=
  if negb (isFunctionLiteral n) then false
  else
    match parent with
    | None => false
    | Some p =>
        if is_kind CallExpression p then bool_decide (role n = RoleArgument)
        else
          match grand with
          | Some g =>
              if is_kind CallExpression g then bool_decide (role p = RoleArgument)
              else false
          | None => false
          end
    end.

(** [&&], [||] or [??]. *)
Definition isLogicalOperator (k : SyntaxKind) : bool :=
  bool_decide (k = AmpersandAmpersandToken) || bool_decide (k = BarBarToken)
  || bool_decide (k = QuestionQuestionToken).

Definition operatorKind (n : Node) : option SyntaxKind := kind <$> operatorToken n.

(** The first [switch] of [visitNode]. *)
Definition cyclomaticStep (n : Node) (s : TraversalState) : TraversalState :=
  match kind n with
  | IfStatement | ForStatement | ForInStatement | ForOfStatement
  | WhileStatement | DoStatement | CaseClause | CatchClause
  | ConditionalExpression => add_cyclomatic 1 s
  | BinaryExpression =>
      match operatorKind n with
      | Some op => if isLogicalOperator op then add_cyclomatic 1 s else s
      | None => s
      end
  | _ => s
  end.

(** The second [switch] of [visitNode]: the new state and whether the
    cognitive nesting level grows for the children. *)
Definition cognitiveStep (parent : option Node) (n : Node) (s : TraversalState)
    : TraversalState * bool :=
  match kind n with
  | IfStatement =>
      let elseIf :=
        match parent with
        | Some p => is_kind IfStatement p && bool_decide (role n = RoleElseStatement)
        | None => false
        end in
      (if elseIf then add_cognitive 1 s
       else add_cognitive (1 + t_cognitiveNestingLevel s) s, true)
  | ForStatement | ForInStatement | ForOfStatement | WhileStatement
  | DoStatement | CatchClause | SwitchStatement =>
      (add_cognitive (1 + t_cognitiveNestingLevel s) s, true)
  | ConditionalExpression =>
      (add_cognitive (1 + t_cognitiveNestingLevel s) s, false)
  | BinaryExpression =>
      match operatorKind n with
      | Some op =>
          if isLogicalOperator op then
            let sameAsParent :=
              match parent with
              | Some p =>
                  is_kind BinaryExpression p
                  && bool_decide (operatorKind p = Some op)
              | None => false
              end in
            (if sameAsParent then s else add_cognitive 1 s, false)
          else (s, false)
      | None => (s, false)
      end
  | _ => (s, false)
  end.

(** The kinds that deepen the nesting. *)
Definition increasesNesting (n : Node) : bool :=
  match kind n with
  | IfStatement | ForStatement | ForInStatement | ForOfStatement
  | WhileStatement | DoStatement | TryStatement | SwitchStatement
  | ArrowFunction | FunctionExpression => true
  | _ => false
  end.

Definition controlFlowStep (n : Node) (s : TraversalState) : TraversalState :=
  if t_insideNestedFunction s then s
  else
    let s1 := if is_kind ReturnStatement n then add_return s else s in
    if is_kind ThrowStatement n then add_throw s1 else s1.

(** [visitNode(node, state, isTopLevel)]; the state is threaded through the
    children in order. *)
Fixpoint visitNode (parent grand : option Node) (n : Node) (isTopLevel : bool)
    (s : TraversalState) {struct n} : TraversalState :=
  match n with
  | Nd k r tx sl sc el tk jd kids =>
      let visitChildren :=
        (fix go (l : list Node) (s0 : TraversalState) : TraversalState :=
           match l with
           | [] => s0
           | c :: l' => go l' (visitNode (Some n) parent c false s0)
           end) in
      let isCallback := isCallbackFunction parent grand n in
      let s1 := if isCallback then enter_callback s else s in
      let isNestedFunction :=
        negb isTopLevel
        && (is_kind FunctionDeclaration n || is_kind FunctionExpression n
            || is_kind ArrowFunction n) in
      if isNestedFunction && negb isCallback then
        let saved := t_insideNestedFunction s1 in
        let s2 := add_cognitiveNesting 1 (set_insideNested true s1) in
        let s3 := visitChildren kids s2 in
        add_cognitiveNesting (-1) (set_insideNested saved s3)
      else
        let s2 := cyclomaticStep n s1 in
        let '(s3, increasedCognitiveNesting) := cognitiveStep parent n s2 in
        let increasedNesting := increasesNesting n in
        let s4 := if increasedNesting then enter_nesting s3 else s3 in
        let s5 := controlFlowStep n s4 in
        let s6 := if increasedCognitiveNesting then add_cognitiveNesting 1 s5 else s5 in
        let s7 := visitChildren kids s6 in
        let s8 := if increasedNesting then leave_nesting s7 else s7 in
        let s9 := if increasedCognitiveNesting then add_cognitiveNesting (-1) s8 else s8 in
        if isCallback then leave_callback s9 else s9
  end.

(** The height of a tree, the fuel of [measurePromiseChain]. *)
Fixpoint height (n : Node) : nat :=
  match n with
  | Nd _ _ _ _ _ _ _ _ kids =>
      S ((fix go (l : list Node) : nat :=
            match l with
            | [] => O
            | c :: l' => Nat.max (height c) (go l')
            end) kids)
  end.

Definition isPromiseMethod (m : string) : bool :=
  String.eqb m "then" || String.eqb m "catch" || String.eqb m "finally".

(** [measurePromiseChain]: the loop walks down [expression] links, at most
    [fuel] of them. *)
Fixpoint measurePromiseChainFrom (fuel : nat) (current : Node) : Z :=
  match fuel with
  | O => 0
  | S fuel' =>
      if is_kind CallExpression current then
        match expression current with
        | Some expr =>
            if is_kind PropertyAccessExpression expr then
              match name expr with
              | Some m =>
                  if isPromiseMethod (text m) then
                    match expression expr with
                    | Some next => 1 + measurePromiseChainFrom fuel' next
                    | None => 1
                    end
                  else 0
              | None => 0
              end
            else 0
        | None => 0
        end
      else 0
  end.

Definition measurePromiseChain (n : Node) : Z :=
  measurePromiseChainFrom (height n) n.

(** The inner [visit] of [findMaxPromiseChainLength]: the largest chain
    among a node and its descendants. *)
Fixpoint maxChainIn (n : Node) : Z :=
  match n with
  | Nd _ _ _ _ _ _ _ _ kids =>
      let here := if is_kind CallExpression n then measurePromiseChain n else 0 in
      (fix go (l : list Node) (m : Z) : Z :=
         match l with
         | [] => m
         | c :: l' => go l' (Z.max m (maxChainIn c))
         end) kids here
  end.

(** [findMaxPromiseChainLength]: over the proper descendants. *)
Definition findMaxPromiseChainLength (n : Node) : Z :=
  fold_left (fun m c => Z.max m (maxChainIn c)) (children n) 0.

Definition initialState : TraversalState :=
  mkTraversal 1 0 0 0 0 0 0 0 0 0 false.

(** [collectNodeMetrics(node)], for a node with the given parent and
    grandparent. *)
Definition collectNodeMetrics (parent grand : option Node) (n : Node) : NodeMetrics :=
  let s := visitNode parent grand n false initialState in
  {| cyclomaticComplexity := t_cyclomatic s;
     cognitiveComplexity := t_cognitive s;
     maxNestingDepth := t_maxNesting s;
     returnCount := t_returnCount s;
     throwCount := t_throwCount s;
     callbackDepth := t_maxCallbackDepth s;
     promiseChainLength :=
       Z.max (t_maxPromiseChainLength s) (findMaxPromiseChainLength n);
     methodCount := 0; fieldCount := 0; staticMethodCount := 0;
     staticFieldCount := 0; privateMethodCount := 0; publicMethodCount := 0;
     asyncMethodCount := 0 |}.

Definition incr_if (b : bool) (x : Z) : Z := if b then x + 1 else x.

(** One round of the loop of [collectClassMetrics] over the members. *)
Definition classMemberStep (cls : Node) (acc : NodeMetrics) (member : Node) : NodeMetrics :=
  let isStatic := hasModifier StaticKeyword member in
  let isPrivate := hasModifier PrivateKeyword member in
  let isAsync := hasModifier AsyncKeyword member in
  if is_kind MethodDeclaration member || is_kind Constructor member then
    let m := collectNodeMetrics (Some cls) None member in
    {| cyclomaticComplexity := cyclomaticComplexity acc + cyclomaticComplexity m;
       cognitiveComplexity := cognitiveComplexity acc + cognitiveComplexity m;
       maxNestingDepth := Z.max (maxNestingDepth acc) (maxNestingDepth m);
       returnCount := returnCount acc + returnCount m;
       throwCount := throwCount acc + throwCount m;
       callbackDepth := Z.max (callbackDepth acc) (callbackDepth m);
       promiseChainLength := Z.max (promiseChainLength acc) (promiseChainLength m);
       methodCount := methodCount acc + 1;
       fieldCount := fieldCount acc;
       staticMethodCount := incr_if isStatic (staticMethodCount acc);
       staticFieldCount := staticFieldCount acc;
       privateMethodCount := incr_if isPrivate (privateMethodCount acc);
       publicMethodCount := incr_if (negb isPrivate) (publicMethodCount acc);
       asyncMethodCount := incr_if isAsync (asyncMethodCount acc) |}
  else if is_kind PropertyDeclaration member then
    {| cyclomaticComplexity := cyclomaticComplexity acc;
       cognitiveComplexity := cognitiveComplexity acc;
       maxNestingDepth := maxNestingDepth acc;
       returnCount := returnCount acc;
       throwCount := throwCount acc;
       callbackDepth := callbackDepth acc;
       promiseChainLength := promiseChainLength acc;
       methodCount := methodCount acc;
       fieldCount := fieldCount acc + 1;
       staticMethodCount := staticMethodCount acc;
       staticFieldCount := incr_if isStatic (staticFieldCount acc);
       privateMethodCount := privateMethodCount acc;
       publicMethodCount := publicMethodCount acc;
       asyncMethodCount := asyncMethodCount acc |}
  else if is_kind GetAccessor member || is_kind SetAccessor member then
    let m := collectNodeMetrics (Some cls) None member in
    {| cyclomaticComplexity := cyclomaticComplexity acc + cyclomaticComplexity m;
       cognitiveComplexity := cognitiveComplexity acc + cognitiveComplexity m;
       maxNestingDepth := maxNestingDepth acc;
       returnCount := returnCount acc + returnCount m;
       throwCount := throwCount acc;
       callbackDepth := Z.max (callbackDepth acc) (callbackDepth m);
       promiseChainLength := Z.max (promiseChainLength acc) (promiseChainLength m);
       methodCount := methodCount acc + 1;
       fieldCount := fieldCount acc;
       staticMethodCount := incr_if isStatic (staticMethodCount acc);
       staticFieldCount := staticFieldCount acc;
       privateMethodCount := incr_if isPrivate (privateMethodCount acc);
       publicMethodCount := incr_if (negb isPrivate) (publicMethodCount acc);
       asyncMethodCount := asyncMethodCount acc |}
  else acc.

(** [collectClassMetrics]. *)
Definition collectClassMetrics (cls : Node) : NodeMetrics :=
  fold_left (classMemberStep cls) (members cls)
    (mkNodeMetrics 1 0 0 0 0 0 0 0 0 0 0 0 0 0).

(** [countCommentLines]: one line per single-line comment, and the number
    of lines of its text for a multi-line one. *)
Fixpoint newlines (s : string) : Z :=
  match s with
  | EmptyString => 0
  | String c s' => (if Ascii.eqb c "010" then 1 else 0) + newlines s'
  end.

Definition countCommentLines (sf : SourceFile) : Z :=
  fold_left (fun acc c =>
               if multiLine c then acc + (newlines (commentText c) + 1)
               else acc + 1)
            (comments sf) 0.

End Metrics.

(* ===================================================================== *)
(** * Symbol extractor (src/analysis/lightweightParser.ts) *)
(* ===================================================================== *)

Module Parser.
Import Ts.

(** [SymbolKind] of src/types. *)
Inductive SymbolKind :=
  | KindClass | KindInterface | KindFunction | KindType | KindEnum
  | KindVariable | KindNamespace | KindComponent | KindHook.

Global Instance SymbolKind_eq_dec : EqDecision SymbolKind.
Proof. solve_decision. Defined.

(** The value of an optional metric property. *)
Inductive MetricValue :=
  | NumberValue (z : Z)
  | BooleanValue (b : bool)
  | RatioValue (q : Q).

(** [LightweightSymbol]. The properties that [nodeToSymbol] sets on every
    symbol are fields; [complexity] is absent on interfaces, type aliases,
    enums and namespaces; the other optional metrics are the property list
    [metrics], in the order of the object literal. *)
Record LightweightSymbol := mkSymbol {
  name : string;
  kind : SymbolKind;
  filePath : string;
  line : Z;
  endLine : Z;
  column : Z;
  exported : bool;
  isDefault : bool;
  linesOfCode : Z;
  complexity : option Z;
  metrics : list (string * MetricValue)
}.

(** [String.prototype.toUpperCase] on one ASCII character. *)
Definition toUpperCase (c : ascii) : ascii :=
  let n := nat_of_ascii c in
  if (97 <=? n)%nat && (n <=? 122)%nat then ascii_of_nat (n - 32) else c.

(** [/^[A-Z]/.test] on the first character. *)
Definition isUpperLetter (c : ascii) : bool :=
  let n := nat_of_ascii c in (65 <=? n)%nat && (n <=? 90)%nat.

(** What a call that can throw comes to: the value it returns, or the
    [TypeError] it throws. *)
Inductive Outcome (A : Type) :=
  | Returns (a : A)
  | Throws.
Arguments Returns {A}.
Arguments Throws {A}.

(** The outcomes of calls made one after the other, each pushing what it
    returns to the same list: the list is lost when one of them throws. *)
Definition collect {A} (calls : list (Outcome (list A))) : Outcome (list A) :=
  fold_right (fun call rest =>
                match call, rest with
                | Returns l, Returns r => Returns (l ++ r)
                | _, _ => Throws
                end)
             (Returns []) calls.

(** [detectReactHookOrComponent]. In a [.tsx] file the second test reads
    [name[0].toUpperCase()], and [name[0]] is [undefined] when the name is
    empty (the name of a declaration whose identifier is missing): the
    call throws. *)
Definition detectReactHookOrComponent (name : string) (isTsx : bool)
    : Outcome SymbolKind :=
  if String.prefix "use" name && (3 <? String.length name)%nat
     && match String.get 3 name with
        | Some c => Ascii.eqb c (toUpperCase c)
        | None => false
        end
  then Returns KindHook
  else if isTsx then
    match String.get 0 name with
    | Some c =>
        if Ascii.eqb c (toUpperCase c) && isUpperLetter c
        then Returns KindComponent
        else Returns KindFunction
    | None => Throws
    end
  else Returns KindFunction.

(** [hasExportModifier] and [hasDefaultModifier]. *)
Definition hasExportModifier (n : Node) : bool := hasModifier ExportKeyword n.
Definition hasDefaultModifier (n : Node) : bool := hasModifier DefaultKeyword n.

(** [getEndLine]. *)
Definition getEndLine (n : Node) : Z := Ts.endLine n.

(** [analyzeInterface]: the method and the field count. *)
Definition analyzeInterface (n : Node) : Z * Z :=
  fold_left (fun '(m, f) member =>
               if is_kind MethodSignature member || is_kind CallSignature member
               then (m + 1, f)
               else if is_kind PropertySignature member then (m, f + 1)
               else (m, f))
            (members n) (0, 0).

(** [getInheritanceDepth]. *)
Definition getInheritanceDepth (n : Node) : Z :=
  if existsb (fun c => bool_decide (token c = Some ExtendsKeyword)) (heritageClauses n)
  then 1 else 0.

(** [getConstructorParamCount]. *)
Definition getConstructorParamCount (n : Node) : Z :=
  match List.find (is_kind Constructor) (members n) with
  | Some ctor => Z.of_nat (List.length (parameters ctor))
  | None => 0
  end.

(** [getImplementsCount]. *)
Definition getImplementsCount (n : Node) : Z :=
  fold_left (fun count clause =>
               if bool_decide (token clause = Some ImplementsKeyword)
               then count + Z.of_nat (List.length (childrenWith RoleHeritageType clause))
               else count)
            (heritageClauses n) 0.

(** [isAbstractClass]. *)
Definition isAbstractClass (n : Node) : bool := hasModifier AbstractKeyword n.

(** [getOverrideCount]. *)
Definition getOverrideCount (n : Node) : Z :=
  fold_left (fun count member =>
               if (is_kind MethodDeclaration member || is_kind PropertyDeclaration member)
                  && hasModifier OverrideKeyword member
               then count + 1 else count)
            (members n) 0.

Definition isIdentifierNamed (n : Node) : bool :=
  match Ts.name n with
  | Some nm => is_kind Identifier nm
  | None => false
  end.

Definition nameText (n : Node) : string :=
  match Ts.name n with
  | Some nm => text nm
  | None => EmptyString
  end.

Definition bool_number (b : bool) : Z := if b then 1 else 0.

(** The symbol of the first declaration of a variable statement whose name
    is an identifier. *)
Definition variableSymbol (node decl : Node) (path : string) (isTsx : bool)
    (commentDensity : Q) : Outcome LightweightSymbol :=
  let nm := nameText decl in
  let fn :=
    match initializer decl with
    | Some init =>
        if is_kind ArrowFunction init || is_kind FunctionExpression init
        then Some init else None
    | None => None
    end in
  let declList := head (childrenWith RoleDeclarationList node) in
  let m := (fun init => Metrics.collectNodeMetrics (Some decl) declList init) <$> fn in
  let metric (f : Metrics.NodeMetrics -> Z) (dflt : Z) : Z :=
    match m with Some x => f x | None => dflt end in
  let loc := getEndLine node - startLine node in
  match
    match fn with
    | Some _ => detectReactHookOrComponent nm isTsx
    | None => Returns KindVariable
    end
  with
  | Throws => Throws
  | Returns k =>
      Returns
        {| name := nm;
           kind := k;
           filePath := path;
           line := startLine node + 1;
           endLine := getEndLine node + 1;
           column := startCharacter node + 1;
           exported := hasExportModifier node;
           isDefault := hasDefaultModifier node;
           linesOfCode := loc;
           complexity := Some (metric Metrics.cyclomaticComplexity 1);
           metrics :=
             [ ("cognitiveComplexity", NumberValue (metric Metrics.cognitiveComplexity 0));
               ("parameterCount",
                 NumberValue (match fn with
                              | Some init => Z.of_nat (List.length (parameters init))
                              | None => 0
                              end));
               ("maxNestingDepth", NumberValue (metric Metrics.maxNestingDepth 0));
               ("asyncMethodCount",
                 NumberValue (bool_number (match fn with
                                           | Some init => hasModifier AsyncKeyword init
                                           | None => false
                                           end)));
               ("returnCount", NumberValue (metric Metrics.returnCount 0));
               ("throwCount", NumberValue (metric Metrics.throwCount 0));
               ("hasJsDoc", BooleanValue (jsDoc node));
               ("commentDensity", RatioValue commentDensity);
               ("callbackDepth", NumberValue (metric Metrics.callbackDepth 0));
               ("promiseChainLength", NumberValue (metric Metrics.promiseChainLength 0)) ]%string |}
  end.

(** [nodeToSymbol]: [None] for [null]; it throws when
    [detectReactHookOrComponent] does. *)
Definition nodeToSymbol (node : Node) (path : string) (isTsx : bool)
    (commentDensity : Q) : Outcome (option LightweightSymbol) :=
  if is_kind ImportDeclaration node || is_kind ExportDeclaration node
     || is_kind ExportAssignment node || is_kind ExpressionStatement node
     || is_kind EmptyStatement node
  then Returns None
  else
    let line0 := startLine node in
    let character := startCharacter node in
    let isExported := hasExportModifier node in
    let isDflt := hasDefaultModifier node in
    let endLine0 := getEndLine node in
    let loc := endLine0 - line0 in
    let base (nm : string) (k : SymbolKind) (dflt : bool) (cx : option Z)
             (ms : list (string * MetricValue)) :=
      Returns
        (Some {| name := nm; kind := k; filePath := path; line := line0 + 1;
                 endLine := endLine0 + 1; column := character + 1;
                 exported := isExported; isDefault := dflt; linesOfCode := loc;
                 complexity := cx; metrics := ms |}) in
    if is_kind FunctionDeclaration node && bool_decide (is_Some (Ts.name node)) then
      match detectReactHookOrComponent (nameText node) isTsx with
      | Throws => Throws
      | Returns functionKind =>
          let m := Metrics.collectNodeMetrics None None node in
          base (nameText node) functionKind
            isDflt (Some (Metrics.cyclomaticComplexity m))
            [ ("cognitiveComplexity", NumberValue (Metrics.cognitiveComplexity m));
              ("parameterCount", NumberValue (Z.of_nat (List.length (parameters node))));
              ("maxNestingDepth", NumberValue (Metrics.maxNestingDepth m));
              ("asyncMethodCount", NumberValue (bool_number (hasModifier AsyncKeyword node)));
              ("returnCount", NumberValue (Metrics.returnCount m));
              ("throwCount", NumberValue (Metrics.throwCount m));
              ("hasJsDoc", BooleanValue (jsDoc node));
              ("commentDensity", RatioValue commentDensity);
              ("callbackDepth", NumberValue (Metrics.callbackDepth m));
              ("promiseChainLength", NumberValue (Metrics.promiseChainLength m)) ]%string
      end
    else
      match
        (if is_kind VariableStatement node
         then List.find isIdentifierNamed (declarations node) else None)
      with
      | Some decl =>
          match variableSymbol node decl path isTsx commentDensity with
          | Throws => Throws
          | Returns symbol => Returns (Some symbol)
          end
      | None =>
        if is_kind ClassDeclaration node && bool_decide (is_Some (Ts.name node)) then
          let m := Metrics.collectClassMetrics node in
          base (nameText node) KindClass isDflt (Some (Metrics.cyclomaticComplexity m))
            [ ("cognitiveComplexity", NumberValue (Metrics.cognitiveComplexity m));
              ("methodCount", NumberValue (Metrics.methodCount m));
              ("fieldCount", NumberValue (Metrics.fieldCount m));
              ("inheritanceDepth", NumberValue (getInheritanceDepth node));
              ("maxNestingDepth", NumberValue (Metrics.maxNestingDepth m));
              ("staticMethodCount", NumberValue (Metrics.staticMethodCount m));
              ("staticFieldCount", NumberValue (Metrics.staticFieldCount m));
              ("privateMethodCount", NumberValue (Metrics.privateMethodCount m));
              ("publicMethodCount", NumberValue (Metrics.publicMethodCount m));
              ("asyncMethodCount", NumberValue (Metrics.asyncMethodCount m));
              ("returnCount", NumberValue (Metrics.returnCount m));
              ("throwCount", NumberValue (Metrics.throwCount m));
              ("constructorParamCount", NumberValue (getConstructorParamCount node));
              ("implementsCount", NumberValue (getImplementsCount node));
              ("hasJsDoc", BooleanValue (jsDoc node));
              ("commentDensity", RatioValue commentDensity);
              ("isAbstract", BooleanValue (isAbstractClass node));
              ("overrideCount", NumberValue (getOverrideCount node));
              ("callbackDepth", NumberValue (Metrics.callbackDepth m));
              ("promiseChainLength", NumberValue (Metrics.promiseChainLength m)) ]%string
        else if is_kind InterfaceDeclaration node && bool_decide (is_Some (Ts.name node)) then
          let '(methodCount, fieldCount) := analyzeInterface node in
          base (nameText node) KindInterface false None
            [ ("methodCount", NumberValue methodCount);
              ("fieldCount", NumberValue fieldCount);
              ("hasJsDoc", BooleanValue (jsDoc node));
              ("commentDensity", RatioValue commentDensity) ]%string
        else if is_kind TypeAliasDeclaration node && bool_decide (is_Some (Ts.name node)) then
          base (nameText node) KindType false None
            [ ("hasJsDoc", BooleanValue (jsDoc node));
              ("commentDensity", RatioValue commentDensity) ]%string
        else if is_kind EnumDeclaration node && bool_decide (is_Some (Ts.name node)) then
          base (nameText node) KindEnum false None
            [ ("fieldCount", NumberValue (Z.of_nat (List.length (members node))));
              ("commentDensity", RatioValue commentDensity) ]%string
        else if is_kind ModuleDeclaration node && isIdentifierNamed node then
          base (nameText node) KindNamespace false None
            [ ("commentDensity", RatioValue commentDensity) ]%string
        else Returns None
      end.

(** The inner [visit] of [extractSymbols], with the symbols it pushes:
    nothing below depth 1; the children of a namespace or a class are
    visited one level deeper. It throws when a call of [nodeToSymbol]
    does. *)
Fixpoint visit (path : string) (isTsx : bool) (commentDensity : Q)
    (node : Node) (depth : Z) {struct node} : Outcome (list LightweightSymbol) :=
  match node with
  | Nd _ _ _ _ _ _ _ _ kids =>
      if depth >? 1 then Returns []
      else
        match nodeToSymbol node path isTsx commentDensity with
        | Throws => Throws
        | Returns symbol =>
            collect
              (Returns (option_list symbol)
               :: (if is_kind ModuleDeclaration node || is_kind ClassDeclaration node
                   then List.map (fun child =>
                                    visit path isTsx commentDensity child (depth + 1))
                                 kids
                   else []))
        end
  end.

(** [extractSymbols]: the symbols pushed by the visits of the children of
    the source file; nothing is returned when a visit throws. *)
Definition extractSymbols (sf : SourceFile) (path : string) (isTsx : bool)
    (commentDensity : Q) : Outcome (list LightweightSymbol) :=
  collect (List.map (fun node => visit path isTsx commentDensity node 0)
                    (sourceFileChildren sf)).

(** [String.prototype.endsWith]. *)
Definition endsWith (s suffix : string) : bool :=
  let n := String.length s in
  let m := String.length suffix in
  (m <=? n)%nat && String.eqb (substring (n - m) m s) suffix.

(** The fields of a [LightweightParser]. *)
Record State := mkState {
  cacheManager : Cache.State (list LightweightSymbol);
  stats : Cache.CacheStatistics
}.

Section ParseFile.
Context {RT : Cache.Runtime (list LightweightSymbol)} {TC : Compiler}.

Definition count_hit (s : Cache.CacheStatistics) : Cache.CacheStatistics :=
  Cache.mkStats (Cache.hits s + 1) (Cache.misses s) (Cache.size s)
                (Cache.maxSize s) (Cache.evictions s).

Definition count_miss (s : Cache.CacheStatistics) : Cache.CacheStatistics :=
  Cache.mkStats (Cache.hits s) (Cache.misses s + 1) (Cache.size s)
                (Cache.maxSize s) (Cache.evictions s).

(** The comment density of [parseFile]. *)
Definition commentDensityOf (sf : SourceFile) : Q :=
  let totalLines := lastLine sf + 1 in
  if totalLines >? 0
  then (inject_Z (Metrics.countCommentLines sf) / inject_Z totalLines)%Q
  else 0%Q.

(** [parseFile]: the new state and the symbols; [None] when the promise
    is rejected, because the file cannot be read or because
    [extractSymbols] throws (nothing is cached then). [now] is the clock at
    the time of the call. *)
Definition parseFile (fs : Cache.FileSystem) (now : Z) (st : State) (path : string)
    : State * option (list LightweightSymbol) :=
  match Cache.get fs (cacheManager st) path with
  | (cm, Some cached) => (mkState cm (count_hit (stats st)), Some cached)
  | (cm, None) =>
      let st1 := mkState cm (count_miss (stats st)) in
      match fs path with
      | None => (st1, None)
      | Some content =>
          let isTsx := endsWith path ".tsx" in
          let isJsx := endsWith path ".jsx" in
          let scriptKind := if isTsx || isJsx then TSX else TS in
          let sf := createSourceFile path content (Some scriptKind) in
          match extractSymbols sf path isTsx (commentDensityOf sf) with
          | Throws => (st1, None)
          | Returns symbols =>
              (mkState (Cache.set now cm path symbols content) (stats st1),
               Some symbols)
          end
      end
  end.

(** [getCacheStats]. *)
Definition getCacheStats (st : State) : Cache.CacheStatistics := stats st.

(** The loop of [parseFiles], with [completed] files done so far.
    [cancelled i] is what [cancellationToken?.isCancellationRequested]
    gives when the loop reaches the file after [i] files ([false] without a
    token), and [clock i] is the clock at that time. A file whose parse is
    rejected is logged and skipped. The result is the new state, the symbols,
    and the calls of [onProgress] in order. *)
Fixpoint parseFilesFrom (fs : Cache.FileSystem) (clock : nat -> Z)
    (cancelled : nat -> bool) (total : nat) (completed : nat) (st : State)
    (allSymbols : list LightweightSymbol) (progress : list (nat * nat))
    (files : list string)
    : State * list LightweightSymbol * list (nat * nat) :=
  match files with
  | [] => (st, allSymbols, progress)
  | filePath :: rest =>
      if cancelled completed then (st, allSymbols, progress)
      else
        let '(st1, result) := parseFile fs (clock completed) st filePath in
        let allSymbols1 :=
          match result with
          | Some symbols => allSymbols ++ symbols
          | None => allSymbols
          end in
        let completed1 := S completed in
        let progress1 :=
          if (completed1 mod 10 =? 0)%nat
          then progress ++ [(completed1, total)] else progress in
        parseFilesFrom fs clock cancelled total completed1 st1 allSymbols1
                       progress1 rest
  end.

(** [parseFiles]. *)
Definition parseFiles (fs : Cache.FileSystem) (clock : nat -> Z)
    (cancelled : nat -> bool) (st : State) (files : list string)
    : State * list LightweightSymbol * list (nat * nat) :=
  parseFilesFrom fs clock cancelled (List.length files) O st [] [] files.

End ParseFile.

End Parser.

(* ===================================================================== *)
(** * Regular expressions of [quickDeclarationCount] *)
(* ===================================================================== *)

(** A small backtracking matcher with the priorities of the JavaScript
    engine: alternatives in order, greedy repetition that gives characters
    back one at a time. A matcher takes the continuation for the rest of the
    pattern and the text at the current position, and returns the text left
    after the whole match. *)
Module Regex.

Definition Matcher := (string -> option string) -> string -> option string.

Fixpoint strip_prefix (p s : string) : option string :=
  match p, s with
  | EmptyString, _ => Some s
  | String a p', String b s' => if Ascii.eqb a b then strip_prefix p' s' else None
  | String _ _, EmptyString => None
  end.

(** A literal. *)
Definition lit (p : string) : Matcher :=
  fun k s => match strip_prefix p s with Some r => k r | None => None end.

(** [m1 m2]. *)
Definition seq (m1 m2 : Matcher) : Matcher := fun k s => m1 (m2 k) s.

(** [(m1|m2|...)]. *)
Fixpoint alt (ms : list Matcher) : Matcher :=
  fun k s =>
    match ms with
    | [] => None
    | m :: ms' => match m k s with Some r => Some r | None => alt ms' k s end
    end.

(** [(m)?]. *)
Definition opt (m : Matcher) : Matcher :=
  fun k s => match m k s with Some r => Some r | None => k s end.

(** [[class]*]. *)
Fixpoint star (P : ascii -> bool) (k : string -> option string) (s : string)
    : option string :=
  match s with
  | String c s' =>
      if P c then match star P k s' with Some r => Some r | None => k s end
      else k s
  | EmptyString => k s
  end.

(** [[class]+]. *)
Definition plus (P : ascii -> bool) : Matcher :=
  fun k s =>
    match s with
    | String c s' => if P c then star P k s' else None
    | EmptyString => None
    end.

(** One character of a class. *)
Definition one (P : ascii -> bool) : Matcher :=
  fun k s =>
    match s with
    | String c s' => if P c then k s' else None
    | EmptyString => None
    end.

Definition code (c : ascii) : nat := nat_of_ascii c.

(** [\s] on ASCII: tab, line feed, vertical tab, form feed, carriage return,
    space. *)
Definition isSpace (c : ascii) : bool :=
  ((9 <=? code c) && (code c <=? 13) || (code c =? 32))%nat.

(** [\w]. *)
Definition isWord (c : ascii) : bool :=
  ((48 <=? code c) && (code c <=? 57) || (65 <=? code c) && (code c <=? 90)
   || (97 <=? code c) && (code c <=? 122) || (code c =? 95))%nat.

(** The line terminators after which [^] matches under the [m] flag. *)
Definition isLineTerminator (c : ascii) : bool :=
  ((code c =? 10) || (code c =? 13))%nat.

Definition isLineFeed (c : ascii) : bool := (code c =? 10)%nat.

(** The match of a pattern at the current position: the text after it. *)
Definition run (m : Matcher) (s : string) : option string := m Some s.

(** The loop [while ((match = pattern.exec(content)) !== null)] for a
    pattern [^body] with the flags [gm]: the line number
    [content.substring(0, match.index).split('\n').length] of every match.
    [atStart] tells whether [^] holds at the current position, [lineNum] is
    the line number of the position, and [skip] counts the characters still
    covered by the previous match (the search resumes at [lastIndex]). *)
Fixpoint execAll (body : Matcher) (atStart : bool) (lineNum : Z) (skip : nat)
    (s : string) : list Z :=
  match s with
  | EmptyString => []
  | String c s' =>
      let lineNum' := if isLineFeed c then lineNum + 1 else lineNum in
      match skip with
      | S skip' => execAll body (isLineTerminator c) lineNum' skip' s'
      | O =>
          match (if atStart then run body s else None) with
          | Some rest =>
              lineNum ::
                execAll body (isLineTerminator c) lineNum'
                        (String.length s - String.length rest - 1) s'
          | None => execAll body (isLineTerminator c) lineNum' O s'
          end
      end
  end.

(** The line numbers of all the matches of [^body] in [content]. *)
Definition matchLines (body : Matcher) (content : string) : list Z :=
  execAll body true 1 O content.

End Regex.

(* ===================================================================== *)
(** * Incremental parser (src/analysis/incrementalParser.ts) *)
(* ===================================================================== *)

Module Incremental.

(** [CachedSymbol]. *)
Record CachedSymbol := mkCachedSymbol {
  name : string;
  kind : string;
  startLine : Z;
  endLine : Z;
  declarationLine : Z;
  contentHash : string
}.

(** [FileCache]; [fileHash] is its [contentHash]. *)
Record FileCache := mkFileCache {
  filePath : string;
  fileHash : string;
  lineCount : Z;
  symbols : list CachedSymbol;
  lineIndex : gmap Z CachedSymbol
}.

(** [EditInfo]; [editStart] and [editEnd] are its [startLine] and
    [endLine]. *)
Record EditInfo := mkEditInfo {
  editStart : Z;
  editEnd : Z;
  linesDelta : Z
}.

Inductive ParseStrategy := full | partial | skip.

(** [IncrementalParseResult], without the elapsed time [timeMs];
    [resultSymbols] is its [symbols]. *)
Record IncrementalParseResult := mkResult {
  resultSymbols : list CachedSymbol;
  parseStrategy : ParseStrategy;
  affectedSymbols : list string
}.

(** The [fileCache] map of an [IncrementalParser]. *)
Abbreviation State := (gmap string FileCache).

(** [createEditInfo]. *)
Definition createEditInfo (oldLineCount newLineCount changeStartLine changeEndLine : Z)
    : EditInfo :=
  {| editStart := changeStartLine; editEnd := changeEndLine;
     linesDelta := newLineCount - oldLineCount |}.

Definition LF : ascii := "010"%char.

(** [content.split('\n')]. *)
Fixpoint splitLines (s : string) : list string :=
  match s with
  | EmptyString => [EmptyString]
  | String c s' =>
      if Ascii.eqb c LF then EmptyString :: splitLines s'
      else
        match splitLines s' with
        | l :: ls => String c l :: ls
        | [] => [String c EmptyString]
        end
  end.

(** [lines.join('\n')]. *)
Fixpoint joinLines (ls : list string) : string :=
  match ls with
  | [] => EmptyString
  | [l] => l
  | l :: ls' => (l ++ String LF (joinLines ls'))%string
  end.

(** [Array.prototype.slice(b, e)]: negative indices count from the end, and
    both are clamped to the array. *)
Definition slice {A} (b e : Z) (l : list A) : list A :=
  let len := Z.of_nat (List.length l) in
  let clamp i := if i <? 0 then Z.max (len + i) 0 else Z.min i len in
  let b' := clamp b in
  let e' := clamp e in
  firstn (Z.to_nat (e' - b')) (skipn (Z.to_nat b') l).

(** [quickHash]: the first 16 hex digits of the MD5 digest. *)
Definition quickHash (content : string) : string :=
  substring 0 16 (MD5.md5_hex content).

Section Patterns.
Import Regex.

(** [export\s+(default\s+)?(class|interface|function|type|enum|const|let|var)\s+] *)
Definition exportPattern : Matcher :=
  seq (lit "export")
    (seq (plus isSpace)
       (seq (opt (seq (lit "default") (plus isSpace)))
          (seq (alt [lit "class"; lit "interface"; lit "function"; lit "type";
                     lit "enum"; lit "const"; lit "let"; lit "var"])
             (plus isSpace)))).

(** [(class|interface|function|type|enum)\s+\w+] *)
Definition declarationPattern : Matcher :=
  seq (alt [lit "class"; lit "interface"; lit "function"; lit "type"; lit "enum"])
    (seq (plus isSpace) (plus isWord)).

(** [(const|let|var)\s+\w+\s*[=:]] *)
Definition variablePattern : Matcher :=
  seq (alt [lit "const"; lit "let"; lit "var"])
    (seq (plus isSpace)
       (seq (plus isWord)
          (seq (star isSpace)
             (one (fun c => Ascii.eqb c "="%char || Ascii.eqb c ":"%char))))).

(** [quickDeclarationCount]: the number of distinct lines on which one of
    the three patterns matches. *)
Definition quickDeclarationCount (content : string) : Z :=
  Z.of_nat (List.length (nodup Z.eq_dec
    (matchLines exportPattern content
     ++ matchLines declarationPattern content
     ++ matchLines variablePattern content))).
End Patterns.

(** One round of [symbols.map] in [adjustLineNumbers]. *)
Definition adjustSymbol (editInfo : EditInfo) (sym : CachedSymbol) : CachedSymbol :=
  if startLine sym >? editEnd editInfo then
    {| name := name sym; kind := kind sym;
       startLine := startLine sym + linesDelta editInfo;
       endLine := endLine sym + linesDelta editInfo;
       declarationLine := declarationLine sym + linesDelta editInfo;
       contentHash := contentHash sym |}
  else if endLine sym >=? editStart editInfo then
    {| name := name sym; kind := kind sym;
       startLine := startLine sym;
       endLine := endLine sym + linesDelta editInfo;
       declarationLine := declarationLine sym;
       contentHash := contentHash sym |}
  else sym.

(** [adjustLineNumbers]. *)
Definition adjustLineNumbers (syms : list CachedSymbol) (editInfo : EditInfo)
    : list CachedSymbol :=
  List.map (adjustSymbol editInfo) syms.

(** [extractSymbol]: [None] for [null]. *)
Definition extractSymbol (statement : Ts.Node) (lines : list string)
    : option CachedSymbol :=
  let named (k : Ts.SyntaxKind) :=
    Ts.is_kind k statement && bool_decide (is_Some (Ts.name statement)) in
  let nameOf (n : Ts.Node) : option string := Ts.text <$> Ts.name n in
  let nameKind : option string * option string :=
    if named Ts.ClassDeclaration then (nameOf statement, Some "class"%string)
    else if named Ts.InterfaceDeclaration then (nameOf statement, Some "interface"%string)
    else if named Ts.FunctionDeclaration then (nameOf statement, Some "function"%string)
    else if named Ts.TypeAliasDeclaration then (nameOf statement, Some "type"%string)
    else if named Ts.EnumDeclaration then (nameOf statement, Some "enum"%string)
    else if Ts.is_kind Ts.VariableStatement statement then
      match head (Ts.declarations statement) with
      | Some decl =>
          match Ts.name decl with
          | Some nm =>
              if Ts.is_kind Ts.Identifier nm
              then (Some (Ts.text nm), Some "variable"%string)
              else (None, None)
          | None => (None, None)
          end
      | None => (None, None)
      end
    else (None, None) in
  match nameKind with
  | (Some nm, Some k) =>
      if String.eqb nm "" then None
      else
        let startLine0 := Ts.startLine statement + 1 in
        let endLine0 := Ts.endLine statement + 1 in
        let symbolContent := joinLines (slice (startLine0 - 1) endLine0 lines) in
        Some {| name := nm; kind := k; startLine := startLine0;
                endLine := endLine0; declarationLine := startLine0;
                contentHash := quickHash symbolContent |}
  | _ => None
  end.

(** The line index built by [cacheFile]: every line of a symbol points to
    it, later symbols overwriting earlier ones. *)
Definition buildLineIndex (syms : list CachedSymbol) : gmap Z CachedSymbol :=
  fold_left
    (fun idx sym =>
       fold_left (fun idx' ln => <[ln := sym]> idx')
                 (seqZ (startLine sym) (endLine sym - startLine sym + 1)) idx)
    syms ∅.

(** [cacheFile]. *)
Definition cacheFile (st : State) (path content : string) (syms : list CachedSymbol)
    : State :=
  <[path := {| filePath := path;
               fileHash := quickHash content;
               lineCount := Z.of_nat (List.length (splitLines content));
               symbols := syms;
               lineIndex := buildLineIndex syms |}]> st.

Section Parser.
Context {TC : Ts.Compiler}.

(** [fullParse]. *)
Definition fullParse (path content : string) : list CachedSymbol :=
  let sourceFile := Ts.createSourceFile path content None in
  let lines := splitLines content in
  omap (fun statement => extractSymbol statement lines) (Ts.statements sourceFile).

(** [tryPartialParse]: the new state and the result, or [None] for
    [null]. *)
Definition tryPartialParse (st : State) (path newContent : string)
    (cached : FileCache) (editInfo : EditInfo)
    : option (State * IncrementalParseResult) :=
  let affectedDeclarations :=
    List.filter (fun sym => (declarationLine sym >=? editStart editInfo)
                            && (declarationLine sym <=? editEnd editInfo))
                (symbols cached) in
  if (0 <? List.length affectedDeclarations)%nat then None
  else
    let containingSymbol :=
      List.find (fun sym => (editStart editInfo >? declarationLine sym)
                            && (editEnd editInfo <=? endLine sym))
                (symbols cached) in
    match containingSymbol with
    | Some _ =>
        let updatedSymbols := adjustLineNumbers (symbols cached) editInfo in
        Some (cacheFile st path newContent updatedSymbols,
              {| resultSymbols := updatedSymbols; parseStrategy := skip;
                 affectedSymbols := [] |})
    | None =>
        let quickCount := quickDeclarationCount newContent in
        let cachedCount := Z.of_nat (List.length (symbols cached)) in
        if quickCount =? cachedCount then
          let updatedSymbols := adjustLineNumbers (symbols cached) editInfo in
          Some (cacheFile st path newContent updatedSymbols,
                {| resultSymbols := updatedSymbols; parseStrategy := partial;
                   affectedSymbols := [] |})
        else None
    end.

(** The full parse that opens and closes [parseIncremental]. *)
Definition parseFully (st : State) (path newContent : string)
    : State * IncrementalParseResult :=
  let syms := fullParse path newContent in
  (cacheFile st path newContent syms,
   {| resultSymbols := syms; parseStrategy := full;
      affectedSymbols := List.map name syms |}).

(** [parseIncremental]. *)
Definition parseIncremental (st : State) (path newContent : string)
    (editInfo : option EditInfo) : State * IncrementalParseResult :=
  let newHash := quickHash newContent in
  match st !! path with
  | None => parseFully st path newContent
  | Some cached =>
      if String.eqb (fileHash cached) newHash then
        (st, {| resultSymbols := symbols cached; parseStrategy := skip;
                affectedSymbols := [] |})
      else
        match editInfo with
        | Some e =>
            match tryPartialParse st path newContent cached e with
            | Some r => r
            | None => parseFully st path newContent
            end
        | None => parseFully st path newContent
        end
  end.

(** [clearCache]. *)
Definition clearCache (st : State) (path : option string) : State :=
  match path with
  | Some p => if String.eqb p "" then ∅ else delete p st
  | None => ∅
  end.

End Parser.

(** The answer of [getCacheStats]; [symbolCount] is its [symbols]. *)
Record CacheStats := mkCacheStats { files : Z; symbolCount : Z }.

(** [getCacheStats]: the number of cached files, and the sum of the
    numbers of their symbols. *)
Definition getCacheStats (st : State) : CacheStats :=
  {| files := Z.of_nat (size st);
     symbolCount :=
       map_fold (fun _ cache total => total + Z.of_nat (List.length (symbols cache)))
                0 st |}.

End Incremental.

(* ===================================================================== *)
(** * Update manager (src/analysis/incrementalUpdateManager.ts): what it
      gives to, and takes from, the incremental parser *)
(* ===================================================================== *)

Module UpdateManager.
Import Incremental.

(** The edit information that [handleFileChanged] gives to the
    incremental parser: the file watcher does not tell where the edit is,
    so the range goes from line 1 to the larger of the two line counts. *)
Definition watcherEditInfo (oldLineCount newLineCount : Z) : EditInfo :=
  createEditInfo oldLineCount newLineCount 1 (Z.max oldLineCount newLineCount).

(** [cs.kind as SymbolKind]: the kind of that name. The cast does not
    check; a string that names no kind has no counterpart here. *)
Definition symbolKindOf (k : string) : option Parser.SymbolKind :=
  if String.eqb k "class" then Some Parser.KindClass
  else if String.eqb k "interface" then Some Parser.KindInterface
  else if String.eqb k "function" then Some Parser.KindFunction
  else if String.eqb k "type" then Some Parser.KindType
  else if String.eqb k "enum" then Some Parser.KindEnum
  else if String.eqb k "variable" then Some Parser.KindVariable
  else if String.eqb k "namespace" then Some Parser.KindNamespace
  else if String.eqb k "component" then Some Parser.KindComponent
  else if String.eqb k "hook" then Some Parser.KindHook
  else None.

(** The symbol that [handleFileCreatedWithSymbols] makes of a cached
    symbol. *)
Definition toLightweightSymbol (filePath : string) (cs : CachedSymbol)
    : option Parser.LightweightSymbol :=
  (fun k =>
     {| Parser.name := name cs;
        Parser.kind := k;
        Parser.line := startLine cs;
        Parser.endLine := endLine cs;
        Parser.column := 0;
        Parser.filePath := filePath;
        Parser.exported := true;
        Parser.isDefault := false;
        Parser.linesOfCode :=
          (if endLine cs =? 0 then startLine cs else endLine cs) - startLine cs + 1;
        Parser.complexity := Some 1;
        Parser.metrics := [] |}) <$> symbolKindOf (kind cs).

End UpdateManager.

(* ===================================================================== *)
(** * Dependency analyzer ([DependencyAnalyzer]) *)
(* ===================================================================== *)

Module Deps.

(** The part of [ImportInfo] and [ParsedFile] (src/analysis/swcParser.ts)
    that the analyzer reads. *)
Record ImportInfo := mkImport { modulePath : string }.

Record ParsedFile := mkParsedFile {
  filePath : string;
  imports : list ImportInfo
}.

(** [FileCouplingMetrics]; the quotient [instability] is kept exact. *)
Record FileCouplingMetrics := mkCoupling {
  metricsPath : string;
  afferentCoupling : Z;
  efferentCoupling : Z;
  instability : Q;
  dependsOn : list string;
  dependedOnBy : list string
}.

(** [CircularDependency]; [cycleLength] is its [length]. *)
Record CircularDependency := mkCycle {
  cycle : list string;
  cycleLength : Z
}.

(** [DependencyAnalysisResult]. *)
Record DependencyAnalysisResult := mkAnalysis {
  fileMetrics : gmap string FileCouplingMetrics;
  circularDependencies : list CircularDependency;
  totalCircularDependencies : Z
}.

(** Node's [path] module. *)
Class NodePath := {
  dirname : string -> string;
  resolve : string -> string -> string;
  join : string -> string -> string;
  normalize : string -> string
}.

(** A [Set<string>] in insertion order. *)
Definition inb (x : string) (s : list string) : bool := existsb (String.eqb x) s.

Definition setAdd (x : string) (s : list string) : list string :=
  if inb x s then s else s ++ [x].

Definition setDelete (x : string) (s : list string) : list string :=
  List.filter (fun y => negb (String.eqb x y)) s.

(** A [Map<string, V>] in insertion order: [set] on a present key keeps its
    place. *)
Fixpoint mapSet {V} (k : string) (v : V) (m : list (string * V)) : list (string * V) :=
  match m with
  | [] => [(k, v)]
  | (k', v') :: m' =>
      if String.eqb k' k then (k, v) :: m' else (k', v') :: mapSet k v m'
  end.

Fixpoint mapGet {V} (k : string) (m : list (string * V)) : option V :=
  match m with
  | [] => None
  | (k', v') :: m' => if String.eqb k' k then Some v' else mapGet k m'
  end.

(** The dependency graph: [Map<filePath, Set<dependencyFilePath>>]. *)
Definition Graph := list (string * list string).

(** [String.prototype.toLowerCase] on ASCII and [replace(/\\/g, '/')]. *)
Definition lowerSlash (c : ascii) : ascii :=
  let n := nat_of_ascii c in
  if (65 <=? n)%nat && (n <=? 90)%nat then ascii_of_nat (n + 32)
  else if (n =? 92)%nat then "/"%char
  else c.

Fixpoint mapString (f : ascii -> ascii) (s : string) : string :=
  match s with
  | EmptyString => EmptyString
  | String c s' => String (f c) (mapString f s')
  end.

Section Analyzer.
Context {NP : NodePath}.

(** [normalizePath]. *)
Definition normalizePath (p : string) : string := mapString lowerSlash (normalize p).

(** [isKnownFile]. *)
Definition isKnownFile (p : string) : bool :=
  Parser.endsWith p ".ts" || Parser.endsWith p ".tsx"
  || Parser.endsWith p ".js" || Parser.endsWith p ".jsx".

(** [resolveImportPath]: [None] for [null]. *)
Definition resolveImportPath (fromFile importPath : string) : option string :=
  if negb (String.prefix "." importPath) && negb (String.prefix "/" importPath)
  then None
  else
    let fromDir := dirname fromFile in
    let resolved := resolve fromDir importPath in
    match List.find isKnownFile
            (List.map (fun ext => (resolved ++ ext)%string)
                      [".ts"; ".tsx"; ".js"; ".jsx"; ""]%string) with
    | Some withExt => Some (normalizePath withExt)
    | None =>
        match List.find isKnownFile
                (List.map (fun ext => join resolved ("index" ++ ext)%string)
                          [".ts"; ".tsx"; ".js"; ".jsx"]%string) with
        | Some indexPath => Some (normalizePath indexPath)
        | None => None
        end
    end.

(** The inner loop of [buildDependencyGraph]: the dependencies of one
    file. *)
Definition dependenciesOf (fileSet : list string) (file : ParsedFile) : list string :=
  fold_left
    (fun deps imp =>
       match resolveImportPath (filePath file) (modulePath imp) with
       | Some resolvedPath =>
           if inb resolvedPath fileSet then setAdd resolvedPath deps else deps
       | None => deps
       end)
    (imports file) [].

(** [buildDependencyGraph]. *)
Definition buildDependencyGraph (parsedFiles : list ParsedFile) : Graph :=
  let fileSet := List.map (fun f => normalizePath (filePath f)) parsedFiles in
  fold_left
    (fun graph file =>
       mapSet (normalizePath (filePath file)) (dependenciesOf fileSet file) graph)
    parsedFiles [].

(** The first loop of [calculateCouplingMetrics]. *)
Definition initialMetrics (parsedFiles : list ParsedFile)
    : gmap string FileCouplingMetrics :=
  fold_left
    (fun metrics file =>
       <[normalizePath (filePath file) :=
           mkCoupling (filePath file) 0 0 0%Q [] []]> metrics)
    parsedFiles ∅.

(** [depMetrics.afferentCoupling++; depMetrics.dependedOnBy.push(filePath)]. *)
Definition addDependent (from : string) (m : FileCouplingMetrics)
    : FileCouplingMetrics :=
  mkCoupling (metricsPath m) (afferentCoupling m + 1) (efferentCoupling m)
             (instability m) (dependsOn m) (dependedOnBy m ++ [from]).

(** One round of the second loop: the entry of the file takes its
    out-degree, and every dependency that has an entry counts one more
    dependent. *)
Definition couplingStep (metrics : gmap string FileCouplingMetrics)
    (entry : string * list string) : gmap string FileCouplingMetrics :=
  let '(path, dependencies) := entry in
  match metrics !! path with
  | Some fm =>
      let metrics1 :=
        <[path := mkCoupling (metricsPath fm) (afferentCoupling fm)
                    (Z.of_nat (List.length dependencies)) (instability fm)
                    dependencies (dependedOnBy fm)]> metrics in
      fold_left (fun ms dep => alter (addDependent path) dep ms)
                dependencies metrics1
  | None => metrics
  end.

(** The third loop: [total > 0 ? efferentCoupling / total : 0]. *)
Definition withInstability (m : FileCouplingMetrics) : FileCouplingMetrics :=
  let total := afferentCoupling m + efferentCoupling m in
  mkCoupling (metricsPath m) (afferentCoupling m) (efferentCoupling m)
             (if total >? 0
              then (inject_Z (efferentCoupling m) / inject_Z total)%Q
              else 0%Q)
             (dependsOn m) (dependedOnBy m).

(** [calculateCouplingMetrics]. *)
Definition calculateCouplingMetrics (dependencyGraph : Graph)
    (parsedFiles : list ParsedFile) : gmap string FileCouplingMetrics :=
  withInstability <$>
    fold_left couplingStep dependencyGraph (initialMetrics parsedFiles).

(** [path.indexOf(dep)] and [path.slice(index)]: the path from the first
    occurrence of [dep] on; [None] when [indexOf] gives -1. *)
Fixpoint sliceFrom (dep : string) (path : list string) : option (list string) :=
  match path with
  | [] => None
  | x :: path' => if String.eqb x dep then Some path else sliceFrom dep path'
  end.

(** [isCycleAlreadyFound]. *)
Definition isCycleAlreadyFound (cycles : list CircularDependency)
    (newCycle : list string) : bool :=
  existsb
    (fun existing =>
       (cycleLength existing =? Z.of_nat (List.length newCycle))
       && forallb (fun node => inb node (cycle existing)) newCycle)
    cycles.

(** The variables that the closure [dfs] shares. *)
Record DfsState := mkDfs {
  cycles : list CircularDependency;
  visited : list string;
  recursionStack : list string;
  path : list string
}.

(** The [else if (recursionStack.has(dep))] branch of [dfs]. *)
Definition recordCycle (dep : string) (st : DfsState) : DfsState :=
  match sliceFrom dep (path st) with
  | Some cyc =>
      if isCycleAlreadyFound (cycles st) cyc then st
      else mkDfs (cycles st ++ [mkCycle cyc (Z.of_nat (List.length cyc))])
                 (visited st) (recursionStack st) (path st)
  | None => st
  end.

(** [dfs]. Each call marks an unvisited node, so the recursion is no
    deeper than the number of nodes; [fuel] bounds the depth, and [None]
    tells that it did not suffice. *)
Fixpoint dfs (fuel : nat) (dependencyGraph : Graph) (node : string)
    (st : DfsState) : option DfsState :=
  match fuel with
  | O => None
  | S fuel' =>
      let st1 := mkDfs (cycles st) (setAdd node (visited st))
                       (setAdd node (recursionStack st)) (path st ++ [node]) in
      let dependencies := default [] (mapGet node dependencyGraph) in
      let after :=
        fold_left
          (fun acc dep =>
             match acc with
             | None => None
             | Some s =>
                 if negb (inb dep (visited s)) then dfs fuel' dependencyGraph dep s
                 else if inb dep (recursionStack s) then Some (recordCycle dep s)
                 else Some s
             end)
          dependencies (Some st1) in
      match after with
      | None => None
      | Some s =>
          Some (mkDfs (cycles s) (visited s) (setDelete node (recursionStack s))
                      (removelast (path s)))
      end
  end.

(** The nodes of a graph: its keys and all their dependencies. *)
Definition nodesOf (g : Graph) : list string :=
  List.map fst g ++ List.concat (List.map snd g).

(** [detectCircularDependencies]; the fuel is one more than the number of
    nodes. *)
Definition detectCircularDependencies (dependencyGraph : Graph)
    : option (list CircularDependency) :=
  let fuel := S (List.length (nodesOf dependencyGraph)) in
  cycles <$>
    fold_left
      (fun acc node =>
         match acc with
         | None => None
         | Some s =>
             if negb (inb node (visited s)) then dfs fuel dependencyGraph node s
             else Some s
         end)
      (List.map fst dependencyGraph) (Some (mkDfs [] [] [] [])).

(** [analyze]. *)
Definition analyze (parsedFiles : list ParsedFile) : option DependencyAnalysisResult :=
  let dependencyGraph := buildDependencyGraph parsedFiles in
  let metrics := calculateCouplingMetrics dependencyGraph parsedFiles in
  (fun found => mkAnalysis metrics found (Z.of_nat (List.length found)))
    <$> detectCircularDependencies dependencyGraph.

(** [getCouplingForFile]: [None] for [undefined]. *)
Definition getCouplingForFile (result : DependencyAnalysisResult) (filePath : string)
    : option FileCouplingMetrics :=
  fileMetrics result !! normalizePath filePath.

End Analyzer.

End Deps.

(* ===================================================================== *)
(** * Vocabulary of the statements *)
(* ===================================================================== *)

Module CacheSpec.
Import Cache.

Section Runs.
Context {T : Type} {RT : Runtime T}.
Implicit Types (cache : gmap string (CacheEntry T)) (order keys : list string).

(** The estimated size of the entry under a key, and of the entries under
    a list of keys. *)
Definition sizeOf cache (x : string) : Z :=
  match cache !! x with Some e => estimateSize e | None => 0 end.

Definition sizeOfKeys cache keys : Z :=
  foldr (fun x acc => sizeOf cache x + acc) 0 keys.

(** The cache without the entries of the given keys. *)
Definition removeKeys keys cache : gmap string (CacheEntry T) :=
  fold_left (fun m x => delete x m) keys cache.

(** The operations of a run: [set] (with the clock at the call) and [get]
    (with the file system at the call). *)
Inductive Op :=
  | OpSet (now : Z) (filePath : string) (d : T) (content : string)
  | OpGet (fs : FileSystem) (filePath : string).

Definition step (st : State T) (op : Op) : State T :=
  match op with
  | OpSet now p d c => set now st p d c
  | OpGet fs p => (get fs st p).1
  end.

Definition run (ops : list Op) (st : State T) : State T := fold_left step ops st.

(** The cache keys of the [set] calls of a run. *)
Definition setKeys (ops : list Op) : list string :=
  flat_map (fun op => match op with
                      | OpSet _ p _ _ => [getCacheKey p]
                      | OpGet _ _ => []
                      end) ops.

(** The invariant of such a run over a store: the order lists each cached
    key once, every first-tier entry is also in the workspace store, the
    store holds only what it held at the start or what was [set], and the
    byte count is the sum of the estimates of the cached entries. *)
Record lru_inv (store : gmap string (CacheEntry T)) (keys : list string)
    (st : State T) : Prop := {
  inv_nodup : NoDup (l1Order st);
  inv_dom : forall x, x ∈ l1Order st <-> is_Some (l1Cache st !! x);
  inv_sub : forall x e, l1Cache st !! x = Some e -> workspaceState st !! x = Some e;
  inv_store : forall x, is_Some (workspaceState st !! x) ->
                        is_Some (store !! x) \/ x ∈ keys;
  inv_bytes : l1SizeBytes st = sizeOfKeys (l1Cache st) (l1Order st)
}.

End Runs.

End CacheSpec.

Module IncrementalSpec.
Import Incremental.

Section Edits.
Context {TC : Ts.Compiler}.
Implicit Types (st : State) (e : EditInfo) (s c : CachedSymbol).

(** The edit range covers the declaration line of the symbol. *)
Definition touchesDeclaration e s : Prop :=
  editStart e <= declarationLine s <= editEnd e.

(** The edit range lies in the body of the symbol: after its declaration
    line and not past its end line. *)
Definition insideBody e s : Prop :=
  declarationLine s < editStart e /\ editEnd e <= endLine s.

(** The symbol lies entirely after, or entirely before, the edit range. *)
Definition afterEdit e s : Prop := editEnd e < startLine s.
Definition beforeEdit e s : Prop :=
  startLine s < editStart e /\ endLine s < editStart e.

(** The symbol with its three line numbers shifted, and with its end line
    shifted. *)
Definition shifted (d : Z) s : CachedSymbol :=
  mkCachedSymbol (name s) (kind s) (startLine s + d) (endLine s + d)
                 (declarationLine s + d) (contentHash s).
Definition extended (d : Z) s : CachedSymbol :=
  mkCachedSymbol (name s) (kind s) (startLine s) (endLine s + d)
                 (declarationLine s) (contentHash s).

(** The caches that an incremental parser can hold: the empty one, and
    what [parseIncremental] and [clearCache] leave. *)
Inductive reachable : State -> Prop :=
  | reachable_empty : reachable ∅
  | reachable_parse st path content editInfo :
      reachable st -> reachable (parseIncremental st path content editInfo).1
  | reachable_clear st path :
      reachable st -> reachable (clearCache st path).

(** In every cached symbol the declaration line is the start line. *)
Definition declarations_first st : Prop :=
  forall path cached s,
    st !! path = Some cached -> s ∈ symbols cached ->
    declarationLine s = startLine s.

Global Instance touchesDeclaration_dec e s : Decision (touchesDeclaration e s).
Proof. unfold touchesDeclaration. apply _. Defined.

Global Instance insideBody_dec e s : Decision (insideBody e s).
Proof. unfold insideBody. apply _. Defined.

End Edits.

(** The kinds of the symbols of the incremental parser. *)
Definition declarationKinds : list string :=
  ["class"; "interface"; "function"; "type"; "enum"; "variable"]%string.

(** The lines of the symbol include the line. *)
Definition covers (s : CachedSymbol) (ln : Z) : Prop :=
  startLine s <= ln <= endLine s.

Global Instance covers_dec s ln : Decision (covers s ln).
Proof. unfold covers. apply _. Defined.

(** The number of line feeds of a text. *)
Fixpoint lineFeeds (s : string) : Z :=
  match s with
  | EmptyString => 0
  | String c s' => (if Ascii.eqb c LF then 1 else 0) + lineFeeds s'
  end.

(** A lowercase hexadecimal digit. *)
Definition isHexDigit (c : ascii) : bool :=
  let n := nat_of_ascii c in
  ((48 <=? n) && (n <=? 57) || (97 <=? n) && (n <=? 102))%nat.

(** Every character of the text satisfies [P]. *)
Fixpoint allChars (P : ascii -> bool) (s : string) : bool :=
  match s with
  | EmptyString => true
  | String c s' => P c && allChars P s'
  end.

End IncrementalSpec.

Module ParserSpec.
Import Parser.

(** The statistics of a new [LightweightParser]. *)
Definition zeroStats : Cache.CacheStatistics := Cache.mkStats 0 0 0 0 0.

Definition newParser (mb : Z) : State :=
  mkState (Cache.create ∅ mb) zeroStats.

(** The symbol at a position of the list that [parseFile] returns. *)
Definition symbolAt (i : nat) (r : State * option (list LightweightSymbol))
    : option LightweightSymbol :=
  r.2 ≫= (fun l => l !! i).

(** A lowercase ASCII letter. *)
Definition isLowerLetter (c : ascii) : bool :=
  let n := nat_of_ascii c in (97 <=? n)%nat && (n <=? 122)%nat.

End ParserSpec.

Module MetricsSpec.
Import Ts Metrics.

(** The nodes that add one to the cyclomatic complexity. *)
Definition isDecision (n : Node) : bool :=
  match kind n with
  | IfStatement | ForStatement | ForInStatement | ForOfStatement
  | WhileStatement | DoStatement | CaseClause | CatchClause
  | ConditionalExpression => true
  | BinaryExpression =>
      match operatorKind n with
      | Some op => isLogicalOperator op
      | None => false
      end
  | _ => false
  end.

(** Their number in a tree. *)
Fixpoint decisionCount (n : Node) : Z :=
  match n with
  | Nd _ _ _ _ _ _ _ _ kids =>
      (if isDecision n then 1 else 0)
      + (fix go (l : list Node) : Z :=
           match l with
           | [] => 0
           | c :: l' => decisionCount c + go l'
           end) kids
  end.

(** A function declaration, function expression or arrow function. *)
Definition isFunctionNode (n : Node) : bool :=
  is_kind FunctionDeclaration n || is_kind FunctionExpression n
  || is_kind ArrowFunction n.

(** What a visit leaves of a traversal state: the running depths, the flag
    and the promise chain maximum are as before, the cyclomatic complexity
    has grown by [d], and no counter or maximum has gone down. *)
Record traversed (d : Z) (s s' : TraversalState) : Prop := {
  tr_nesting : t_currentNesting s' = t_currentNesting s;
  tr_level : t_cognitiveNestingLevel s' = t_cognitiveNestingLevel s;
  tr_callback : t_currentCallbackDepth s' = t_currentCallbackDepth s;
  tr_inside : t_insideNestedFunction s' = t_insideNestedFunction s;
  tr_chain : t_maxPromiseChainLength s' = t_maxPromiseChainLength s;
  tr_cyclomatic : t_cyclomatic s' = t_cyclomatic s + d;
  tr_cognitive : 0 <= t_cognitiveNestingLevel s -> t_cognitive s <= t_cognitive s';
  tr_maxNesting : t_maxNesting s <= t_maxNesting s';
  tr_maxCallback : t_maxCallbackDepth s <= t_maxCallbackDepth s';
  tr_return : t_returnCount s <= t_returnCount s';
  tr_throw : t_throwCount s <= t_throwCount s';
  tr_skipped : t_insideNestedFunction s = true ->
              t_returnCount s' = t_returnCount s /\ t_throwCount s' = t_throwCount s
}.

(** The invariant of the loop of [collectClassMetrics] after [seen]
    members. *)
Record classCounts (seen : Z) (m : NodeMetrics) : Prop := {
  cc_methods : methodCount m = privateMethodCount m + publicMethodCount m;
  cc_private : 0 <= privateMethodCount m;
  cc_public : 0 <= publicMethodCount m;
  cc_static : 0 <= staticMethodCount m <= methodCount m;
  cc_async : 0 <= asyncMethodCount m <= methodCount m;
  cc_fields : 0 <= staticFieldCount m <= fieldCount m;
  cc_members : methodCount m + fieldCount m <= seen;
  cc_cyclomatic : 1 + methodCount m <= cyclomaticComplexity m;
  cc_cognitive : 0 <= cognitiveComplexity m;
  cc_nesting : 0 <= maxNestingDepth m;
  cc_return : 0 <= returnCount m;
  cc_throw : 0 <= throwCount m;
  cc_callback : 0 <= callbackDepth m;
  cc_chain : 0 <= promiseChainLength m
}.

End MetricsSpec.

Module DepsSpec.
Import Deps.

Section Search.
Context {NP : NodePath}.
Implicit Types (g : Graph) (st : DfsState) (vis : list string).

(** The nodes of the graph that are not visited yet; the fuel of [dfs]
    has to exceed their number. *)
Definition unvisited g vis : list string :=
  List.filter (fun x => negb (inb x vis)) (nodesOf g).

(** The loop of [dfs] over the dependencies of a node. *)
Definition visitDependencies (fuel : nat) g (deps : list string)
    (acc : option DfsState) : option DfsState :=
  fold_left
    (fun acc dep =>
       match acc with
       | None => None
       | Some s =>
           if negb (inb dep (visited s)) then dfs fuel g dep s
           else if inb dep (recursionStack s) then Some (recordCycle dep s)
           else Some s
       end)
    deps acc.

(** A graph in which [na] and [nb] depend on each other and no other key
    has a dependency. *)
Definition pairGraph (g : Graph) (na nb : string) : Prop :=
  na <> nb
  /\ mapGet na g = Some [nb]
  /\ mapGet nb g = Some [na]
  /\ (forall k, k ∈ List.map fst g -> k <> na -> k <> nb -> mapGet k g = Some []).

(** The state of the search between two starts: nothing on the stack; and
    either no cycle and neither node visited, or the one cycle and both
    visited. *)
Definition searchBefore (na nb : string) (s : DfsState) : Prop :=
  cycles s = [] /\ recursionStack s = [] /\ path s = []
  /\ inb na (visited s) = false /\ inb nb (visited s) = false.

Definition searchAfter (na nb : string) (s : DfsState) : Prop :=
  (exists x y, cycles s = [mkCycle [x; y] 2]
               /\ ((x = na /\ y = nb) \/ (x = nb /\ y = na)))
  /\ recursionStack s = [] /\ path s = []
  /\ inb na (visited s) = true /\ inb nb (visited s) = true.

(** The loop of [detectCircularDependencies] over the keys. *)
Definition searchFrom (fuel : nat) (g : Graph) (keys : list string)
    (acc : option DfsState) : option DfsState :=
  fold_left
    (fun acc node =>
       match acc with
       | None => None
       | Some s =>
           if negb (inb node (visited s)) then dfs fuel g node s else Some s
       end) keys acc.

(** An uppercase ASCII letter or a backslash: what [normalizePath]
    replaces. *)
Definition isUpperOrBackslash (c : ascii) : bool :=
  let n := nat_of_ascii c in
  ((65 <=? n) && (n <=? 90) || (n =? 92))%nat.

(** Some character of the text satisfies [P]. *)
Fixpoint anyChar (P : ascii -> bool) (s : string) : bool :=
  match s with
  | EmptyString => false
  | String c s' => P c || anyChar P s'
  end.

(** [x] depends on [y] in the graph. *)
Definition edge (g : Graph) (x y : string) : Prop :=
  y ∈ default [] (mapGet x g).

(** Each node of the list depends on the next one. *)
Fixpoint chain (g : Graph) (p : list string) : Prop :=
  match p with
  | x :: (y :: _) as p' => edge g x y /\ chain g p'
  | _ => True
  end.

(** A cycle of the graph: a chain whose last node depends on the first. *)
Definition isCycle (g : Graph) (c : list string) : Prop :=
  chain g c
  /\ exists first lst, head c = Some first /\ last c = Some lst /\ edge g lst first.


(** The cycles found are cycles of the graph, with their lengths. *)
Definition cyclesOk (g : Graph) (found : list CircularDependency) : Prop :=
  Forall (fun c => isCycle g (cycle c)
                   /\ cycleLength c = Z.of_nat (List.length (cycle c))) found.

(** What the second loop of [calculateCouplingMetrics] has established
    after the entries [done] of the graph: there is an entry for every
    normalized path of the input, it carries the path of a file of the
    input, its counters are the lengths of its lists, [dependsOn] holds the
    dependencies of the file when its entry of the graph is done, and
    [dependedOnBy] the files done so far that depend on it, once each. *)
Record couplingInv (files : list ParsedFile) (done : Graph)
    (ms : gmap string FileCouplingMetrics) : Prop := {
  ci_dom : forall k, is_Some (ms !! k)
                     <-> exists f, f ∈ files /\ normalizePath (filePath f) = k;
  ci_path : forall k m, ms !! k = Some m ->
              exists f, f ∈ files /\ normalizePath (filePath f) = k
                        /\ metricsPath m = filePath f;
  ci_counts : forall k m, ms !! k = Some m ->
                afferentCoupling m = Z.of_nat (List.length (dependedOnBy m))
                /\ efferentCoupling m = Z.of_nat (List.length (dependsOn m));
  ci_dependsOn : forall k m, ms !! k = Some m ->
                   dependsOn m = default [] (mapGet k done);
  ci_dependedOnBy : forall k m, ms !! k = Some m ->
                      NoDup (dependedOnBy m)
                      /\ forall x, x ∈ dependedOnBy m <-> edge done x k
}.

(** Both counters of a metrics record are counts. *)
Definition counted (m : FileCouplingMetrics) : Prop :=
  0 <= afferentCoupling m /\ 0 <= efferentCoupling m.

Definition all_counted (ms : gmap string FileCouplingMetrics) : Prop :=
  forall k m, ms !! k = Some m -> counted m.

End Search.

End DepsSpec.

(* ===================================================================== *)
(** * Example inputs: the file "a.ts" of the specification's scenario *)
(* ===================================================================== *)

Module Scenario.
Import Ts.

Definition nl : string := String Incremental.LF EmptyString.

(** The two versions of "a.ts". *)
Definition content1 : string :=
  ("export const X = 1;" ++ nl ++ "export function f(){ return 1; }")%string.
Definition content2 : string :=
  ("export const X = 1;" ++ nl ++ "export function f(){ return 2; }")%string.

Definition leaf (k : SyntaxKind) (r : Role) (tx : string) (ln ch : Z) : Node :=
  Nd k r tx ln ch ln None false [].

(** [ts.SyntaxKind.NumericLiteral]. *)
Definition NumericLiteral : SyntaxKind := OtherKind 9.

(** [export const X = 1;] on line 0. *)
Definition statementX : Node :=
  Nd VariableStatement RoleOther "" 0 0 0 None false
    [ leaf ExportKeyword RoleModifier "" 0 0;
      Nd VariableDeclarationList RoleDeclarationList "" 0 7 0 None false
        [ Nd VariableDeclaration RoleDeclaration "" 0 13 0 None false
            [ leaf Identifier RoleName "X" 0 13;
              leaf NumericLiteral RoleInitializer "1" 0 17 ] ] ].

(** [export function f(){ return <literal>; }] on line 1. *)
Definition statementF (literal : string) : Node :=
  Nd FunctionDeclaration RoleOther "" 1 0 1 None false
    [ leaf ExportKeyword RoleModifier "" 1 0;
      leaf Identifier RoleName "f" 1 16;
      Nd Block RoleBody "" 1 19 1 None false
        [ Nd ReturnStatement RoleOther "" 1 21 1 None false
            [ leaf NumericLiteral RoleExpression literal 1 28 ] ] ].

(** The tree that the TypeScript compiler builds for either version. *)
Definition sourceFileOf (content literal : string) : SourceFile :=
  {| fileName := "a.ts";
     fullText := content;
     statements := [statementX; statementF literal];
     endOfFileToken := leaf EndOfFileToken RoleOther "" 1 32;
     lastLine := 1;
     comments := [] |}.

Definition emptySourceFile (path content : string) : SourceFile :=
  {| fileName := path; fullText := content; statements := [];
     endOfFileToken := leaf EndOfFileToken RoleOther "" 0 0;
     lastLine := 0; comments := [] |}.

(** [export async function a() {], [  return 1;], [}] on lines 0 to 2, and
    [export function b() {}] on line 3. *)
Definition statementA : Node :=
  Nd FunctionDeclaration RoleOther "" 0 0 2 None false
    [ leaf ExportKeyword RoleModifier "" 0 0;
      leaf AsyncKeyword RoleModifier "" 0 7;
      leaf Identifier RoleName "a" 0 22;
      Nd Block RoleBody "" 0 26 2 None false
        [ Nd ReturnStatement RoleOther "" 1 2 1 None false
            [ leaf NumericLiteral RoleExpression "1" 1 9 ] ] ].

Definition statementB : Node :=
  Nd FunctionDeclaration RoleOther "" 3 0 3 None false
    [ leaf ExportKeyword RoleModifier "" 3 0;
      leaf Identifier RoleName "b" 3 16;
      Nd Block RoleBody "" 3 20 3 None false [] ].

(** A file "b.ts" with one asynchronous function over lines 1 to 3, and the
    same file after a second exported function was appended as line 4. *)
Definition asyncOnly : string :=
  ("export async function a() {" ++ nl ++ "  return 1;" ++ nl ++ "}")%string.
Definition asyncAndNew : string :=
  (asyncOnly ++ nl ++ "export function b() {}")%string.

(** A file "c.ts" with a function over lines 1 to 3 and a constant on line
    4, and the same file with one more line in the body of the function. *)
Definition bodyFile : string :=
  ("export function g() {" ++ nl ++ "  return 1;" ++ nl ++ "}" ++ nl
   ++ "export const Y = 2;")%string.
Definition bodyFileEdited : string :=
  ("export function g() {" ++ nl ++ "  // one" ++ nl ++ "  return 1;" ++ nl ++ "}" ++ nl
   ++ "export const Y = 2;")%string.

Definition statementG (last : Z) : Node :=
  Nd FunctionDeclaration RoleOther "" 0 0 last None false
    [ leaf ExportKeyword RoleModifier "" 0 0;
      leaf Identifier RoleName "g" 0 16;
      Nd Block RoleBody "" 0 20 last None false
        [ Nd ReturnStatement RoleOther "" (last - 1) 2 (last - 1) None false
            [ leaf NumericLiteral RoleExpression "1" (last - 1) 9 ] ] ].

Definition statementY (ln : Z) : Node :=
  Nd VariableStatement RoleOther "" ln 0 ln None false
    [ leaf ExportKeyword RoleModifier "" ln 0;
      Nd VariableDeclarationList RoleDeclarationList "" ln 7 ln None false
        [ Nd VariableDeclaration RoleDeclaration "" ln 13 ln None false
            [ leaf Identifier RoleName "Y" ln 13;
              leaf NumericLiteral RoleInitializer "2" ln 17 ] ] ].

Definition bodySourceFile (content : string) (last : Z) : SourceFile :=
  {| fileName := "c.ts"; fullText := content;
     statements := [statementG (last - 1); statementY last];
     endOfFileToken := leaf EndOfFileToken RoleOther "" last 19;
     lastLine := last; comments := [] |}.

(** A file "d.ts" with the function [g] alone over lines 1 to 3, and the
    same file after an exported function was appended as line 4. *)
Definition functionOnly : string :=
  ("export function g() {" ++ nl ++ "  return 1;" ++ nl ++ "}")%string.
Definition functionAndNew : string :=
  (functionOnly ++ nl ++ "export function b() {}")%string.

Definition sourceFileWith (path content : string) (stmts : list Node) (last : Z)
    : SourceFile :=
  {| fileName := path; fullText := content; statements := stmts;
     endOfFileToken := leaf EndOfFileToken RoleOther "" last 0;
     lastLine := last; comments := [] |}.

(** A file "bad.tsx" whose only statement is [function () {}]: the
    compiler reports the missing name and gives the declaration an
    identifier with the empty text. *)
Definition unnamedFunction : string := "function () {}".

Definition statementUnnamed : Node :=
  Nd FunctionDeclaration RoleOther "" 0 0 0 None false
    [ leaf Identifier RoleName "" 0 9;
      Nd Block RoleBody "" 0 12 0 None false [] ].

(** The compiler on these texts (any other text is taken to have no
    statement). *)
Definition compiler : Compiler :=
  {| createSourceFile path content _ :=
       if String.eqb content content1 then sourceFileOf content1 "1"
       else if String.eqb content content2 then sourceFileOf content2 "2"
       else if String.eqb content bodyFile then bodySourceFile bodyFile 3
       else if String.eqb content bodyFileEdited then bodySourceFile bodyFileEdited 4
       else if String.eqb content asyncOnly
            then sourceFileWith path asyncOnly [statementA] 2
       else if String.eqb content asyncAndNew
            then sourceFileWith path asyncAndNew [statementA; statementB] 3
       else if String.eqb content functionOnly
            then sourceFileWith path functionOnly [statementG 2] 2
       else if String.eqb content functionAndNew
            then sourceFileWith path functionAndNew [statementG 2; statementB] 3
       else if String.eqb content unnamedFunction
            then sourceFileWith path unnamedFunction [statementUnnamed] 0
       else emptySourceFile path content |}.

(** A runtime for the cache of the symbol extractor: the digest is the text
    itself, and every entry serializes to 400 characters. *)
Definition runtime : Cache.Runtime (list Parser.LightweightSymbol) :=
  {| Cache.sha256_hex := fun s => s; Cache.stringify_length := fun _ => Some 400 |}.

Definition files : Cache.FileSystem :=
  fun p => if String.eqb p "a.ts" then Some content1
           else if String.eqb p "bad.tsx" then Some unnamedFunction
           else None.

End Scenario.

(* ===================================================================== *)
(** * Further example inputs *)
(* ===================================================================== *)

Module Examples.

(** A runtime for a cache of integers: the digest is the text itself, and
    every entry serializes to 400000 characters, so that two entries fit in
    two megabytes and three do not. *)
Definition exampleRuntime : Cache.Runtime Z :=
  {| Cache.sha256_hex := fun s => s;
     Cache.stringify_length := fun _ => Some 400000 |}.

Definition exampleFiles : Cache.FileSystem :=
  fun p => if String.eqb p "a.ts" then Some "let x"%string else None.

(** Two [set] calls and a [get] that is served from the first tier. *)
Definition exampleOps : list (CacheSpec.Op (T := Z)) :=
  [ CacheSpec.OpSet 0 "a.ts" 1 "let x"; CacheSpec.OpSet 1 "b.ts" 2 "b";
    CacheSpec.OpGet exampleFiles "a.ts" ].

(** A workspace store that holds the entry of "a.ts" from an earlier
    session, and a run on it: "a.ts" is read (and promoted from the
    store), stored again, "b.ts" is stored, and "a.ts" is read once more. *)
Definition storedEntry : Cache.CacheEntry Z :=
  Cache.mkEntry (Cache.getCacheKey (RT := exampleRuntime) "a.ts")
                (Cache.computeHash (RT := exampleRuntime) "let x") 0 1 [].

Definition exampleStore : gmap string (Cache.CacheEntry Z) :=
  {[ Cache.getCacheKey (RT := exampleRuntime) "a.ts" := storedEntry ]}.

Definition promotedOps : list (CacheSpec.Op (T := Z)) :=
  [ CacheSpec.OpGet exampleFiles "a.ts"; CacheSpec.OpSet 1 "a.ts" 1 "let x";
    CacheSpec.OpSet 2 "b.ts" 2 "b"; CacheSpec.OpGet exampleFiles "a.ts" ].

(** The cache after a first parse of "c.ts", and the edit that adds one line
    after line 2. *)
Definition bodyState : Incremental.State :=
  (Incremental.parseIncremental (TC := Scenario.compiler) ∅ "c.ts"
     Scenario.bodyFile None).1.
Definition bodyEdit : Incremental.EditInfo := Incremental.createEditInfo 4 5 2 2.

(** [export function use_state() { return 0; }] on line 0 of "hooks.ts". *)
Definition statementUseState : Ts.Node :=
  Ts.Nd Ts.FunctionDeclaration Ts.RoleOther "" 0 0 0 None false
    [ Scenario.leaf Ts.ExportKeyword Ts.RoleModifier "" 0 0;
      Scenario.leaf Ts.Identifier Ts.RoleName "use_state" 0 16;
      Ts.Nd Ts.Block Ts.RoleBody "" 0 28 0 None false
        [ Ts.Nd Ts.ReturnStatement Ts.RoleOther "" 0 30 0 None false
            [ Scenario.leaf Scenario.NumericLiteral Ts.RoleExpression "0" 0 37 ] ] ].

(** A model of [path] for absolute POSIX paths without [.] or [..]
    segments. *)
Fixpoint beforeLastSlash (s : string) : option string :=
  match s with
  | EmptyString => None
  | String c s' =>
      match beforeLastSlash s' with
      | Some d => Some (String c d)
      | None => if Ascii.eqb c "/" then Some EmptyString else None
      end
  end.

Definition posixPath : Deps.NodePath :=
  {| Deps.dirname p := default "."%string (beforeLastSlash p);
     Deps.resolve dir p := if String.prefix "./" p
                           then (dir ++ substring 1 (String.length p - 1) p)%string
                           else p;
     Deps.join a b := (a ++ "/" ++ b)%string;
     Deps.normalize p := p |}.

(** Two files that import each other. *)
Definition fileA : Deps.ParsedFile :=
  Deps.mkParsedFile "/p/a.ts" [Deps.mkImport "./b"].
Definition fileB : Deps.ParsedFile :=
  Deps.mkParsedFile "/p/b.ts" [Deps.mkImport "./a"].
Definition fileC : Deps.ParsedFile :=
  Deps.mkParsedFile "/p/c.ts" [].

(** Two [.tsx] files that import each other, and two [.ts] files that
    import each other with the extension written out. *)
Definition appTsx : Deps.ParsedFile :=
  Deps.mkParsedFile "/p/app.tsx" [Deps.mkImport "./button"].
Definition buttonTsx : Deps.ParsedFile :=
  Deps.mkParsedFile "/p/button.tsx" [Deps.mkImport "./app"].
Definition fileAExt : Deps.ParsedFile :=
  Deps.mkParsedFile "/p/a.ts" [Deps.mkImport "./b.ts"].
Definition fileBExt : Deps.ParsedFile :=
  Deps.mkParsedFile "/p/b.ts" [Deps.mkImport "./a.ts"].

End Examples.
(* ===================================================================== *)
(** * Properties *)
(* ===================================================================== *)

(** Test vectors of RFC 1321. *)
Example md5_empty : MD5.md5_hex "" = "d41d8cd98f00b204e9800998ecf8427e"%string.
Proof. vm_compute. reflexivity. Qed.
Example md5_abc : MD5.md5_hex "abc" = "900150983cd24fb0d6963f7d28e17f72"%string.
Proof. vm_compute. reflexivity. Qed.

(* ===================================================================== *)
(** * Cache manager: validity of served entries, clearing, eviction *)
(* ===================================================================== *)

Module CacheProofs.
Import Cache CacheSpec Examples.

Section Validity.
Context {T : Type} {RT : Runtime T}.

Lemma valid_entry_Some (m : gmap string (CacheEntry T)) k h e :
  valid_entry m k h = Some e -> m !! k = Some e /\ hash e = h.
Proof.
  unfold valid_entry. destruct (m !! k) as [e'|] eqn:Hm; [|discriminate].
  destruct (String.eqb_spec (hash e') h); [|discriminate].
  intros [= <-]. auto.
Qed.

Lemma valid_entry_None (m : gmap string (CacheEntry T)) k h e :
  valid_entry m k h = None -> m !! k = Some e -> hash e <> h.
Proof.
  unfold valid_entry. intros Hv Hm. rewrite Hm in Hv.
  destruct (String.eqb_spec (hash e) h); [discriminate | assumption].
Qed.

(** C4. Whatever [get] serves is the data of an entry stored under the
    key of the file, in the first tier or in the workspace store, whose
    stored hash is the hash of the current content of the file; so an
    entry whose hash differs is never served: [get] answers [null], or the
    data of the entry of the other tier when that one matches. *)
Theorem get_serves_only_matching_hash (fs : FileSystem) (st st' : State T)
    (filePath : string) (d : T) :
  get fs st filePath = (st', Some d) ->
  exists content e,
    fs filePath = Some content
    /\ (l1Cache st !! getCacheKey filePath = Some e
        \/ (workspaceState st !! getCacheKey filePath = Some e
            /\ forall e1, l1Cache st !! getCacheKey filePath = Some e1 ->
                          hash e1 <> computeHash content))
    /\ hash e = computeHash content
    /\ data e = d.
Proof.
  unfold get, getFileHash.
  destruct (fs filePath) as [content|] eqn:Hfs; simpl; [|discriminate].
  destruct (String.eqb (computeHash content) ""); [discriminate|].
  destruct (valid_entry (l1Cache st) _ _) as [e1|] eqn:H1.
  - intros [= _ <-]. apply valid_entry_Some in H1 as [? ?].
    exists content, e1. auto.
  - destruct (valid_entry (workspaceState st) _ _) as [e2|] eqn:H2;
      [|discriminate].
    intros [= _ <-]. apply valid_entry_Some in H2 as [? ?].
    exists content, e2. repeat split; auto.
    right. split; [assumption|].
    intros e1 He1. eapply valid_entry_None; eauto.
Qed.

End Validity.

Section Clearing.
Context {T : Type} {RT : Runtime T}.

(** C6 (what the code does). [clear] resets the first tier and every
    counter, and leaves the workspace store alone: a file that was [set]
    before and has not changed is served again, from the second tier, and
    counted as a hit. *)
Theorem clear_keeps_workspace_entries (fs : FileSystem) (now : Z)
    (st : State T) (path : string) (d : T) (content : string) :
  fs path = Some content ->
  computeHash content <> EmptyString ->
  let cleared := clear (set now st path d content) in
  getStats cleared
  = {| hits := 0; misses := 0; size := 0;
       maxSize := maxSizeMB st * 1024 * 1024; evictions := 0 |}
  /\ l1Cache cleared = ∅
  /\ l1Order cleared = []
  /\ (get fs cleared path).2 = Some d
  /\ hits (getStats (get fs cleared path).1) = 1
  /\ misses (getStats (get fs cleared path).1) = 0.
Proof.
  intros Hfs Hne cleared.
  assert (Hmb : maxSizeMB (set now st path d content) = maxSizeMB st).
  { unfold set, setL1. destruct (evict _ _ _ _ _ _) as [[[? ?] ?] ?]. reflexivity. }
  assert (Hget : exists st', get fs cleared path = (count_hit st', Some d)
                             /\ hits (stats st') = 0 /\ misses (stats st') = 0).
  { assert (Hl2 : workspaceState cleared !! getCacheKey path
                  = Some (mkEntry (getCacheKey path) (computeHash content) now d [])).
    { unfold cleared, clear, set. cbn [workspaceState]. apply lookup_insert_eq. }
    unfold get, getFileHash. rewrite Hfs. cbn [fmap option_fmap option_map].
    destruct (String.eqb_spec (computeHash content) ""); [contradiction|].
    unfold valid_entry. change (l1Cache cleared) with (∅ : gmap string (CacheEntry T)).
    rewrite lookup_empty, Hl2. cbn [hash data]. rewrite String.eqb_refl.
    eexists. split; [reflexivity|].
    unfold setL1. split; reflexivity. }
  destruct Hget as (st' & -> & Hh & Hm).
  unfold getStats. cbn [fst snd count_hit stats hits misses].
  rewrite Hh, Hm. subst cleared. cbn [clear stats l1SizeBytes l1Cache l1Order hits misses size maxSize evictions].
  rewrite Hmb. repeat split; reflexivity.
Qed.

End Clearing.

Section Eviction.
Context {T : Type} {RT : Runtime T}.
Implicit Types (cache : gmap string (CacheEntry T)) (order keys : list string).

Lemma sizeOfKeys_ext cache cache' keys :
  (forall x, x ∈ keys -> cache' !! x = cache !! x) ->
  sizeOfKeys cache' keys = sizeOfKeys cache keys.
Proof.
  induction keys as [|y keys IH]; intros Hext; [reflexivity|].
  simpl. f_equal.
  - unfold sizeOf. rewrite Hext by left. reflexivity.
  - apply IH. intros x Hx. apply Hext. by right.
Qed.

Lemma sizeOfKeys_app cache l1 l2 :
  sizeOfKeys cache (l1 ++ l2) = sizeOfKeys cache l1 + sizeOfKeys cache l2.
Proof. induction l1 as [|y l1 IH]; simpl; [reflexivity|]. rewrite IH. lia. Qed.

Lemma sizeOfKeys_perm cache l1 l2 :
  l1 ≡ₚ l2 -> sizeOfKeys cache l1 = sizeOfKeys cache l2.
Proof. induction 1; simpl; lia. Qed.

Lemma lookup_removeKeys keys cache y :
  removeKeys keys cache !! y
  = if bool_decide (y ∈ keys) then None else cache !! y.
Proof.
  revert cache. induction keys as [|x keys IH]; intros cache; simpl.
  - reflexivity.
  - rewrite IH. destruct (decide (y = x)) as [->|Hne].
    + rewrite lookup_delete_eq. rewrite (bool_decide_eq_true_2 (x ∈ x :: keys)) by left.
      by case_bool_decide.
    + rewrite lookup_delete_ne by congruence.
      rewrite (bool_decide_ext (y ∈ x :: keys) (y ∈ keys)); [reflexivity|].
      rewrite elem_of_cons. intuition congruence.
Qed.

(** The eviction loop removes a prefix of the order: the shortest one
    after which the new entry fits, or all of it. *)
Lemma evict_prefix entrySize limit order cache bytes ev :
  NoDup order ->
  (forall x, x ∈ order -> is_Some (cache !! x)) ->
  exists n : nat,
    (n <= length order)%nat
    /\ evict entrySize limit order cache bytes ev
       = (drop n order, removeKeys (take n order) cache,
          bytes - sizeOfKeys cache (take n order), ev + Z.of_nat n)
    /\ (forall j, (j < n)%nat ->
          bytes - sizeOfKeys cache (take j order) + entrySize > limit)
    /\ (n = length order
        \/ bytes - sizeOfKeys cache (take n order) + entrySize <= limit).
Proof.
  intros Hnd. revert cache bytes ev.
  induction Hnd as [|k0 rest Hk0 Hnd IH]; intros cache bytes ev Hdom.
  - exists O. simpl. split; [lia|]. split; [|split].
    + f_equal; [f_equal; lia | lia].
    + intros j Hj. lia.
    + by left.
  - simpl. destruct (Z.gtb_spec (bytes + entrySize) limit) as [Hgt|Hle].
    + destruct (Hdom k0) as [old Hold]; [left|]. rewrite Hold.
      destruct (IH (delete k0 cache) (bytes - estimateSize old) (ev + 1))
        as (n & Hn & Hev & Hmin & Hstop).
      { intros z Hz. rewrite lookup_delete_ne by (intros ->; contradiction).
        apply Hdom. by right. }
      assert (Hsz : forall j, sizeOfKeys (delete k0 cache) (take j rest)
                              = sizeOfKeys cache (take j rest)).
      { intros j. apply sizeOfKeys_ext. intros z Hz.
        apply lookup_delete_ne. intros ->. apply Hk0.
        rewrite <- (take_drop j rest). apply elem_of_app. by left. }
      exists (S n). simpl. split; [lia|]. split; [|split].
      * rewrite Hev. rewrite Hsz. unfold sizeOf. rewrite Hold.
        f_equal; [f_equal; lia | lia].
      * intros [|j] Hj; simpl.
        -- lia.
        -- specialize (Hmin j ltac:(lia)). rewrite Hsz in Hmin.
           unfold sizeOf. rewrite Hold. lia.
      * destruct Hstop as [->|Hstop]; [by left | right].
        rewrite Hsz in Hstop. unfold sizeOf. rewrite Hold. lia.
    + exists O. simpl. split; [lia|]. split; [|split].
      * f_equal; [f_equal; lia | lia].
      * intros j Hj. lia.
      * right. lia.
Qed.

(** What [setL1] does with a key that has no first-tier entry. *)
Lemma setL1_fresh (st : State T) (k : string) (e : CacheEntry T) :
  NoDup (l1Order st) ->
  (forall x, x ∈ l1Order st <-> is_Some (l1Cache st !! x)) ->
  exists n : nat,
    (n <= length (l1Order st))%nat
    /\ setL1 k e st
       = {| maxSizeMB := maxSizeMB st;
            l1Cache := <[k := e]> (removeKeys (take n (l1Order st)) (l1Cache st));
            l1Order := drop n (l1Order st) ++ [k];
            l1SizeBytes := l1SizeBytes st
                           - sizeOfKeys (l1Cache st) (take n (l1Order st))
                           + estimateSize e;
            stats := {| hits := hits (stats st); misses := misses (stats st);
                        size := l1SizeBytes st
                                - sizeOfKeys (l1Cache st) (take n (l1Order st))
                                + estimateSize e;
                        maxSize := maxSize (stats st);
                        evictions := evictions (stats st) + Z.of_nat n |};
            workspaceState := workspaceState st |}
    /\ (forall j, (j < n)%nat ->
          l1SizeBytes st - sizeOfKeys (l1Cache st) (take j (l1Order st))
          + estimateSize e > maxBytes st)
    /\ (n = length (l1Order st)
        \/ l1SizeBytes st - sizeOfKeys (l1Cache st) (take n (l1Order st))
           + estimateSize e <= maxBytes st).
Proof.
  intros Hnd Hdom.
  destruct (evict_prefix (estimateSize e) (maxBytes st) (l1Order st)
              (l1Cache st) (l1SizeBytes st) (evictions (stats st)) Hnd)
    as (n & Hn & Hev & Hmin & Hstop).
  { intros x Hx. by apply Hdom. }
  exists n. split; [assumption|]. split; [|split; assumption].
  unfold setL1. rewrite Hev. reflexivity.
Qed.

Lemma remove_first_perm (x : string) (l : list string) :
  x ∈ l -> x :: remove_first x l ≡ₚ l.
Proof.
  induction l as [|y l IH]; intros Hx; [by apply elem_of_nil in Hx|].
  simpl. destruct (String.eqb_spec y x) as [->|Hne]; [reflexivity|].
  apply elem_of_cons in Hx as [->|Hx]; [congruence|].
  rewrite Permutation_swap. by rewrite IH.
Qed.

Lemma touched_perm (x : string) (l : list string) :
  x ∈ l -> remove_first x l ++ [x] ≡ₚ l.
Proof.
  intros Hx. rewrite <- (remove_first_perm x l Hx) at 2.
  by rewrite Permutation_app_comm.
Qed.

Lemma lru_inv_create store mb : lru_inv store [] (create store mb).
Proof.
  split; simpl.
  - constructor.
  - intros x. rewrite lookup_empty. split.
    + by intros ?%elem_of_nil.
    + by intros ?%is_Some_None.
  - intros x e. by rewrite lookup_empty.
  - auto.
  - reflexivity.
Qed.

Lemma lru_inv_weaken store keys keys' st :
  keys ⊆ keys' -> lru_inv store keys st -> lru_inv store keys' st.
Proof.
  intros Hsub [H1 H2 H3 H4 H5]. split; auto.
  intros x Hx. destruct (H4 x Hx); auto.
Qed.

(** [setL1] keeps the invariant when the key has no first-tier entry and
    the workspace store holds the entry. *)
Lemma lru_inv_setL1 store keys st k e :
  lru_inv store keys st ->
  l1Cache st !! k = None ->
  workspaceState st !! k = Some e ->
  lru_inv store keys (setL1 k e st).
Proof.
  intros [Hnd Hdom Hsub Hsto Hby] Hk Hws.
  destruct (setL1_fresh st k e Hnd Hdom) as (n & Hn & -> & _ & _).
  assert (Hknot : k ∉ l1Order st).
  { intros Hin. apply Hdom in Hin. rewrite Hk in Hin. by apply is_Some_None in Hin. }
  assert (Hsplit : NoDup (take n (l1Order st) ++ drop n (l1Order st)))
    by (by rewrite take_drop).
  apply NoDup_app in Hsplit as (Hnd1 & Hdisj & Hnd2).
  assert (Hdrop : forall x, x ∈ drop n (l1Order st) ->
                            (x ∈ l1Order st) /\ (x ∉ take n (l1Order st)) /\ x <> k).
  { intros x Hx. assert (x ∈ l1Order st).
    { rewrite <- (take_drop n (l1Order st)). apply elem_of_app. by right. }
    repeat split; [assumption | | congruence].
    intros Ht. by apply (Hdisj x Ht). }
  split; simpl.
  - apply NoDup_app. split; [assumption|]. split; [|apply NoDup_singleton].
    intros x Hx Hxk. apply list_elem_of_singleton in Hxk. subst x.
    by destruct (Hdrop k Hx) as (_ & _ & ?).
  - intros x. rewrite elem_of_app, list_elem_of_singleton.
    destruct (decide (x = k)) as [->|Hne].
    + rewrite lookup_insert_eq. split; [eauto | by right].
    + rewrite lookup_insert_ne by congruence. rewrite lookup_removeKeys.
      case_bool_decide as Ht.
      * split; [|by intros ?%is_Some_None].
        intros [Hx|?]; [|contradiction]. by destruct (Hdrop x Hx) as (_ & ? & _).
      * rewrite <- Hdom. split.
        -- intros [Hx|?]; [|contradiction]. by destruct (Hdrop x Hx).
        -- intros Hx. left. rewrite <- (take_drop n (l1Order st)) in Hx.
           apply elem_of_app in Hx as [?|?]; [contradiction | assumption].
  - intros x e'. destruct (decide (x = k)) as [->|Hne].
    + rewrite lookup_insert_eq. by intros [= <-].
    + rewrite lookup_insert_ne by congruence. rewrite lookup_removeKeys.
      case_bool_decide; [discriminate | apply Hsub].
  - assumption.
  - rewrite sizeOfKeys_app.
    assert (Hk1 : sizeOfKeys (<[k:=e]> (removeKeys (take n (l1Order st)) (l1Cache st))) [k]
                  = estimateSize e).
    { simpl. unfold sizeOf. rewrite lookup_insert_eq. lia. }
    rewrite Hk1.
    rewrite (sizeOfKeys_ext (l1Cache st)
               (<[k:=e]> (removeKeys (take n (l1Order st)) (l1Cache st)))
               (drop n (l1Order st))).
    + rewrite Hby. rewrite <- (take_drop n (l1Order st)) at 1.
      rewrite sizeOfKeys_app. lia.
    + intros x Hx. destruct (Hdrop x Hx) as (_ & Ht & Hne).
      rewrite lookup_insert_ne by congruence. rewrite lookup_removeKeys.
      by rewrite bool_decide_eq_false_2.
Qed.

Lemma lru_inv_touch store keys st k :
  lru_inv store keys st -> lru_inv store keys (touchL1 k st).
Proof.
  intros [Hnd Hdom Hsub Hsto Hby]. unfold touchL1.
  case_bool_decide as Hin; [|by split].
  pose proof (touched_perm k (l1Order st) Hin) as Hp.
  split; simpl; auto.
  - by rewrite Hp.
  - intros x. rewrite Hp. apply Hdom.
  - rewrite (sizeOfKeys_perm _ _ _ Hp). assumption.
Qed.

Lemma lru_inv_stats store keys st s :
  lru_inv store keys st ->
  lru_inv store keys
    {| maxSizeMB := maxSizeMB st; l1Cache := l1Cache st; l1Order := l1Order st;
       l1SizeBytes := l1SizeBytes st; stats := s;
       workspaceState := workspaceState st |}.
Proof. intros [? ? ? ? ?]. by split. Qed.

Lemma lru_inv_get store keys st fs p :
  lru_inv store keys st -> lru_inv store keys (get fs st p).1.
Proof.
  intros Hinv. unfold get.
  destruct (getFileHash fs p) as [h|]; [|assumption].
  destruct (String.eqb h ""); [assumption|].
  destruct (valid_entry (l1Cache st) _ h) as [e1|] eqn:H1; simpl.
  - apply lru_inv_stats. by apply lru_inv_touch.
  - destruct (valid_entry (workspaceState st) _ h) as [e2|] eqn:H2; simpl.
    + apply lru_inv_stats. apply valid_entry_Some in H2 as [Hws Hh].
      apply lru_inv_setL1; [assumption | | assumption].
      destruct (l1Cache st !! getCacheKey p) as [e1|] eqn:Hl1; [|reflexivity].
      exfalso. pose proof (inv_sub _ _ _ Hinv _ _ Hl1) as Hws'.
      rewrite Hws in Hws'. injection Hws' as ->.
      by apply (valid_entry_None _ _ _ _ H1 Hl1).
    + by apply lru_inv_stats.
Qed.

Lemma lru_inv_set store keys st now p d content :
  lru_inv store keys st ->
  store !! getCacheKey p = None ->
  getCacheKey p ∉ keys ->
  lru_inv store (keys ++ [getCacheKey p]) (set now st p d content).
Proof.
  intros Hinv Hstore Hfresh.
  set (k := getCacheKey p).
  set (e := mkEntry k (computeHash content) now d []).
  assert (Hws : workspaceState st !! k = None).
  { destruct (workspaceState st !! k) eqn:Hw; [|reflexivity].
    destruct (inv_store _ _ _ Hinv k) as [Hs|Hs]; [eauto | | contradiction].
    unfold k in Hs. rewrite Hstore in Hs. by apply is_Some_None in Hs. }
  assert (Hl1 : l1Cache st !! k = None).
  { destruct (l1Cache st !! k) eqn:Hl; [|reflexivity].
    apply (inv_sub _ _ _ Hinv) in Hl. congruence. }
  destruct Hinv as [Hnd Hdom Hsub Hsto Hby].
  pose (st0 := {| maxSizeMB := maxSizeMB st; l1Cache := l1Cache st;
                  l1Order := l1Order st; l1SizeBytes := l1SizeBytes st;
                  stats := stats st;
                  workspaceState := <[k := e]> (workspaceState st) |}).
  assert (Hinv0 : lru_inv store (keys ++ [k]) st0).
  { split; simpl; auto.
    - intros x e' Hx. destruct (decide (x = k)) as [->|Hne]; [congruence|].
      rewrite lookup_insert_ne by congruence. by apply Hsub.
    - intros x. destruct (decide (x = k)) as [->|Hne].
      + intros _. right. apply elem_of_app. right. by left.
      + rewrite lookup_insert_ne by congruence. intros Hx.
        destruct (Hsto x Hx); [by left | right]. apply elem_of_app. by left. }
  assert (Hinv1 : lru_inv store (keys ++ [k]) (setL1 k e st0)).
  { apply lru_inv_setL1; [assumption | assumption |]. simpl. apply lookup_insert_eq. }
  assert (Heq : set now st p d content = setL1 k e st0).
  { unfold set, setL1. simpl. fold k. fold e.
    destruct (evict _ _ _ _ _ _) as [[[? ?] ?] ?]. reflexivity. }
  by rewrite Heq.
Qed.

(** The invariant holds along every run whose [set] calls have pairwise
    distinct keys, none of them in the store at the start. *)
Lemma lru_inv_run store mb (ops : list Op) :
  NoDup (setKeys ops) ->
  (forall k, k ∈ setKeys ops -> store !! k = None) ->
  lru_inv store (setKeys ops) (run ops (create store mb)).
Proof.
  induction ops as [|op ops IH] using rev_ind; intros Hnd Hstore.
  - apply lru_inv_create.
  - unfold run, setKeys in *. rewrite fold_left_app. rewrite flat_map_app in *.
    apply NoDup_app in Hnd as (Hnd1 & Hdisj & Hnd2).
    assert (IH' := IH Hnd1 (fun k Hk => Hstore k (proj2 (elem_of_app _ _ k) (or_introl Hk)))).
    destruct op as [now p d c | fs p]; simpl.
    + apply lru_inv_set; [assumption | |].
      * apply Hstore. apply elem_of_app. right. simpl. by left.
      * intros Hin. apply (Hdisj _ Hin). simpl. by left.
    + rewrite app_nil_r. by apply lru_inv_get.
Qed.

(** X30. Take any run of [set] and [get] calls on a manager in which the
    [set] calls have pairwise distinct keys, none of them in the workspace
    store at the start, and one more [set] with a new key. The order then
    lists every cached key once and the byte count is the sum of the
    estimates; the [set] evicts the [n] oldest keys of the order, each of
    which held an entry, and no other: before each eviction the new entry
    did not fit, and the loop stops when it fits or nothing is left; the
    eviction counter grows by exactly [n]; the new key becomes the most
    recent one. A [get] served from the first tier moves its key to the
    most recent end and evicts nothing. *)
Theorem set_evicts_oldest_first (store : gmap string (CacheEntry T)) (mb : Z)
    (ops : list Op) (now : Z) (p : string) (d : T) (content : string) :
  NoDup (setKeys (ops ++ [OpSet now p d content])) ->
  (forall k, k ∈ setKeys (ops ++ [OpSet now p d content]) -> store !! k = None) ->
  let st := run ops (create store mb) in
  let k := getCacheKey p in
  let entry := mkEntry k (computeHash content) now d [] in
  let st' := set now st p d content in
  NoDup (l1Order st)
  /\ (forall x, x ∈ l1Order st <-> is_Some (l1Cache st !! x))
  /\ l1SizeBytes st = sizeOfKeys (l1Cache st) (l1Order st)
  /\ (exists n : nat,
        (n <= length (l1Order st))%nat
        /\ l1Order st' = drop n (l1Order st) ++ [k]
        /\ l1Cache st' = <[k := entry]> (removeKeys (take n (l1Order st)) (l1Cache st))
        /\ evictions (getStats st') = evictions (getStats st) + Z.of_nat n
        /\ l1SizeBytes st'
           = l1SizeBytes st - sizeOfKeys (l1Cache st) (take n (l1Order st))
             + estimateSize entry
        /\ (forall j, (j < n)%nat ->
              l1SizeBytes st - sizeOfKeys (l1Cache st) (take j (l1Order st))
              + estimateSize entry > maxBytes st)
        /\ (n = length (l1Order st) \/ l1SizeBytes st' <= maxBytes st))
  /\ (forall fs q c e,
        fs q = Some c ->
        computeHash c <> EmptyString ->
        valid_entry (l1Cache st) (getCacheKey q) (computeHash c) = Some e ->
        l1Order (get fs st q).1
        = remove_first (getCacheKey q) (l1Order st) ++ [getCacheKey q]
        /\ l1Cache (get fs st q).1 = l1Cache st
        /\ evictions (getStats (get fs st q).1) = evictions (getStats st)).
Proof.
  intros Hnd Hstore st k entry st'.
  unfold setKeys in Hnd, Hstore. rewrite flat_map_app in Hnd, Hstore.
  simpl in Hnd, Hstore. fold (setKeys ops) in Hnd, Hstore. fold k in Hnd, Hstore.
  apply NoDup_app in Hnd as (Hnd1 & Hdisj & _).
  assert (Hinv : lru_inv store (setKeys ops) st).
  { apply lru_inv_run; [assumption|]. intros x Hx. apply Hstore.
    apply elem_of_app. by left. }
  assert (Hfresh : k ∉ setKeys ops).
  { intros Hin. apply (Hdisj _ Hin). by left. }
  assert (Hsk : store !! k = None).
  { apply Hstore. apply elem_of_app. right. by left. }
  destruct Hinv as [Hndo Hdom Hsub Hsto Hby].
  split; [assumption|]. split; [assumption|]. split; [assumption|]. split.
  - destruct (setL1_fresh st k entry Hndo Hdom) as (n & Hn & Heq & Hmin & Hstop).
    assert (Hset : st' = {| maxSizeMB := maxSizeMB (setL1 k entry st);
                            l1Cache := l1Cache (setL1 k entry st);
                            l1Order := l1Order (setL1 k entry st);
                            l1SizeBytes := l1SizeBytes (setL1 k entry st);
                            stats := stats (setL1 k entry st);
                            workspaceState :=
                              <[k := entry]> (workspaceState (setL1 k entry st)) |})
      by reflexivity.
    rewrite Heq in Hset. simpl in Hset.
    exists n. rewrite Hset. simpl.
    split; [assumption|]. repeat split; try reflexivity; assumption.
  - intros fs q c e Hfs Hne Hv.
    unfold get, getFileHash. rewrite Hfs. simpl.
    destruct (String.eqb_spec (computeHash c) ""); [contradiction|].
    rewrite Hv. simpl.
    apply valid_entry_Some in Hv as [Hl1 _].
    assert (Hin : getCacheKey q ∈ l1Order st) by (apply Hdom; eauto).
    unfold touchL1. rewrite bool_decide_eq_true_2 by assumption. simpl.
    repeat split; reflexivity.
Qed.

End Eviction.

Section Serving.
Context {T : Type} {RT : Runtime T}.
Implicit Types (cache : gmap string (CacheEntry T)) (order keys : list string).

(** What [setL1] always does: the entry is stored under the key, the key
    ends the order, and the other fields of the manager are kept. *)
Lemma setL1_stores (k : string) (e : CacheEntry T) (st : State T) :
  l1Cache (setL1 k e st) !! k = Some e
  /\ (exists order, l1Order (setL1 k e st) = order ++ [k])
  /\ workspaceState (setL1 k e st) = workspaceState st
  /\ maxSizeMB (setL1 k e st) = maxSizeMB st
  /\ hits (stats (setL1 k e st)) = hits (stats st)
  /\ misses (stats (setL1 k e st)) = misses (stats st).
Proof.
  unfold setL1. destruct (evict _ _ _ _ _ _) as [[[order cache] bytes] ev].
  cbn. split; [apply lookup_insert_eq|]. split; [by eexists|]. auto.
Qed.

Lemma l1Cache_touchL1 (k : string) (st : State T) :
  l1Cache (touchL1 k st) = l1Cache st.
Proof. unfold touchL1. by case_bool_decide. Qed.

Lemma stats_touchL1 (k : string) (st : State T) :
  stats (touchL1 k st) = stats st.
Proof. unfold touchL1. by case_bool_decide. Qed.

Lemma valid_entry_intro (m : gmap string (CacheEntry T)) k e :
  m !! k = Some e -> valid_entry m k (hash e) = Some e.
Proof. intros Hm. unfold valid_entry. by rewrite Hm, String.eqb_refl. Qed.

(** The answer of [get] when the first tier holds a matching entry. *)
Lemma get_l1_hit (fs : FileSystem) (st : State T) (path content : string)
    (e : CacheEntry T) :
  fs path = Some content ->
  computeHash content <> EmptyString ->
  l1Cache st !! getCacheKey path = Some e ->
  hash e = computeHash content ->
  get fs st path = (count_hit (touchL1 (getCacheKey path) st), Some (data e)).
Proof.
  intros Hfs Hne Hl1 Hh. unfold get, getFileHash. rewrite Hfs.
  cbn [fmap option_fmap option_map].
  destruct (String.eqb_spec (computeHash content) ""); [contradiction|].
  rewrite <- Hh, (valid_entry_intro _ _ _ Hl1). reflexivity.
Qed.

(** The [get] that follows a [set] of the same file and content. *)
Lemma served_after_set (fs : FileSystem) (now : Z) (st : State T)
    (path : string) (d : T) (content : string) :
  fs path = Some content ->
  computeHash content <> EmptyString ->
  let stored := set now st path d content in
  (get fs stored path).2 = Some d
  /\ hits (getStats (get fs stored path).1) = hits (getStats stored) + 1
  /\ misses (getStats (get fs stored path).1) = misses (getStats stored)
  /\ l1Cache (get fs stored path).1 = l1Cache stored
  /\ workspaceState (get fs stored path).1 = workspaceState stored.
Proof.
  intros Hfs Hne stored.
  set (entry := mkEntry (getCacheKey path) (computeHash content) now d []).
  assert (Hl1 : l1Cache stored !! getCacheKey path = Some entry).
  { unfold stored, set. cbn [l1Cache]. apply setL1_stores. }
  rewrite (get_l1_hit fs stored path content entry Hfs Hne Hl1 eq_refl).
  cbn [fst snd]. unfold getStats, count_hit. cbn.
  rewrite stats_touchL1, l1Cache_touchL1.
  repeat split. unfold touchL1. by case_bool_decide.
Qed.

(** X1. What [set] stores is served by the next [get] of the same file, as
    long as the file has the content given to [set]: the data comes back,
    from the first tier, with one more hit and no miss, and this holds
    whatever the size of the entry and the budget. *)
Theorem get_after_set (fs : FileSystem) (now : Z) (st : State T)
    (path : string) (d : T) (content : string) :
  fs path = Some content ->
  computeHash content <> EmptyString ->
  let stored := set now st path d content in
  (get fs stored path).2 = Some d
  /\ hits (getStats (get fs stored path).1) = hits (getStats stored) + 1
  /\ misses (getStats (get fs stored path).1) = misses (getStats stored)
  /\ l1Cache (get fs stored path).1 = l1Cache stored
  /\ workspaceState (get fs stored path).1 = workspaceState stored.
Proof. exact (served_after_set fs now st path d content). Qed.

(** The [get] that follows a hit for the same file. *)
Lemma hit_again (fs : FileSystem) (st st' : State T) (path : string) (d : T) :
  get fs st path = (st', Some d) ->
  get fs st' path = (count_hit (touchL1 (getCacheKey path) st'), Some d).
Proof.
  intros Hget.
  assert (exists content e,
            fs path = Some content /\ computeHash content <> EmptyString
            /\ l1Cache st' !! getCacheKey path = Some e
            /\ hash e = computeHash content /\ data e = d)
    as (content & e & Hfs & Hne & Hl1 & Hh & <-).
  { unfold get, getFileHash in Hget.
    destruct (fs path) as [content|] eqn:Hfs; cbn in Hget; [|discriminate].
    destruct (String.eqb_spec (computeHash content) ""); [discriminate|].
    destruct (valid_entry (l1Cache st) _ _) as [e1|] eqn:H1.
    - injection Hget as <- <-. apply valid_entry_Some in H1 as [H1 Hh].
      exists content, e1. repeat split; auto.
      cbn. by rewrite l1Cache_touchL1.
    - destruct (valid_entry (workspaceState st) _ _) as [e2|] eqn:H2; [|discriminate].
      injection Hget as <- <-. apply valid_entry_Some in H2 as [H2 Hh].
      exists content, e2. repeat split; auto.
      cbn. apply setL1_stores. }
  by apply (get_l1_hit fs st' path content e).
Qed.

(** The [get] that follows a miss for the same file is a miss again, and
    both tiers are as they were. *)
Lemma miss_again (fs : FileSystem) (st st' : State T) (path : string) :
  get fs st path = (st', None) ->
  (get fs st' path).2 = None
  /\ l1Cache (get fs st' path).1 = l1Cache st
  /\ workspaceState (get fs st' path).1 = workspaceState st.
Proof.
  unfold get. destruct (getFileHash fs path) as [h|];
    [|intros [= <-]; by repeat split].
  destruct (String.eqb h ""); [intros [= <-]; by repeat split|].
  destruct (valid_entry (l1Cache st) _ _) eqn:H1; [discriminate|].
  destruct (valid_entry (workspaceState st) _ _) eqn:H2; [discriminate|].
  intros [= <-]. cbn [l1Cache workspaceState count_miss]. rewrite H1, H2.
  by repeat split.
Qed.

(** X2. A hit can be repeated: when [get] serves data for a file, the
    next [get] of the same file, on the same file system, serves the same
    data from the first tier. *)
Theorem get_hit_repeats (fs : FileSystem) (st st' : State T) (path : string) (d : T) :
  get fs st path = (st', Some d) ->
  get fs st' path = (count_hit (touchL1 (getCacheKey path) st'), Some d).
Proof. exact (hit_again fs st st' path d). Qed.

(** The result of the eviction loop: the new entry fits, or the order is
    used up; and the counter grows by at most the length of the order. *)
Lemma evict_stops entrySize limit order cache bytes ev :
  let '(order', cache', bytes', ev') := evict entrySize limit order cache bytes ev in
  (bytes' + entrySize <= limit \/ order' = [])
  /\ ev <= ev' <= ev + Z.of_nat (length order)
  /\ (exists gone, order = gone ++ order').
Proof.
  revert cache bytes ev. induction order as [|k0 rest IH]; intros cache bytes ev; simpl.
  - split; [by right|]. split; [lia|]. by exists [].
  - destruct (Z.gtb_spec (bytes + entrySize) limit) as [Hgt|Hle].
    + destruct (cache !! k0) as [old|].
      * specialize (IH (delete k0 cache) (bytes - estimateSize old) (ev + 1)).
        destruct (evict _ _ _ _ _ _) as [[[order' cache'] bytes'] ev'].
        destruct IH as (Hfit & Hev & gone & ->).
        split; [assumption|]. split; [lia|]. by exists (k0 :: gone).
      * specialize (IH cache bytes ev).
        destruct (evict _ _ _ _ _ _) as [[[order' cache'] bytes'] ev'].
        destruct IH as (Hfit & Hev & gone & ->).
        split; [assumption|]. split; [lia|]. by exists (k0 :: gone).
    + split; [left; lia|]. split; [lia|]. by exists [].
Qed.

(** X3. After [set], the bytes counted for the first tier are within the
    budget, or the new entry is the only one left in the order: the budget
    is exceeded only by an entry that is too large on its own. The entry is
    in both tiers, its key is the most recent of the order, and the
    eviction counter has grown by at most the number of keys the order
    held. *)
Theorem set_respects_budget (now : Z) (st : State T) (path : string) (d : T)
    (content : string) :
  let stored := set now st path d content in
  let entry := mkEntry (getCacheKey path) (computeHash content) now d [] in
  (l1SizeBytes stored <= maxBytes stored \/ l1Order stored = [getCacheKey path])
  /\ l1Cache stored !! getCacheKey path = Some entry
  /\ workspaceState stored !! getCacheKey path = Some entry
  /\ last (l1Order stored) = Some (getCacheKey path)
  /\ evictions (getStats st) <= evictions (getStats stored)
     <= evictions (getStats st) + Z.of_nat (length (l1Order st))
  /\ size (getStats stored) = l1SizeBytes stored.
Proof.
  intros stored entry. unfold stored, set, setL1, maxBytes.
  pose proof (evict_stops (estimateSize entry) (maxBytes st) (l1Order st)
                (l1Cache st) (l1SizeBytes st) (evictions (stats st))) as H.
  fold entry. destruct (evict _ _ _ _ _ _) as [[[order' cache'] bytes'] ev'].
  destruct H as (Hfit & Hev & _). cbn.
  split; [|split; [|split; [|split; [|split]]]].
  - destruct Hfit as [Hfit| ->]; [left; exact Hfit | by right].
  - apply lookup_insert_eq.
  - apply lookup_insert_eq.
  - apply last_snoc.
  - exact Hev.
  - reflexivity.
Qed.

Lemma invalidate1_lookup (st : State T) (p : string) (k : string) :
  l1Cache (invalidate1 st p) !! k
  = (if bool_decide (k = getCacheKey p) then None else l1Cache st !! k)
  /\ workspaceState (invalidate1 st p) !! k
     = (if bool_decide (k = getCacheKey p) then None else workspaceState st !! k).
Proof.
  unfold invalidate1. cbn. case_bool_decide as Hk.
  - subst k. by rewrite !lookup_delete_eq.
  - by rewrite !lookup_delete_ne by congruence.
Qed.

Lemma invalidate_lookup (st : State T) (paths : list string) (k : string) :
  l1Cache (invalidate st paths) !! k
  = (if bool_decide (k ∈ List.map getCacheKey paths) then None else l1Cache st !! k)
  /\ workspaceState (invalidate st paths) !! k
     = (if bool_decide (k ∈ List.map getCacheKey paths) then None
        else workspaceState st !! k).
Proof.
  unfold invalidate. revert st. induction paths as [|p paths IH]; intros st.
  - cbn. split; reflexivity.
  - cbn [fold_left List.map]. destruct (IH (invalidate1 st p)) as [-> ->].
    destruct (invalidate1_lookup st p k) as [-> ->].
    destruct (decide (k = getCacheKey p)) as [->|Hne].
    + rewrite (bool_decide_eq_true_2 (getCacheKey p = getCacheKey p)) by reflexivity.
      rewrite (bool_decide_eq_true_2 (_ ∈ _ :: _)) by left.
      split; by case_bool_decide.
    + rewrite (bool_decide_eq_false_2 (k = getCacheKey p)) by assumption.
      rewrite (bool_decide_ext (k ∈ getCacheKey p :: List.map getCacheKey paths)
                 (k ∈ List.map getCacheKey paths)); [split; reflexivity|].
      rewrite elem_of_cons. intuition congruence.
Qed.

Lemma invalidate_fields (st : State T) (paths : list string) :
  stats (invalidate st paths) = stats st
  /\ l1SizeBytes (invalidate st paths) = l1SizeBytes st
  /\ maxSizeMB (invalidate st paths) = maxSizeMB st.
Proof.
  unfold invalidate. revert st. induction paths as [|p paths IH]; intros st.
  - auto.
  - cbn [fold_left]. destruct (IH (invalidate1 st p)) as (-> & -> & ->). auto.
Qed.

(** X4. After [invalidate], the files of the list have no entry in either
    tier, so the next [get] of one of them is a miss; and a file whose key
    is not the key of a listed file is served exactly as before. *)
Theorem get_after_invalidate (fs : FileSystem) (st : State T) (paths : list string) :
  (forall path content,
     path ∈ paths -> fs path = Some content -> computeHash content <> EmptyString ->
     get fs (invalidate st paths) path = (count_miss (invalidate st paths), None))
  /\ (forall other,
        getCacheKey other ∉ List.map getCacheKey paths ->
        (get fs (invalidate st paths) other).2 = (get fs st other).2).
Proof.
  split.
  - intros path content Hin Hfs Hne.
    assert (Hk : getCacheKey path ∈ List.map getCacheKey paths).
    { apply list_elem_of_In, in_map. by apply list_elem_of_In. }
    destruct (invalidate_lookup st paths (getCacheKey path)) as [H1 H2].
    rewrite bool_decide_eq_true_2 in H1, H2 by assumption.
    unfold get, getFileHash. rewrite Hfs. cbn [fmap option_fmap option_map].
    destruct (String.eqb_spec (computeHash content) ""); [contradiction|].
    unfold valid_entry. by rewrite H1, H2.
  - intros other Hk.
    destruct (invalidate_lookup st paths (getCacheKey other)) as [H1 H2].
    rewrite bool_decide_eq_false_2 in H1, H2 by assumption.
    unfold get, getFileHash. destruct (fs other) as [content|]; cbn; [|reflexivity].
    destruct (String.eqb (computeHash content) ""); [reflexivity|].
    unfold valid_entry. rewrite H1, H2.
    destruct (l1Cache st !! getCacheKey other) as [e1|].
    + destruct (String.eqb (hash e1) (computeHash content)); [reflexivity|].
      destruct (workspaceState st !! getCacheKey other) as [e2|]; [|reflexivity].
      by destruct (String.eqb (hash e2) (computeHash content)).
    + destruct (workspaceState st !! getCacheKey other) as [e2|]; [|reflexivity].
      by destruct (String.eqb (hash e2) (computeHash content)).
Qed.

Lemma invalidate_order (st : State T) (paths : list string) (k : string) :
  (forall x, x ∈ l1Order st -> is_Some (l1Cache st !! x)) ->
  (forall x, x ∈ l1Order (invalidate st paths) ->
             is_Some (l1Cache (invalidate st paths) !! x))
  /\ (k ∈ l1Order (invalidate st paths) -> k ∈ l1Order st).
Proof.
  unfold invalidate. revert st. induction paths as [|p paths IH]; intros st Hdom.
  - auto.
  - cbn [fold_left].
    assert (Hsub : forall x, x ∈ l1Order (invalidate1 st p) ->
                     x ∈ l1Order st /\ x <> getCacheKey p).
    { intros x. unfold invalidate1. cbn. case_bool_decide as Hhas.
      - intros Hx. apply list_elem_of_In, filter_In in Hx as [Hx Hneq].
        split; [by apply list_elem_of_In|].
        intros ->. by rewrite String.eqb_refl in Hneq.
      - intros Hx. split; [assumption|]. intros ->. apply Hhas, Hdom, Hx. }
    destruct (IH (invalidate1 st p)) as [Hdom' Hin].
    + intros x Hx. destruct (Hsub x Hx) as [Hx' Hne].
      destruct (invalidate1_lookup st p x) as [-> _].
      rewrite bool_decide_eq_false_2 by assumption. by apply Hdom.
    + split; [assumption|]. intros Hk. by apply Hsub, Hin.
Qed.

(** X5. [invalidate] takes the entries away but leaves every counter as
    it was: the statistics after it, the size in bytes included, are those
    from before, although the entries of the listed files are gone from the
    first tier and (when every key of the order had an entry) from the
    order. *)
Theorem invalidate_keeps_statistics (st : State T) (paths : list string) :
  getStats (invalidate st paths) = getStats st
  /\ (forall path, path ∈ paths ->
        l1Cache (invalidate st paths) !! getCacheKey path = None)
  /\ ((forall x, x ∈ l1Order st -> is_Some (l1Cache st !! x)) ->
      forall path, path ∈ paths -> getCacheKey path ∉ l1Order (invalidate st paths)).
Proof.
  split; [|split].
  - unfold getStats. destruct (invalidate_fields st paths) as (-> & -> & _). reflexivity.
  - intros path Hin. destruct (invalidate_lookup st paths (getCacheKey path)) as [-> _].
    rewrite bool_decide_eq_true_2; [reflexivity|].
    apply list_elem_of_In, in_map. by apply list_elem_of_In.
  - intros Hdom path Hin Hk.
    destruct (invalidate_order st paths (getCacheKey path) Hdom) as [Hdom' _].
    destruct (Hdom' _ Hk) as [e He].
    destruct (invalidate_lookup st paths (getCacheKey path)) as [H1 _].
    rewrite bool_decide_eq_true_2 in H1; [congruence|].
    apply list_elem_of_In, in_map. by apply list_elem_of_In.
Qed.

End Serving.

#[local] Existing Instance exampleRuntime.

(** The theorem at work: after [set], a [get] of the unchanged file is
    served. *)
Lemma get_serves_only_matching_hash_witness :
  let st := set 0 (create ∅ 1) "a.ts" 7 "let x" in
  exists content e,
    exampleFiles "a.ts" = Some content
    /\ (l1Cache st !! getCacheKey "a.ts" = Some e
        \/ (workspaceState st !! getCacheKey "a.ts" = Some e
            /\ forall e1, l1Cache st !! getCacheKey "a.ts" = Some e1 ->
                          hash e1 <> computeHash content))
    /\ hash e = computeHash content
    /\ data e = 7.
Proof.
  eapply (get_serves_only_matching_hash exampleFiles).
  vm_compute. reflexivity.
Defined.

(** The theorem at work: [clear] after a [set] of "a.ts". *)
Lemma clear_keeps_workspace_entries_witness :
  let cleared := clear (set 0 (create ∅ 1) "a.ts" 7 "let x") in
  (get exampleFiles cleared "a.ts").2 = Some 7
  /\ hits (getStats (get exampleFiles cleared "a.ts").1) = 1.
Proof.
  intros cleared.
  destruct (clear_keeps_workspace_entries exampleFiles 0 (create ∅ 1) "a.ts" 7 "let x")
    as (_ & _ & _ & Hd & Hh & _).
  - reflexivity.
  - discriminate.
  - split; [exact Hd | exact Hh].
Defined.

(** The theorem at work: with a budget of two megabytes, a third entry
    evicts one entry, the oldest of the order. *)
Lemma set_evicts_oldest_first_witness :
  let st := run exampleOps (create ∅ 2) in
  let st' := set 2 st "c.ts" 3 "c" in
  exists n : nat,
    (n <= length (l1Order st))%nat
    /\ l1Order st' = drop n (l1Order st) ++ [getCacheKey "c.ts"]
    /\ evictions (getStats st') = evictions (getStats st) + Z.of_nat n.
Proof.
  intros st st'.
  destruct (set_evicts_oldest_first ∅ 2 exampleOps 2 "c.ts" 3 "c")
    as (_ & _ & _ & (n & Hn & Ho & _ & He & _) & _).
  - compute_done.
  - intros k _. apply lookup_empty.
  - exists n. split; [exact Hn|]. split; [exact Ho | exact He].
Defined.

(** C5 (what the code does). [setL1] pushes the key to the order without
    removing the place that the key already has, and counts the bytes of
    the entry again. The workspace store holds the entry of "a.ts"; the
    budget is three megabytes and every entry takes 800000 bytes. After
    "a.ts" was read (promoted from the store), stored, "b.ts" stored and
    "a.ts" read again, the order lists "a.ts" twice, and 2400000 bytes are
    counted for the two entries. Storing "c.ts" then evicts "a.ts", the
    entry used last, and keeps "b.ts", the least recently used one; storing
    "d.ts" evicts "b.ts". The four [set] calls have distinct keys and
    their entries exceed the budget together; two entries are evicted, the
    most recently used one first, where one eviction, of "b.ts", makes
    room for "d.ts" with "a.ts" and "c.ts" kept. *)
Theorem recently_used_entry_is_evicted :
  let a := getCacheKey "a.ts" in
  let b := getCacheKey "b.ts" in
  let c := getCacheKey "c.ts" in
  let d := getCacheKey "d.ts" in
  let st := run promotedOps (create exampleStore 3) in
  let st1 := set 3 st "c.ts" 3 "c" in
  let st2 := set 4 st1 "d.ts" 4 "d" in
  NoDup (setKeys (promotedOps ++ [OpSet 3 "c.ts" 3 "c"; OpSet 4 "d.ts" 4 "d"]))
  /\ maxBytes st = 3145728
  /\ (forall e : CacheEntry Z, estimateSize e = 800000)
  /\ l1Order st = [a; b; a]
  /\ dom (l1Cache st) = ({[a; b]} : gset string)
  /\ l1SizeBytes st = 2400000
  /\ evictions (getStats st) = 0
  /\ l1Order st1 = [b; a; c]
  /\ dom (l1Cache st1) = ({[b; c]} : gset string)
  /\ evictions (getStats st1) = 1
  /\ l1Order st2 = [a; c; d]
  /\ dom (l1Cache st2) = ({[c; d]} : gset string)
  /\ evictions (getStats st2) = 2.
Proof.
  split; [compute_done|].
  repeat split; vm_compute; reflexivity.
Qed.

Example eviction_run :
  let st := run exampleOps (create ∅ 2) in
  let st' := set 2 st "c.ts" 3 "c" in
  l1Order st = [getCacheKey "b.ts"; getCacheKey "a.ts"]
  /\ l1Order st' = [getCacheKey "a.ts"; getCacheKey "c.ts"]
  /\ evictions (getStats st') = 1.
Proof. vm_compute. repeat split; reflexivity. Qed.

(** The theorem at work: "a.ts" is stored and read back. *)
Lemma get_after_set_witness :
  (get exampleFiles (set 0 (create ∅ 1) "a.ts" 7 "let x") "a.ts").2 = Some 7.
Proof.
  destruct (get_after_set exampleFiles 0 (create ∅ 1) "a.ts" 7 "let x") as [H _].
  - reflexivity.
  - discriminate.
  - exact H.
Defined.

(** The theorem at work: a second [get] after a hit from the second
    tier. *)
Lemma get_hit_repeats_witness :
  let cleared := clear (set 0 (create ∅ 1) "a.ts" 7 "let x") in
  let st' := (get exampleFiles cleared "a.ts").1 in
  get exampleFiles st' "a.ts"
  = (count_hit (touchL1 (getCacheKey "a.ts") st'), Some 7).
Proof.
  intros cleared st'.
  apply (get_hit_repeats exampleFiles cleared st' "a.ts" 7).
  vm_compute. reflexivity.
Defined.

(** The theorem at work: "a.ts" is stored and invalidated. *)
Lemma get_after_invalidate_witness :
  let st := invalidate (set 0 (create ∅ 1) "a.ts" 7 "let x") ["a.ts"%string] in
  get exampleFiles st "a.ts" = (count_miss st, None).
Proof.
  intros st.
  destruct (get_after_invalidate exampleFiles (set 0 (create ∅ 1) "a.ts" 7 "let x")
              ["a.ts"%string]) as [H _].
  apply (H "a.ts"%string "let x"%string).
  - by left.
  - reflexivity.
  - discriminate.
Defined.

(** The theorem at work: the bytes of "a.ts" stay counted after it is
    invalidated. *)
Lemma invalidate_keeps_statistics_witness :
  let st := set 0 (create ∅ 1) "a.ts" 7 "let x" in
  size (getStats (invalidate st ["a.ts"%string])) = 800000
  /\ getCacheKey "a.ts" ∉ l1Order (invalidate st ["a.ts"%string]).
Proof.
  intros st.
  destruct (invalidate_keeps_statistics st ["a.ts"%string]) as (Hs & _ & Ho).
  split.
  - rewrite Hs. reflexivity.
  - apply Ho; [|by left].
    intros x Hx. vm_compute in Hx. apply list_elem_of_singleton in Hx. subst x.
    vm_compute. eauto.
Defined.

End CacheProofs.
(* ===================================================================== *)
(** * Incremental parser: the decision between skip, partial and full *)
(* ===================================================================== *)

Module IncrementalProofs.
Import Incremental IncrementalSpec Examples.

Section Decision.
Context {TC : Ts.Compiler}.
Implicit Types (st : State) (e : EditInfo) (s c : CachedSymbol).

Lemma no_affected_declaration e (syms : list CachedSymbol) :
  (forall s, s ∈ syms -> ~ touchesDeclaration e s) ->
  List.filter (fun sym => (declarationLine sym >=? editStart e)
                          && (declarationLine sym <=? editEnd e)) syms = [].
Proof.
  induction syms as [|s syms IH]; intros H; [reflexivity|].
  simpl. destruct ((declarationLine s >=? editStart e)
                   && (declarationLine s <=? editEnd e)) eqn:Hb.
  - exfalso. apply (H s); [by left|]. unfold touchesDeclaration. lia.
  - apply IH. intros s' Hs'. apply H. by right.
Qed.

Lemma affected_declaration e (syms : list CachedSymbol) s :
  s ∈ syms -> touchesDeclaration e s ->
  Nat.ltb 0 (List.length (List.filter
          (fun sym => (declarationLine sym >=? editStart e)
                      && (declarationLine sym <=? editEnd e)) syms)) = true.
Proof.
  intros Hs Ht. induction syms as [|s' syms IH]; [by apply elem_of_nil in Hs|].
  simpl. destruct ((declarationLine s' >=? editStart e)
                   && (declarationLine s' <=? editEnd e)) eqn:Hb; [reflexivity|].
  apply elem_of_cons in Hs as [->|Hs]; [|by apply IH].
  unfold touchesDeclaration in Ht. lia.
Qed.

Lemma containing_found e (syms : list CachedSymbol) c :
  c ∈ syms -> insideBody e c ->
  is_Some (List.find (fun sym => (editStart e >? declarationLine sym)
                                 && (editEnd e <=? endLine sym)) syms).
Proof.
  intros Hc [H1 H2]. induction syms as [|s syms IH]; [by apply elem_of_nil in Hc|].
  simpl. destruct ((editStart e >? declarationLine s) && (editEnd e <=? endLine s)) eqn:Hb;
    [eauto|].
  apply elem_of_cons in Hc as [->|Hc]; [lia | by apply IH].
Qed.

Lemma containing_none e (syms : list CachedSymbol) :
  (forall s, s ∈ syms -> ~ insideBody e s) ->
  List.find (fun sym => (editStart e >? declarationLine sym)
                        && (editEnd e <=? endLine sym)) syms = None.
Proof.
  induction syms as [|s syms IH]; intros H; [reflexivity|].
  simpl. destruct ((editStart e >? declarationLine s) && (editEnd e <=? endLine s)) eqn:Hb.
  - exfalso. apply (H s); [by left|]. unfold insideBody. lia.
  - apply IH. intros s' Hs'. apply H. by right.
Qed.

(** The result of a body-interior edit. *)
Lemma body_edit_result st path newContent e cached c :
  st !! path = Some cached ->
  quickHash newContent <> fileHash cached ->
  c ∈ symbols cached ->
  insideBody e c ->
  (forall s, s ∈ symbols cached -> ~ touchesDeclaration e s) ->
  parseIncremental st path newContent (Some e)
  = (cacheFile st path newContent (adjustLineNumbers (symbols cached) e),
     {| resultSymbols := adjustLineNumbers (symbols cached) e;
        parseStrategy := skip; affectedSymbols := [] |}).
Proof.
  intros Hst Hhash Hc Hin Hdecl. unfold parseIncremental. rewrite Hst.
  destruct (String.eqb_spec (fileHash cached) (quickHash newContent)); [congruence|].
  unfold tryPartialParse. rewrite no_affected_declaration by assumption. simpl.
  destruct (containing_found e (symbols cached) c Hc Hin) as [c' ->].
  reflexivity.
Qed.

(** A changed content without edit information, or with an edit that
    covers a declaration line, is parsed in full. *)
Lemma no_edit_info_is_full st path newContent cached :
  st !! path = Some cached ->
  quickHash newContent <> fileHash cached ->
  parseIncremental st path newContent None = parseFully st path newContent.
Proof.
  intros Hst Hhash. unfold parseIncremental. rewrite Hst.
  destruct (String.eqb_spec (fileHash cached) (quickHash newContent)); [congruence|].
  reflexivity.
Qed.

Lemma declaration_edit_is_full st path newContent e cached s :
  st !! path = Some cached ->
  quickHash newContent <> fileHash cached ->
  s ∈ symbols cached ->
  touchesDeclaration e s ->
  parseIncremental st path newContent (Some e) = parseFully st path newContent.
Proof.
  intros Hst Hhash Hs Ht. unfold parseIncremental. rewrite Hst.
  destruct (String.eqb_spec (fileHash cached) (quickHash newContent)); [congruence|].
  unfold tryPartialParse. rewrite (affected_declaration e _ s Hs Ht). reflexivity.
Qed.

(** C7. Parsing again a file whose content hash equals the cached one
    returns the strategy [skip], no affected symbol, and the cached symbol
    list itself; the cache is not changed. *)
Theorem unchanged_content_is_skipped st path newContent (editInfo : option EditInfo)
    cached :
  st !! path = Some cached ->
  quickHash newContent = fileHash cached ->
  parseIncremental st path newContent editInfo
  = (st, {| resultSymbols := symbols cached; parseStrategy := skip;
            affectedSymbols := [] |}).
Proof.
  intros Hst Hhash. unfold parseIncremental. rewrite Hst, Hhash.
  rewrite String.eqb_refl. reflexivity.
Qed.

(** C2. When the content has changed, the edit range lies in the body of
    a cached symbol and covers no declaration line, the strategy is
    [skip]; the returned list has the symbols of the cache in the same
    order, with the same names and kinds, and every symbol entirely after
    the edit has its start, end and declaration line shifted by the line
    delta of the edit. *)
Theorem body_edit_is_skipped st path newContent e cached c :
  st !! path = Some cached ->
  quickHash newContent <> fileHash cached ->
  c ∈ symbols cached ->
  insideBody e c ->
  (forall s, s ∈ symbols cached -> ~ touchesDeclaration e s) ->
  let r := (parseIncremental st path newContent (Some e)).2 in
  parseStrategy r = skip
  /\ List.map name (resultSymbols r) = List.map name (symbols cached)
  /\ List.map kind (resultSymbols r) = List.map kind (symbols cached)
  /\ (forall (i : nat) s, symbols cached !! i = Some s -> afterEdit e s ->
        resultSymbols r !! i = Some (shifted (linesDelta e) s)).
Proof.
  intros Hst Hhash Hc Hin Hdecl r. subst r.
  rewrite (body_edit_result st path newContent e cached c) by assumption.
  cbn [snd parseStrategy resultSymbols]. unfold adjustLineNumbers.
  split; [reflexivity|]. split; [|split].
  - rewrite List.map_map. apply List.map_ext. intros s.
    unfold adjustSymbol. by repeat destruct (_ : bool).
  - rewrite List.map_map. apply List.map_ext. intros s.
    unfold adjustSymbol. by repeat destruct (_ : bool).
  - intros i s Hi Hafter. change (@List.map) with (@fmap list _).
    rewrite list_lookup_fmap, Hi. simpl. f_equal.
    unfold adjustSymbol, afterEdit in *.
    destruct (Z.gtb_spec (startLine s) (editEnd e)); [reflexivity | lia].
Qed.

Lemma extractSymbol_declaration statement lines s :
  extractSymbol statement lines = Some s -> declarationLine s = startLine s.
Proof.
  unfold extractSymbol.
  destruct (if _ : bool then _ else _) as [[nm|] [k|]]; try discriminate.
  destruct (String.eqb nm ""); [discriminate|]. by intros [= <-].
Qed.

Lemma fullParse_declaration path content s :
  s ∈ fullParse path content -> declarationLine s = startLine s.
Proof.
  unfold fullParse. intros Hs. apply list_elem_of_omap in Hs as (stmt & _ & Hs).
  by eapply extractSymbol_declaration.
Qed.

Lemma adjustSymbol_declaration e s :
  declarationLine s = startLine s ->
  declarationLine (adjustSymbol e s) = startLine (adjustSymbol e s).
Proof.
  intros H. unfold adjustSymbol.
  repeat destruct (_ : bool); simpl; lia.
Qed.

Lemma declarations_first_cacheFile st path content syms :
  declarations_first st ->
  (forall s, s ∈ syms -> declarationLine s = startLine s) ->
  declarations_first (cacheFile st path content syms).
Proof.
  intros Hst Hsyms p cached s. unfold cacheFile.
  destruct (decide (path = p)) as [->|Hne].
  - rewrite lookup_insert_eq. intros [= <-]. simpl. apply Hsyms.
  - rewrite lookup_insert_ne by assumption. apply Hst.
Qed.

Lemma declarations_first_adjusted st path cached e s :
  declarations_first st -> st !! path = Some cached ->
  s ∈ adjustLineNumbers (symbols cached) e ->
  declarationLine s = startLine s.
Proof.
  intros Hst Hc Hs. unfold adjustLineNumbers in Hs.
  change (@List.map) with (@fmap list _) in Hs.
  apply list_elem_of_fmap in Hs as (s0 & -> & Hs0).
  apply adjustSymbol_declaration. by eapply Hst.
Qed.

Lemma reachable_declarations_first st : reachable st -> declarations_first st.
Proof.
  induction 1 as [|st path content editInfo Hr IH|st path Hr IH].
  - intros p cached s. by rewrite lookup_empty.
  - assert (Hfull : declarations_first (parseFully st path content).1).
    { apply declarations_first_cacheFile; [assumption|].
      intros s. apply fullParse_declaration. }
    unfold parseIncremental.
    destruct (st !! path) as [cached|] eqn:Hc; [|assumption].
    destruct (String.eqb _ _); [assumption|].
    destruct editInfo as [e|]; [|assumption].
    unfold tryPartialParse.
    destruct (Nat.ltb _ _); [assumption|].
    destruct (List.find _ _).
    + apply declarations_first_cacheFile; [assumption|].
      intros s Hs. exact (declarations_first_adjusted st path cached e s IH Hc Hs).
    + destruct (_ =? _); [|assumption].
      apply declarations_first_cacheFile; [assumption|].
      intros s Hs. exact (declarations_first_adjusted st path cached e s IH Hc Hs).
  - unfold clearCache. destruct path as [p|].
    + destruct (String.eqb p "").
      * intros q cached s. by rewrite lookup_empty.
      * intros q cached s Hq. apply lookup_delete_Some in Hq as [_ Hq].
        by eapply IH.
    + intros q cached s. by rewrite lookup_empty.
Qed.

(** C10. In a cache that the parser can hold, when the content has
    changed and a well-formed edit range lies in the body of a cached
    symbol and covers no declaration line, the strategy is [skip] and the
    list returned, which is also the one stored in the cache, differs from
    the cached one as follows: the symbol that contains the edit has its
    end line moved by the line delta and every other field unchanged, and a
    symbol entirely before the edit is the same. *)
Theorem body_edit_frame st path newContent e cached c :
  reachable st ->
  st !! path = Some cached ->
  quickHash newContent <> fileHash cached ->
  editStart e <= editEnd e ->
  c ∈ symbols cached ->
  insideBody e c ->
  (forall s, s ∈ symbols cached -> ~ touchesDeclaration e s) ->
  let out := parseIncremental st path newContent (Some e) in
  parseStrategy out.2 = skip
  /\ symbols <$> (out.1 !! path) = Some (resultSymbols out.2)
  /\ (forall i : nat, symbols cached !! i = Some c ->
        resultSymbols out.2 !! i = Some (extended (linesDelta e) c))
  /\ (forall (i : nat) s, symbols cached !! i = Some s -> beforeEdit e s ->
        resultSymbols out.2 !! i = Some s).
Proof.
  intros Hreach Hst Hhash Hrange Hc Hin Hdecl out. subst out.
  rewrite (body_edit_result st path newContent e cached c) by assumption.
  cbn [fst snd parseStrategy resultSymbols].
  split; [reflexivity|]. split; [|split].
  - unfold cacheFile. rewrite lookup_insert_eq. reflexivity.
  - intros i Hi. unfold adjustLineNumbers. change (@List.map) with (@fmap list _).
    rewrite list_lookup_fmap, Hi. simpl. f_equal.
    pose proof (reachable_declarations_first st Hreach path cached c Hst Hc) as Hd.
    destruct Hin as [H1 H2]. unfold adjustSymbol.
    destruct (Z.gtb_spec (startLine c) (editEnd e)); [lia|].
    destruct (Z.geb_spec (endLine c) (editStart e)); [reflexivity | lia].
  - intros i s Hi [H1 H2]. unfold adjustLineNumbers.
    change (@List.map) with (@fmap list _).
    rewrite list_lookup_fmap, Hi. simpl. f_equal. unfold adjustSymbol.
    destruct (Z.gtb_spec (startLine s) (editEnd e)); [lia|].
    destruct (Z.geb_spec (endLine s) (editStart e)); [lia | reflexivity].
Qed.

(** The decision of [tryPartialParse]. When the content has changed, the
    strategy is [full] exactly when the edit range covers the declaration
    line of a cached symbol, or lies in the body of no cached symbol while
    the number of declaration lines that the signature patterns find in the
    new content differs from the number of cached symbols. *)
Lemma full_parse_decision st path newContent e cached :
  st !! path = Some cached ->
  quickHash newContent <> fileHash cached ->
  let strategy := parseStrategy (parseIncremental st path newContent (Some e)).2 in
  (strategy = full
   <-> (exists s, s ∈ symbols cached /\ touchesDeclaration e s)
       \/ ((forall s, s ∈ symbols cached -> ~ insideBody e s)
           /\ quickDeclarationCount newContent
              <> Z.of_nat (List.length (symbols cached))))
  /\ ((forall s, s ∈ symbols cached -> ~ touchesDeclaration e s) ->
      (forall s, s ∈ symbols cached -> ~ insideBody e s) ->
      quickDeclarationCount newContent
      = Z.of_nat (List.length (symbols cached)) + 1 ->
      strategy = full).
Proof.
  intros Hst Hhash strategy.
  assert (Hiff : strategy = full
   <-> (exists s, s ∈ symbols cached /\ touchesDeclaration e s)
       \/ ((forall s, s ∈ symbols cached -> ~ insideBody e s)
           /\ quickDeclarationCount newContent
              <> Z.of_nat (List.length (symbols cached)))).
  { subst strategy. unfold parseIncremental. rewrite Hst.
    destruct (String.eqb_spec (fileHash cached) (quickHash newContent)); [congruence|].
    unfold tryPartialParse.
    destruct (decide (Exists (touchesDeclaration e) (symbols cached))) as [Hex|Hno].
    - apply Exists_exists in Hex as (s & Hs & Ht).
      rewrite (affected_declaration e _ s Hs Ht). simpl. split; eauto.
    - assert (Hnone : forall s, s ∈ symbols cached -> ~ touchesDeclaration e s).
      { intros s Hs Ht. apply Hno. apply Exists_exists. eauto. }
      rewrite no_affected_declaration by assumption. simpl.
      destruct (decide (Exists (insideBody e) (symbols cached))) as [Hin|Hout].
      + apply Exists_exists in Hin as (c & Hc & Hin).
        destruct (containing_found e _ c Hc Hin) as [c' ->]. simpl.
        split; [discriminate|].
        intros [(s & Hs & Ht)|[Hb _]]; [by destruct (Hnone s Hs) | by destruct (Hb c Hc)].
      + assert (Hb : forall s, s ∈ symbols cached -> ~ insideBody e s).
        { intros s Hs Ht. apply Hout. apply Exists_exists. eauto. }
        rewrite containing_none by assumption.
        destruct (Z.eqb_spec (quickDeclarationCount newContent)
                             (Z.of_nat (List.length (symbols cached)))) as [Heq|Hne];
          simpl.
        * split; [discriminate|].
          intros [(s & Hs & Ht)|[_ Hc]]; [by destruct (Hnone s Hs) | contradiction].
        * split; auto. }
  split; [exact Hiff|].
  intros Hnone Hb Hcount. apply Hiff. right. split; [assumption | lia].
Qed.

End Decision.

Section Results.
Context {TC : Ts.Compiler}.
Implicit Types (st : State) (e : EditInfo) (s c : CachedSymbol).

(** The three ways in which [parseIncremental] answers. *)
Lemma parseIncremental_cases st path content (editInfo : option EditInfo) :
  parseIncremental st path content editInfo = parseFully st path content
  \/ (exists cached,
        st !! path = Some cached /\ fileHash cached = quickHash content
        /\ parseIncremental st path content editInfo
           = (st, mkResult (symbols cached) skip []))
  \/ (exists cached e strategy,
        st !! path = Some cached /\ editInfo = Some e /\ strategy <> full
        /\ parseIncremental st path content editInfo
           = (cacheFile st path content (adjustLineNumbers (symbols cached) e),
              mkResult (adjustLineNumbers (symbols cached) e) strategy [])).
Proof.
  unfold parseIncremental.
  destruct (st !! path) as [cached|] eqn:Hc; [|by left].
  destruct (String.eqb_spec (fileHash cached) (quickHash content)) as [Hh|Hh].
  { right. left. by exists cached. }
  destruct editInfo as [e|]; [|by left].
  unfold tryPartialParse.
  destruct (Nat.ltb _ _); [by left|].
  destruct (List.find _ _).
  - right. right. exists cached, e, skip. by repeat split.
  - destruct (_ =? _); [|by left].
    right. right. exists cached, e, partial. by repeat split.
Qed.

(** X6. Parsing the same content a second time is always skipped: after
    any call of [parseIncremental], a call for the same file and content,
    with or without edit information, returns the strategy [skip] with the
    symbols of the first call, and leaves the cache as it is. *)
Theorem second_parse_is_skipped st path content (first second : option EditInfo) :
  let out := parseIncremental st path content first in
  parseIncremental out.1 path content second
  = (out.1, mkResult (resultSymbols out.2) skip []).
Proof.
  intros out.
  assert (exists cached, out.1 !! path = Some cached
                         /\ fileHash cached = quickHash content
                         /\ symbols cached = resultSymbols out.2)
    as (cached & Hc & Hh & Hs).
  { subst out.
    destruct (parseIncremental_cases st path content first)
      as [->|[(cached & Hc & Hh & ->)|(cached & e & strategy & Hc & _ & _ & ->)]].
    - unfold parseFully, cacheFile. cbn. rewrite lookup_insert_eq. by eexists.
    - exists cached. by repeat split.
    - unfold cacheFile. cbn. rewrite lookup_insert_eq. by eexists. }
  unfold parseIncremental at 1. rewrite Hc, Hh, String.eqb_refl. by rewrite Hs.
Qed.

Lemma adjustSymbol_identity e s :
  name (adjustSymbol e s) = name s /\ kind (adjustSymbol e s) = kind s
  /\ contentHash (adjustSymbol e s) = contentHash s.
Proof. unfold adjustSymbol. by repeat destruct (_ : bool). Qed.

Lemma adjustSymbol_zero e s : linesDelta e = 0 -> adjustSymbol e s = s.
Proof.
  intros Hd. unfold adjustSymbol. rewrite Hd, !Z.add_0_r.
  destruct s. by repeat destruct (_ : bool).
Qed.

(** X7. Unless the strategy is [full], the result is the cached list with
    line numbers moved and nothing else: as many symbols, with the names,
    kinds and content hashes of the cached ones in the same order (the
    content hash of a symbol is not computed again, whatever the edit did
    to its text), no affected symbol, and the very same list when there is
    no edit information or the edit keeps the number of lines. When the
    strategy is [full], the result is the full parse of the new content,
    with every name reported as affected. *)
Theorem result_by_strategy st path content (editInfo : option EditInfo) :
  let r := (parseIncremental st path content editInfo).2 in
  match parseStrategy r with
  | full =>
      resultSymbols r = fullParse path content
      /\ affectedSymbols r = List.map name (fullParse path content)
  | _ =>
      exists cached,
         st !! path = Some cached
         /\ List.length (resultSymbols r) = List.length (symbols cached)
         /\ List.map name (resultSymbols r) = List.map name (symbols cached)
         /\ List.map kind (resultSymbols r) = List.map kind (symbols cached)
         /\ List.map contentHash (resultSymbols r)
            = List.map contentHash (symbols cached)
         /\ affectedSymbols r = []
         /\ (match editInfo with
             | Some e => linesDelta e = 0
             | None => True
             end -> resultSymbols r = symbols cached)
  end.
Proof.
  intros r. subst r.
  destruct (parseIncremental_cases st path content editInfo)
    as [->|[(cached & Hc & Hh & ->)|(cached & e & strategy & Hc & -> & Hs & ->)]].
  - cbn. by split.
  - cbn. exists cached. by repeat split.
  - cbn [snd parseStrategy resultSymbols affectedSymbols].
    assert (exists cached0,
      st !! path = Some cached0
      /\ List.length (adjustLineNumbers (symbols cached) e) = List.length (symbols cached0)
      /\ List.map name (adjustLineNumbers (symbols cached) e) = List.map name (symbols cached0)
      /\ List.map kind (adjustLineNumbers (symbols cached) e) = List.map kind (symbols cached0)
      /\ List.map contentHash (adjustLineNumbers (symbols cached) e)
         = List.map contentHash (symbols cached0)
      /\ @nil string = []
      /\ (linesDelta e = 0 -> adjustLineNumbers (symbols cached) e = symbols cached0))
      as Hgoal; [|by destruct strategy].
    exists cached. unfold adjustLineNumbers.
    split; [assumption|]. split; [apply length_map|].
    split; [|split; [|split; [|split]]].
    + rewrite List.map_map. apply List.map_ext. intros s. apply adjustSymbol_identity.
    + rewrite List.map_map. apply List.map_ext. intros s. apply adjustSymbol_identity.
    + rewrite List.map_map. apply List.map_ext. intros s. apply adjustSymbol_identity.
    + reflexivity.
    + intros Hd. rewrite <- (List.map_id (symbols cached)) at 2.
      apply List.map_ext. intros s. by apply adjustSymbol_zero.
Qed.

(** X8. [clearCache] for a file makes the next parse of that file a full
    parse, whatever the content and the edit information; with a path that
    is not empty the entries of the other files are kept, and with the
    empty path the whole cache is dropped, as without a path. *)
Theorem parse_after_clearCache st path content (editInfo : option EditInfo) :
  parseIncremental (clearCache st (Some path)) path content editInfo
  = parseFully (clearCache st (Some path)) path content
  /\ (path <> EmptyString ->
      forall other, other <> path -> clearCache st (Some path) !! other = st !! other)
  /\ clearCache st (Some EmptyString) = clearCache st None
  /\ forall other, clearCache st None !! other = None.
Proof.
  split; [|split; [|split]].
  - assert (Hnone : clearCache st (Some path) !! path = None).
    { unfold clearCache. destruct (String.eqb path "").
      - apply lookup_empty.
      - apply lookup_delete_eq. }
    unfold parseIncremental. by rewrite Hnone.
  - intros Hne other Ho. unfold clearCache.
    destruct (String.eqb_spec path ""); [contradiction|].
    apply lookup_delete_ne. congruence.
  - reflexivity.
  - intros other. apply lookup_empty.
Qed.

(** A result that is not a full parse has as many symbols as the cache
    held for the file. *)
Lemma not_full_keeps_count st path content (editInfo : option EditInfo) :
  parseStrategy (parseIncremental st path content editInfo).2 <> full ->
  exists cached,
    st !! path = Some cached
    /\ List.length (resultSymbols (parseIncremental st path content editInfo).2)
       = List.length (symbols cached).
Proof.
  destruct (parseIncremental_cases st path content editInfo)
    as [->|[(cached & Hc & Hh & ->)|(cached & e & strategy & Hc & -> & Hs & ->)]].
  - cbn. contradiction.
  - intros _. by exists cached.
  - intros _. exists cached. split; [assumption|]. cbn. apply length_map.
Qed.

Lemma symbolCount_insert st path (fc : FileCache) :
  symbolCount (getCacheStats (<[path := fc]> st))
  = symbolCount (getCacheStats st)
    - match st !! path with
      | Some cached => Z.of_nat (List.length (symbols cached))
      | None => 0
      end
    + Z.of_nat (List.length (symbols fc)).
Proof.
  unfold getCacheStats. cbn [symbolCount].
  set (f := fun (_ : string) (cache : FileCache) (total : Z) =>
              total + Z.of_nat (List.length (symbols cache))).
  assert (Hcomm : forall (m : State) (j1 j2 : string) (z1 z2 : FileCache) (y : Z),
            j1 <> j2 -> m !! j1 = Some z1 -> m !! j2 = Some z2 ->
            f j1 z1 (f j2 z2 y) = f j2 z2 (f j1 z1 y))
    by (intros; unfold f; lia).
  destruct (st !! path) as [cached|] eqn:Hc.
  - rewrite (map_fold_delete_L f 0 path cached st (Hcomm st) Hc).
    rewrite <- (insert_delete_eq st).
    rewrite (map_fold_insert_L f 0 path fc (delete path st) (Hcomm _)
               (lookup_delete_eq st path)).
    unfold f. lia.
  - rewrite (map_fold_insert_L f 0 path fc st (Hcomm _) Hc). unfold f. lia.
Qed.

Lemma files_insert st path (fc : FileCache) :
  files (getCacheStats (<[path := fc]> st))
  = files (getCacheStats st)
    + match st !! path with Some _ => 0 | None => 1 end.
Proof.
  unfold getCacheStats. cbn [files].
  destruct (st !! path) as [cached|] eqn:Hc.
  - rewrite map_size_insert_Some by eauto. lia.
  - rewrite map_size_insert_None by assumption. lia.
Qed.

(** X9. The counts of [getCacheStats] follow the calls: a parse adds one
    file when the file had no cache entry and none otherwise, and replaces
    the symbols counted for the file by those it returns; so a parse that
    is not a full parse leaves both counts as they are; and both counts are
    zero for a new parser and after [clearCache] without a path. *)
Theorem cache_stats_after_parse st path content (editInfo : option EditInfo) :
  let out := parseIncremental st path content editInfo in
  files (getCacheStats out.1)
  = files (getCacheStats st) + match st !! path with Some _ => 0 | None => 1 end
  /\ symbolCount (getCacheStats out.1)
     = symbolCount (getCacheStats st)
       - match st !! path with
         | Some cached => Z.of_nat (List.length (symbols cached))
         | None => 0
         end
       + Z.of_nat (List.length (resultSymbols out.2))
  /\ (parseStrategy out.2 <> full -> getCacheStats out.1 = getCacheStats st)
  /\ getCacheStats (clearCache st None) = mkCacheStats 0 0
  /\ getCacheStats ∅ = mkCacheStats 0 0.
Proof.
  intros out.
  assert (Hmain :
    files (getCacheStats out.1)
    = files (getCacheStats st) + match st !! path with Some _ => 0 | None => 1 end
    /\ symbolCount (getCacheStats out.1)
       = symbolCount (getCacheStats st)
         - match st !! path with
           | Some cached => Z.of_nat (List.length (symbols cached))
           | None => 0
           end
         + Z.of_nat (List.length (resultSymbols out.2))).
  { subst out.
    destruct (parseIncremental_cases st path content editInfo)
      as [->|[(cached & Hc & Hh & ->)|(cached & e & strategy & Hc & -> & Hs & ->)]].
    - unfold parseFully, cacheFile. cbn [fst snd resultSymbols].
      rewrite files_insert, symbolCount_insert. by split.
    - cbn [fst snd resultSymbols]. rewrite Hc. split; lia.
    - unfold cacheFile. cbn [fst snd resultSymbols].
      rewrite files_insert, symbolCount_insert. by split. }
  destruct Hmain as [Hf Hs]. split; [exact Hf|]. split; [exact Hs|].
  split; [|split].
  - intros Hstrat.
    destruct (not_full_keeps_count st path content editInfo Hstrat)
      as (cached & Hc & Hlen).
    fold out in Hlen. rewrite Hc in Hf, Hs. rewrite Hlen in Hs.
    destruct (getCacheStats out.1) as [f1 s1], (getCacheStats st) as [f0 s0].
    cbn in Hf, Hs. f_equal; lia.
  - reflexivity.
  - reflexivity.
Qed.


Lemma lineFeeds_nonneg (s : string) : 0 <= lineFeeds s.
Proof. induction s as [|c s IH]; simpl; [lia|]. destruct (Ascii.eqb c LF); lia. Qed.

Lemma splitLines_length (s : string) :
  Z.of_nat (List.length (splitLines s)) = 1 + lineFeeds s.
Proof.
  induction s as [|c s IH]; [reflexivity|].
  pose proof (lineFeeds_nonneg s) as Hnn.
  cbn [splitLines lineFeeds]. destruct (Ascii.eqb c LF).
  - rewrite length_cons. lia.
  - destruct (splitLines s) as [|l ls]; rewrite ?length_cons, ?length_nil in *; lia.
Qed.

Lemma isLineFeed_LF (c : ascii) : Regex.isLineFeed c = Ascii.eqb c LF.
Proof.
  unfold Regex.isLineFeed, Regex.code.
  destruct (Ascii.eqb_spec c LF) as [->|Hne]; [reflexivity|].
  apply Nat.eqb_neq. intros Hc. apply Hne.
  rewrite <- (ascii_nat_embedding c), Hc. reflexivity.
Qed.

(** Every match is reported on a line of the text that is searched. *)
Lemma execAll_range (body : Regex.Matcher) (s : string) :
  forall (atStart : bool) (lineNum : Z) (skipped : nat),
    Forall (fun z => lineNum <= z <= lineNum + lineFeeds s)
           (Regex.execAll body atStart lineNum skipped s).
Proof.
  induction s as [|c s IH]; intros atStart lineNum skipped; [constructor|].
  cbn [Regex.execAll lineFeeds]. rewrite isLineFeed_LF.
  pose proof (lineFeeds_nonneg s) as Hnn.
  assert (Hrest : forall b k,
    Forall (fun z => lineNum <= z <= lineNum + ((if Ascii.eqb c LF then 1 else 0) + lineFeeds s))
           (Regex.execAll body b (if Ascii.eqb c LF then lineNum + 1 else lineNum) k s)).
  { intros b k. eapply Forall_impl; [apply IH|].
    intros z Hz. cbn beta in Hz. destruct (Ascii.eqb c LF); lia. }
  destruct skipped as [|skipped']; [|apply Hrest].
  destruct (if atStart then Regex.run body (String c s) else None); [|apply Hrest].
  constructor; [|apply Hrest].
  destruct (Ascii.eqb c LF); lia.
Qed.

Lemma matchLines_range (body : Regex.Matcher) (content : string) (z : Z) :
  In z (Regex.matchLines body content) ->
  1 <= z <= Z.of_nat (List.length (splitLines content)).
Proof.
  intros Hz. unfold Regex.matchLines in Hz.
  pose proof (execAll_range body content true 1 O) as Hall.
  rewrite Forall_forall in Hall. apply list_elem_of_In, Hall in Hz.
  rewrite splitLines_length. lia.
Qed.

(** X10. [quickDeclarationCount] counts lines: its result is never more
    than the number of lines of the content, and never negative. *)
Theorem quickDeclarationCount_bounds (content : string) :
  0 <= quickDeclarationCount content
     <= Z.of_nat (List.length (splitLines content)).
Proof.
  unfold quickDeclarationCount. split; [lia|].
  set (found := Regex.matchLines exportPattern content
                ++ Regex.matchLines declarationPattern content
                ++ Regex.matchLines variablePattern content).
  set (n := List.length (splitLines content)).
  assert (Hincl : incl (nodup Z.eq_dec found) (List.map Z.of_nat (seq 1 n))).
  { intros z Hz. apply nodup_In in Hz.
    assert (Hr : 1 <= z <= Z.of_nat n).
    { unfold found in Hz. rewrite !in_app_iff in Hz.
      destruct Hz as [Hz|[Hz|Hz]]; by eapply matchLines_range. }
    apply in_map_iff. exists (Z.to_nat z). split; [lia|].
    apply in_seq. lia. }
  apply (List.NoDup_incl_length (List.NoDup_nodup Z.eq_dec found)) in Hincl.
  rewrite length_map, length_seq in Hincl. lia.
Qed.

Lemma insert_lines_lookup (sym : CachedSymbol) (lns : list Z)
    (idx : gmap Z CachedSymbol) (ln : Z) :
  fold_left (fun idx' l => <[l := sym]> idx') lns idx !! ln
  = if bool_decide (ln ∈ lns) then Some sym else idx !! ln.
Proof.
  revert idx. induction lns as [|l lns IH]; intros idx; [reflexivity|].
  cbn [fold_left]. rewrite IH.
  destruct (decide (ln ∈ lns)) as [Hin|Hnin].
  - rewrite !bool_decide_eq_true_2; [reflexivity | by right | assumption].
  - rewrite (bool_decide_eq_false_2 (ln ∈ lns)) by assumption.
    destruct (decide (ln = l)) as [->|Hne].
    + rewrite bool_decide_eq_true_2 by left. apply lookup_insert_eq.
    + rewrite bool_decide_eq_false_2.
      * apply lookup_insert_ne. congruence.
      * rewrite elem_of_cons. intuition.
Qed.

Lemma find_append {A} (f : A -> bool) (l1 l2 : list A) :
  List.find f (l1 ++ l2)
  = match List.find f l1 with Some x => Some x | None => List.find f l2 end.
Proof. induction l1 as [|x l1 IH]; simpl; [reflexivity|]. by destruct (f x). Qed.

Lemma covers_lines (s : CachedSymbol) (ln : Z) :
  ln ∈ seqZ (startLine s) (endLine s - startLine s + 1) <-> covers s ln.
Proof. rewrite elem_of_seqZ. unfold covers. lia. Qed.

Lemma lineIndex_from (syms : list CachedSymbol) (idx : gmap Z CachedSymbol) (ln : Z) :
  fold_left
    (fun idx0 sym =>
       fold_left (fun idx' l => <[l := sym]> idx')
                 (seqZ (startLine sym) (endLine sym - startLine sym + 1)) idx0)
    syms idx !! ln
  = match List.find (fun s => bool_decide (covers s ln)) (rev syms) with
    | Some s => Some s
    | None => idx !! ln
    end.
Proof.
  revert idx. induction syms as [|s syms IH]; intros idx; [reflexivity|].
  cbn [fold_left rev]. rewrite IH, find_append.
  destruct (List.find _ (rev syms)); [reflexivity|].
  cbn [List.find]. rewrite insert_lines_lookup.
  rewrite (bool_decide_ext _ _ (covers_lines s ln)).
  by case_bool_decide.
Qed.

(** X11. What [cacheFile] stores for a file: the hash and the number of
    lines of the content (one more than its line feeds), the symbols given,
    and a line index that sends a line to the last symbol of the list
    whose range covers it, and has no entry for a line that no symbol
    covers. The entries of the other files are kept. *)
Theorem cacheFile_stores st path content (syms : list CachedSymbol) :
  (exists fc,
     cacheFile st path content syms !! path = Some fc
     /\ fileHash fc = quickHash content
     /\ lineCount fc = 1 + lineFeeds content
     /\ symbols fc = syms
     /\ forall ln, lineIndex fc !! ln
                   = List.find (fun s => bool_decide (covers s ln)) (rev syms))
  /\ forall other, other <> path ->
       cacheFile st path content syms !! other = st !! other.
Proof.
  split.
  - eexists. unfold cacheFile. rewrite lookup_insert_eq. split; [reflexivity|].
    cbn [fileHash lineCount symbols lineIndex].
    split; [reflexivity|]. split; [apply splitLines_length|]. split; [reflexivity|].
    intros ln. unfold buildLineIndex. rewrite lineIndex_from, lookup_empty.
    by destruct (List.find _ _).
  - intros other Hne. unfold cacheFile. apply lookup_insert_ne. congruence.
Qed.

Lemma extractSymbol_shape (statement : Ts.Node) (lines : list string) s :
  extractSymbol statement lines = Some s ->
  name s <> EmptyString
  /\ kind s ∈ declarationKinds
  /\ startLine s = Ts.startLine statement + 1
  /\ endLine s = Ts.endLine statement + 1
  /\ declarationLine s = startLine s
  /\ contentHash s
     = quickHash (joinLines (slice (Ts.startLine statement) (Ts.endLine statement + 1) lines))
  /\ Ts.kind statement <> Ts.ExportDeclaration
  /\ Ts.kind statement <> Ts.ExportAssignment.
Proof.
  unfold extractSymbol, declarationKinds.
  assert (Hk : forall k, Ts.is_kind k statement = true -> Ts.kind statement = k).
  { intros k. unfold Ts.is_kind. by intros ?%bool_decide_eq_true. }
  assert (Hshape : forall (nm k : string),
    k ∈ ["class"; "interface"; "function"; "type"; "enum"; "variable"]%string ->
    Ts.kind statement <> Ts.ExportDeclaration ->
    Ts.kind statement <> Ts.ExportAssignment ->
    (if String.eqb nm ""
     then None
     else Some {| name := nm; kind := k; startLine := Ts.startLine statement + 1;
                  endLine := Ts.endLine statement + 1;
                  declarationLine := Ts.startLine statement + 1;
                  contentHash :=
                    quickHash (joinLines (slice (Ts.startLine statement + 1 - 1)
                                                (Ts.endLine statement + 1) lines)) |})
    = Some s ->
    name s <> EmptyString
    /\ kind s ∈ ["class"; "interface"; "function"; "type"; "enum"; "variable"]%string
    /\ startLine s = Ts.startLine statement + 1
    /\ endLine s = Ts.endLine statement + 1
    /\ declarationLine s = startLine s
    /\ contentHash s
       = quickHash (joinLines (slice (Ts.startLine statement) (Ts.endLine statement + 1) lines))
    /\ Ts.kind statement <> Ts.ExportDeclaration
    /\ Ts.kind statement <> Ts.ExportAssignment).
  { intros nm k Hin H1 H2. destruct (String.eqb_spec nm ""); [discriminate|].
    intros [= <-]. cbn. replace (Ts.startLine statement + 1 - 1) with (Ts.startLine statement) by lia.
    auto 10. }
  repeat match goal with
  | |- context [if (Ts.is_kind ?k statement && ?b) then _ else _] =>
      destruct (Ts.is_kind k statement) eqn:?; cbn [andb];
      [destruct b eqn:? |]
  | |- context [if Ts.is_kind ?k statement then _ else _] =>
      destruct (Ts.is_kind k statement) eqn:?
  end;
  repeat match goal with
  | H : Ts.is_kind _ statement = true |- _ => apply Hk in H
  end;
  unfold fmap, option_fmap, option_map;
  repeat match goal with
  | |- context [match ?x with Some _ => _ | None => _ end] =>
      lazymatch x with
      | context [String.eqb] => fail
      | _ => destruct x eqn:?
      end
  | |- context [if Ts.is_kind Ts.Identifier ?n then _ else _] =>
      destruct (Ts.is_kind Ts.Identifier n)
  end;
  try discriminate;
  (apply Hshape; [apply list_elem_of_In; simpl; tauto | congruence | congruence]).
Qed.

(** X12. Every symbol of a full parse comes from a statement of the
    source file that is not a pure export: it has a name that is not
    empty, one of the six kinds, the lines of the statement counted from 1,
    its start line as declaration line, and the hash of those lines of the
    content as content hash; there is at most one symbol per statement. *)
Theorem fullParse_symbols path content :
  let sf := Ts.createSourceFile path content None in
  (forall s, s ∈ fullParse path content ->
     exists statement,
       statement ∈ Ts.statements sf
       /\ extractSymbol statement (splitLines content) = Some s
       /\ name s <> EmptyString
       /\ kind s ∈ declarationKinds
       /\ startLine s = Ts.startLine statement + 1
       /\ endLine s = Ts.endLine statement + 1
       /\ declarationLine s = startLine s
       /\ contentHash s
          = quickHash (joinLines (slice (Ts.startLine statement)
                                        (Ts.endLine statement + 1)
                                        (splitLines content)))
       /\ Ts.kind statement <> Ts.ExportDeclaration
       /\ Ts.kind statement <> Ts.ExportAssignment)
  /\ (List.length (fullParse path content) <= List.length (Ts.statements sf))%nat.
Proof.
  intros sf. split.
  - intros s Hs. unfold fullParse in Hs.
    apply list_elem_of_omap in Hs as (statement & Hin & Hs).
    exists statement. split; [assumption|]. split; [assumption|].
    by apply extractSymbol_shape.
  - unfold fullParse. fold sf. generalize (Ts.statements sf). intros l.
    induction l as [|x l IH]; [reflexivity|].
    cbn [omap list_omap]. destruct (extractSymbol x _); simpl; lia.
Qed.

End Results.

Section Hashing.

Lemma le_bytes_length (n : nat) (x : Z) : List.length (MD5.le_bytes n x) = n.
Proof. revert x. induction n as [|n IH]; intros x; simpl; [reflexivity|]. by rewrite IH. Qed.

Lemma le_bytes_range (n : nat) (x : Z) :
  Forall (fun b => 0 <= b < 256) (MD5.le_bytes n x).
Proof.
  revert x. induction n as [|n IH]; intros x; simpl; constructor; [|apply IH].
  apply Z.mod_pos_bound. lia.
Qed.

Lemma digest_bytes (s : string) :
  List.length (MD5.digest s) = 16%nat
  /\ Forall (fun b => 0 <= b < 256) (MD5.digest s).
Proof.
  unfold MD5.digest. destruct (fold_left _ _ _) as [[[a b] c] d].
  split.
  - rewrite !length_app, !le_bytes_length. reflexivity.
  - rewrite !Forall_app. repeat split; apply le_bytes_range.
Qed.

Lemma hex_digit_hex (n : Z) : 0 <= n < 16 -> isHexDigit (MD5.hex_digit n) = true.
Proof.
  intros Hn. unfold isHexDigit, MD5.hex_digit.
  destruct (Z.ltb_spec n 10) as [Hlt|Hge]; cbv zeta;
    (rewrite nat_ascii_embedding by lia);
    apply orb_true_iff; [left|right]; apply andb_true_iff;
    split; apply Nat.leb_le; lia.
Qed.

Lemma hex_of_bytes_shape (bs : list Z) :
  Forall (fun b => 0 <= b < 256) bs ->
  String.length (MD5.hex_of_bytes bs) = (2 * List.length bs)%nat
  /\ allChars isHexDigit (MD5.hex_of_bytes bs) = true.
Proof.
  induction 1 as [|b bs Hb _ [IHl IHc]]; [by split|].
  cbn [MD5.hex_of_bytes String.length allChars List.length]. split; [lia|].
  rewrite IHc, !hex_digit_hex; [reflexivity| |].
  - apply Z.mod_pos_bound. lia.
  - split; [apply Z.div_pos; lia | apply Z.div_lt_upper_bound; lia].
Qed.

Lemma substring_prefix_shape (P : ascii -> bool) (n : nat) (s : string) :
  allChars P s = true -> (n <= String.length s)%nat ->
  String.length (substring 0 n s) = n /\ allChars P (substring 0 n s) = true.
Proof.
  revert s. induction n as [|n IH]; intros s Hall Hlen.
  - destruct s; by split.
  - destruct s as [|c s]; [simpl in Hlen; lia|].
    cbn [allChars] in Hall. apply andb_true_iff in Hall as [Hc Hall].
    cbn [substring String.length allChars]. simpl in Hlen.
    destruct (IH s Hall ltac:(lia)) as [-> ->]. by rewrite Hc.
Qed.

(** X13. [quickHash] always gives sixteen lowercase hexadecimal digits,
    whatever the content; in particular it is never the empty string. *)
Theorem quickHash_format (content : string) :
  String.length (quickHash content) = 16%nat
  /\ allChars isHexDigit (quickHash content) = true
  /\ quickHash content <> EmptyString.
Proof.
  destruct (digest_bytes content) as [Hlen Hrange].
  destruct (hex_of_bytes_shape _ Hrange) as [Hl Hc].
  destruct (substring_prefix_shape isHexDigit 16 (MD5.md5_hex content) Hc) as [H1 H2].
  { unfold MD5.md5_hex. rewrite Hl, Hlen. lia. }
  unfold quickHash. split; [exact H1|]. split; [exact H2|].
  intros Hempty. rewrite Hempty in H1. discriminate.
Qed.

End Hashing.

#[local] Existing Instance Scenario.compiler.

Example bodyState_symbols :
  symbols <$> (bodyState !! "c.ts")
  = Some [ mkCachedSymbol "g" "function" 1 3 1 (quickHash
             ("export function g() {" ++ Scenario.nl ++ "  return 1;" ++ Scenario.nl ++ "}"));
           mkCachedSymbol "Y" "variable" 4 4 4 (quickHash "export const Y = 2;") ].
Proof. vm_compute. reflexivity. Qed.

(** The theorem at work: parsing "c.ts" again with the same content. *)
Lemma unchanged_content_is_skipped_witness :
  parseStrategy (parseIncremental bodyState "c.ts" Scenario.bodyFile (Some bodyEdit)).2 = skip
  /\ (parseIncremental bodyState "c.ts" Scenario.bodyFile (Some bodyEdit)).1 = bodyState.
Proof.
  erewrite (unchanged_content_is_skipped bodyState "c.ts" Scenario.bodyFile (Some bodyEdit)).
  - split; reflexivity.
  - vm_compute. reflexivity.
  - vm_compute. reflexivity.
Defined.

(** The theorem at work: the edit in the body of [g] is skipped and [Y]
    moves from line 4 to line 5. *)
Lemma body_edit_is_skipped_witness :
  let r := (parseIncremental bodyState "c.ts" Scenario.bodyFileEdited (Some bodyEdit)).2 in
  parseStrategy r = skip
  /\ List.map name (resultSymbols r) = ["g"; "Y"]%string
  /\ (startLine <$> resultSymbols r !! 1%nat) = Some 5.
Proof.
  intros r.
  edestruct (body_edit_is_skipped bodyState "c.ts" Scenario.bodyFileEdited bodyEdit)
    as (Hs & Hn & _ & Hshift).
  - vm_compute. reflexivity.
  - vm_compute. discriminate.
  - apply (list_elem_of_lookup_2 _ 0%nat). vm_compute. reflexivity.
  - vm_compute. split; [reflexivity | discriminate].
  - apply (proj1 (Forall_forall _ _)). compute_done.
  - split; [exact Hs|]. split; [exact Hn|].
    subst r. erewrite (Hshift 1%nat).
    2: { vm_compute. reflexivity. }
    2: { vm_compute. reflexivity. }
    reflexivity.
Defined.

(** The theorem at work: [g] keeps its start and grows by one line. *)
Lemma body_edit_frame_witness :
  let out := parseIncremental bodyState "c.ts" Scenario.bodyFileEdited (Some bodyEdit) in
  parseStrategy out.2 = skip
  /\ (endLine <$> resultSymbols out.2 !! 0%nat) = Some 4
  /\ (startLine <$> resultSymbols out.2 !! 0%nat) = Some 1.
Proof.
  intros out.
  edestruct (body_edit_frame bodyState "c.ts" Scenario.bodyFileEdited bodyEdit)
    as (Hs & _ & Hc & _).
  - apply reachable_parse. apply reachable_empty.
  - vm_compute. reflexivity.
  - vm_compute. discriminate.
  - vm_compute. discriminate.
  - apply (list_elem_of_lookup_2 _ 0%nat). vm_compute. reflexivity.
  - vm_compute. split; [reflexivity | discriminate].
  - apply (proj1 (Forall_forall _ _)). compute_done.
  - split; [exact Hs|].
    subst out. erewrite (Hc 0%nat).
    2: { vm_compute. reflexivity. }
    split; reflexivity.
Defined.

(** The decision at work: an edit on line 4, the declaration line of [Y],
    forces a full parse. *)
Lemma full_parse_decision_witness :
  parseStrategy (parseIncremental bodyState "c.ts" Scenario.bodyFileEdited
                   (Some (createEditInfo 4 5 4 4))).2 = full.
Proof.
  edestruct (full_parse_decision bodyState "c.ts" Scenario.bodyFileEdited
               (createEditInfo 4 5 4 4)) as [Hiff _].
  - vm_compute. reflexivity.
  - vm_compute. discriminate.
  - apply Hiff. left. eexists. split.
    + apply (list_elem_of_lookup_2 _ 1%nat). vm_compute. reflexivity.
    + vm_compute. split; discriminate.
Defined.

(** C3 (what the code does). An inserted top-level exported declaration
    is missed in two ways.
    The cache holds "b.ts" with the single function [a] over lines 1 to 3,
    declared [export async function], which the signature patterns do not
    count. Appending the exported function [b] as a new line 4, an edit of
    line 4, gives a text in which the patterns count one declaration, as
    many as there are cached symbols: the strategy is [partial].
    The cache holds "d.ts" with the single function [g] over lines 1 to 3.
    The exported function [b] is appended after the closing brace, an edit
    that starts on line 3, the last line of [g]: it is taken for an edit in
    the body of [g], and the strategy is [skip].
    In both cases the symbol list returned lacks [b], which a full parse
    of the new text finds. *)
Theorem inserted_declaration_is_missed :
  let st := (parseIncremental ∅ "b.ts" Scenario.asyncOnly None).1 in
  let out := parseIncremental st "b.ts" Scenario.asyncAndNew
               (Some (createEditInfo 3 4 4 4)) in
  let st' := (parseIncremental ∅ "d.ts" Scenario.functionOnly None).1 in
  let out' := parseIncremental st' "d.ts" Scenario.functionAndNew
                (Some (createEditInfo 3 4 3 3)) in
  (List.map name (fullParse "b.ts" Scenario.asyncOnly) = ["a"]%string
   /\ List.map name (fullParse "b.ts" Scenario.asyncAndNew) = ["a"; "b"]%string
   /\ quickDeclarationCount Scenario.asyncAndNew = 1
   /\ parseStrategy out.2 = partial
   /\ parseStrategy out.2 <> full
   /\ List.map name (resultSymbols out.2) = ["a"]%string)
  /\ (List.map name (fullParse "d.ts" Scenario.functionOnly) = ["g"]%string
      /\ List.map name (fullParse "d.ts" Scenario.functionAndNew) = ["g"; "b"]%string
      /\ parseStrategy out'.2 = skip
      /\ parseStrategy out'.2 <> full
      /\ List.map name (resultSymbols out'.2) = ["g"]%string).
Proof. vm_compute. repeat split; try reflexivity; discriminate. Qed.

(** The theorem at work: "c.ts" is parsed in full again after its cache
    entry is cleared. *)
Lemma parse_after_clearCache_witness :
  parseStrategy (parseIncremental (clearCache bodyState (Some "c.ts"%string)) "c.ts"
                   Scenario.bodyFile None).2 = full
  /\ clearCache bodyState (Some "c.ts"%string) !! "d.ts"%string = bodyState !! "d.ts"%string.
Proof.
  destruct (parse_after_clearCache bodyState "c.ts" Scenario.bodyFile None)
    as (Hfull & Hother & _).
  split.
  - rewrite Hfull. reflexivity.
  - apply Hother; discriminate.
Defined.

(** The theorem at work: the edit in the body of [g] is skipped, and the
    counts stay at one file and two symbols. *)
Lemma cache_stats_after_parse_witness :
  getCacheStats (parseIncremental bodyState "c.ts" Scenario.bodyFileEdited
                   (Some bodyEdit)).1
  = getCacheStats bodyState.
Proof.
  destruct (cache_stats_after_parse bodyState "c.ts" Scenario.bodyFileEdited
              (Some bodyEdit)) as (_ & _ & Hsame & _).
  apply Hsame. vm_compute. discriminate.
Defined.

(** The theorem at work: the first symbol of the scenario's file. *)
Lemma fullParse_symbols_witness :
  exists s statement,
    head (fullParse "a.ts" Scenario.content1) = Some s
    /\ statement ∈ Ts.statements (Ts.createSourceFile "a.ts" Scenario.content1 None)
    /\ name s <> EmptyString
    /\ startLine s = Ts.startLine statement + 1.
Proof.
  destruct (fullParse "a.ts" Scenario.content1) as [|s rest] eqn:Hparse;
    [vm_compute in Hparse; discriminate|].
  destruct (fullParse_symbols "a.ts" Scenario.content1) as [Hall _].
  destruct (Hall s) as (statement & Hin & _ & Hname & _ & Hstart & _).
  - rewrite Hparse. by left.
  - exists s, statement. by repeat split.
Defined.

End IncrementalProofs.

(* ===================================================================== *)
(** * Metrics collector: what a traversal counts *)
(* ===================================================================== *)

Module MetricsProofs.
Import Ts Metrics MetricsSpec.

Section Traversal.

Lemma Node_induction (P : Node -> Prop) :
  (forall k r tx sl sc el tk jd kids,
     Forall P kids -> P (Nd k r tx sl sc el tk jd kids)) ->
  forall n, P n.
Proof.
  intros H. fix IH 1. intros [k r tx sl sc el tk jd kids]. apply H.
  induction kids as [|c kids IHkids]; constructor; [apply IH | exact IHkids].
Qed.

Lemma traversed_refl s : traversed 0 s s.
Proof. split; try reflexivity; try lia; auto. Qed.

Lemma traversed_trans d1 d2 s s1 s2 :
  traversed d1 s s1 -> traversed d2 s1 s2 -> traversed (d1 + d2) s s2.
Proof.
  intros [a1 a2 a3 a4 a5 a6 a7 a8 a9 a10 a11 a12] [b1 b2 b3 b4 b5 b6 b7 b8 b9 b10 b11 b12].
  split; try congruence; try lia.
  intros Hi. destruct (a12 Hi) as [Hr Ht]. destruct b12 as [Hr' Ht']; [congruence|].
  split; congruence.
Qed.

Lemma cyclomaticStep_spec (n : Node) (s : TraversalState) :
  cyclomaticStep n s = add_cyclomatic (if isDecision n then 1 else 0) s
  \/ (isDecision n = false /\ cyclomaticStep n s = s).
Proof.
  unfold cyclomaticStep, isDecision.
  destruct (kind n); auto.
  destruct (operatorKind n) as [op|]; auto.
  destruct (isLogicalOperator op); auto.
Qed.

Lemma cognitiveStep_spec (parent : option Node) (n : Node) (s : TraversalState) :
  exists d b,
    (d = 0 \/ d = 1 \/ d = 1 + t_cognitiveNestingLevel s)
    /\ (cognitiveStep parent n s = (add_cognitive d s, b)
        \/ (d = 0 /\ cognitiveStep parent n s = (s, b))).
Proof.
  unfold cognitiveStep.
  destruct (kind n);
    try (exists 0, false; split; [auto | right; split; reflexivity]);
    try (exists (1 + t_cognitiveNestingLevel s), true; split; [auto | left; reflexivity]).
  - destruct (match parent with Some p => _ | None => false end).
    + exists 1, true. split; [auto | left; reflexivity].
    + exists (1 + t_cognitiveNestingLevel s), true. split; [auto | left; reflexivity].
  - exists (1 + t_cognitiveNestingLevel s), false. split; [auto | left; reflexivity].
  - destruct (operatorKind n) as [op|];
      [|exists 0, false; split; [auto | right; split; reflexivity]].
    destruct (isLogicalOperator op);
      [|exists 0, false; split; [auto | right; split; reflexivity]].
    destruct (match parent with Some p => _ | None => false end).
    + exists 0, false. split; [auto | right; split; reflexivity].
    + exists 1, false. split; [auto | left; reflexivity].
Qed.


Lemma controlFlowStep_spec (n : Node) (s : TraversalState) :
  exists dr dt,
    0 <= dr <= 1 /\ 0 <= dt <= 1
    /\ (t_insideNestedFunction s = true -> dr = 0 /\ dt = 0)
    /\ controlFlowStep n s
       = mkTraversal (t_cyclomatic s) (t_cognitive s) (t_currentNesting s)
           (t_maxNesting s) (t_cognitiveNestingLevel s) (t_returnCount s + dr)
           (t_throwCount s + dt) (t_currentCallbackDepth s) (t_maxCallbackDepth s)
           (t_maxPromiseChainLength s) (t_insideNestedFunction s).
Proof.
  unfold controlFlowStep. destruct s as [a b c d e f g h i j inside]. cbn.
  destruct inside.
  - exists 0, 0. repeat split; try lia. by rewrite !Z.add_0_r.
  - destruct (is_kind ReturnStatement n), (is_kind ThrowStatement n); cbn.
    + exists 1, 1. repeat split; try lia; discriminate.
    + exists 1, 0. repeat split; try lia; try discriminate. by rewrite !Z.add_0_r.
    + exists 0, 1. repeat split; try lia; try discriminate. by rewrite !Z.add_0_r.
    + exists 0, 0. repeat split; try lia; try discriminate. by rewrite !Z.add_0_r.
Qed.

Lemma function_is_no_decision (n : Node) : isFunctionNode n = true -> isDecision n = false.
Proof.
  unfold isFunctionNode, is_kind, isDecision. intros H.
  apply orb_true_iff in H as [H|H]; [apply orb_true_iff in H as [H|H]|];
    apply bool_decide_eq_true in H; by rewrite H.
Qed.

(** The steps of a visit that takes the ordinary path, one after the
    other. *)
Ltac visit_steps Hkids :=
  cbv beta iota;
  match goal with
  | |- context [cyclomaticStep ?n ?x] =>
      let Hc := fresh "Hc" in
      destruct (cyclomaticStep_spec n x) as [Hc|[? Hc]]; rewrite Hc; clear Hc
  end;
  match goal with
  | |- context [cognitiveStep ?p ?n ?x] =>
      let Hcog := fresh "Hcog" in
      let b := fresh "b" in
      destruct (cognitiveStep_spec p n x) as (? & b & ? & [Hcog|[? Hcog]]);
      rewrite Hcog; clear Hcog; cbv beta iota;
      destruct (increasesNesting n), b
  end;
  match goal with
  | |- context [controlFlowStep ?n ?x] =>
      let Hcf := fresh "Hcf" in
      let Hin := fresh "Hin" in
      destruct (controlFlowStep_spec n x) as (? & ? & ? & ? & Hin & Hcf);
      rewrite Hcf; clear Hcf;
      match type of Hkids with
      | forall s0, traversed _ s0 (?go ?kids s0) =>
          match goal with
          | |- context [go kids ?s6] =>
              let h12 := fresh "h12" in
              destruct (Hkids s6) as [? ? ? ? ? ? ? ? ? ? ? h12];
              generalize dependent (go kids s6);
              let s7 := fresh "s7" in
              intros s7;
              match goal with
              | s : TraversalState |- _ =>
                  lazymatch s with
                  | s7 => fail
                  | _ => destruct s; destruct s7; cbn in *; intros; subst;
                         destruct (isDecision n); try discriminate;
                         split; cbn; intros; try lia; try congruence;
                         try (destruct Hin as [-> ->]; [assumption|];
                              destruct h12 as [-> ->]; [assumption|]; split; lia)
                  end
              end
          end
      end
  end.

(** The visit of a node: the state is left as described by [traversed], with
    one more for every decision node of the tree; and a function that is
    not traversed as the top level and is no callback adds no return and no
    throw. *)
Lemma visitNode_traversed (n : Node) :
  forall (parent grand : option Node) (isTopLevel : bool) (s : TraversalState),
    traversed (decisionCount n) s (visitNode parent grand n isTopLevel s)
    /\ (negb isTopLevel && isFunctionNode n
        && negb (isCallbackFunction parent grand n) = true ->
        t_returnCount (visitNode parent grand n isTopLevel s) = t_returnCount s
        /\ t_throwCount (visitNode parent grand n isTopLevel s) = t_throwCount s).
Proof.
  induction n as [k r tx sl sc el tk jd kids IH] using Node_induction.
  intros parent grand isTopLevel s.
  cbn [visitNode decisionCount].
  set (n := Nd k r tx sl sc el tk jd kids).
  set (go := fix go (l : list Node) (s0 : TraversalState) {struct l} : TraversalState :=
               match l with
               | [] => s0
               | c :: l' => go l' (visitNode (Some n) parent c false s0)
               end).
  set (sum := fix go (l : list Node) : Z :=
                match l with
                | [] => 0
                | c :: l' => decisionCount c + go l'
                end).
  assert (Hall : forall l, Forall (fun c => forall parent grand isTopLevel s,
                    traversed (decisionCount c) s (visitNode parent grand c isTopLevel s)) l ->
                  forall s0, traversed (sum l) s0 (go l s0)).
  { intros l Hl. induction Hl as [|c l Hc _ IHl]; intros s0; cbn.
    - apply traversed_refl.
    - eapply traversed_trans; [apply Hc | apply IHl]. }
  assert (Hkids : forall s0, traversed (sum kids) s0 (go kids s0)).
  { apply Hall. eapply Forall_impl; [exact IH|]. intros c Hc p g t s0. apply Hc. }
  clear Hall IH. generalize dependent (sum kids). intros total Hkids.
  clearbody go. clear sum.
  fold (isFunctionNode n).
  destruct (isCallbackFunction parent grand n) eqn:Hcb;
    destruct (negb isTopLevel && isFunctionNode n) eqn:Hnested;
    cbn [negb andb].
  all: try (pose proof (function_is_no_decision n) as Hnd;
            apply andb_true_iff in Hnested as [_ Hfn]; specialize (Hnd Hfn)).
  3: { (* an inner function that is no callback *)
    rewrite Hnd.
    match goal with |- context [go kids ?s6] => pose proof (Hkids s6) as [] end.
    destruct s as [a b c d e f g h i j inside].
    match goal with |- context [go kids ?s6] => remember (go kids s6) as s7 eqn:E; clear E end.
    destruct s7. cbn in *. split; [split|]; cbn; intros; try lia; try congruence; auto. }
  all: split; [|intros; discriminate].
  all: visit_steps Hkids.
Qed.


Lemma decisionCount_nonneg (n : Node) : 0 <= decisionCount n.
Proof.
  induction n as [k r tx sl sc el tk jd kids IH] using Node_induction.
  cbn [decisionCount].
  assert (0 <= (fix go (l : list Node) : Z :=
                  match l with
                  | [] => 0
                  | c :: l' => decisionCount c + go l'
                  end) kids) by (induction IH; lia).
  destruct (isDecision _); lia.
Qed.

Lemma maxChain_fold_nonneg (f : Node -> Z) (l : list Node) (m : Z) :
  0 <= m -> 0 <= fold_left (fun m c => Z.max m (f c)) l m.
Proof. revert m. induction l as [|c l IH]; intros m Hm; simpl; [lia|]. apply IH. lia. Qed.

(** The metrics of a node. *)
Lemma collectNodeMetrics_bounds (parent grand : option Node) (n : Node) :
  let m := collectNodeMetrics parent grand n in
  cyclomaticComplexity m = 1 + decisionCount n
  /\ 1 <= cyclomaticComplexity m
  /\ 0 <= cognitiveComplexity m
  /\ 0 <= maxNestingDepth m
  /\ 0 <= returnCount m
  /\ 0 <= throwCount m
  /\ 0 <= callbackDepth m
  /\ 0 <= promiseChainLength m.
Proof.
  intros m. subst m. unfold collectNodeMetrics.
  destruct (visitNode_traversed n parent grand false initialState)
    as [[h1 h2 h3 h4 h5 h6 h7 h8 h9 h10 h11 h12] _].
  pose proof (decisionCount_nonneg n) as Hd.
  cbn [cyclomaticComplexity cognitiveComplexity maxNestingDepth returnCount throwCount
       callbackDepth promiseChainLength].
  cbn in h5, h6, h7, h8, h9, h10, h11.
  specialize (h7 ltac:(lia)).
  repeat split; lia.
Qed.

(** X14. The cyclomatic complexity that [collectNodeMetrics] reports is
    one more than the number of decision nodes ([if], the loops, [case],
    [catch], the conditional expression and the logical operators) of the
    whole tree, inner functions and callbacks included; so it is at least
    1, and no other metric is negative. *)
Theorem collectNodeMetrics_counts (parent grand : option Node) (n : Node) :
  let m := collectNodeMetrics parent grand n in
  cyclomaticComplexity m = 1 + decisionCount n
  /\ 1 <= cyclomaticComplexity m
  /\ 0 <= cognitiveComplexity m
  /\ 0 <= maxNestingDepth m
  /\ 0 <= returnCount m
  /\ 0 <= throwCount m
  /\ 0 <= callbackDepth m
  /\ 0 <= promiseChainLength m.
Proof. exact (collectNodeMetrics_bounds parent grand n). Qed.


Lemma declaration_is_no_callback (parent grand : option Node) (n : Node) :
  is_kind FunctionDeclaration n = true -> isCallbackFunction parent grand n = false.
Proof.
  unfold isCallbackFunction, isFunctionLiteral, is_kind.
  intros H. apply bool_decide_eq_true in H. by rewrite H.
Qed.

(** X15. For a function declaration, and for a function expression or
    arrow function that is not a callback, [collectNodeMetrics] reports no
    return and no throw, whatever the body holds: the node itself is taken
    for an inner function. So the symbol of every function declaration has
    [returnCount] 0 and [throwCount] 0. *)
Theorem function_returns_not_counted :
  (forall (parent grand : option Node) (n : Node),
     isFunctionNode n = true ->
     isCallbackFunction parent grand n = false ->
     returnCount (collectNodeMetrics parent grand n) = 0
     /\ throwCount (collectNodeMetrics parent grand n) = 0)
  /\ (forall (node : Node) (path : string) (isTsx : bool) (commentDensity : Q)
             (sym : Parser.LightweightSymbol),
        is_kind FunctionDeclaration node = true ->
        Parser.nodeToSymbol node path isTsx commentDensity
        = Parser.Returns (Some sym) ->
        ("returnCount"%string, Parser.NumberValue 0) ∈ Parser.metrics sym
        /\ ("throwCount"%string, Parser.NumberValue 0) ∈ Parser.metrics sym).
Proof.
  assert (Hmain : forall (parent grand : option Node) (n : Node),
     isFunctionNode n = true ->
     isCallbackFunction parent grand n = false ->
     returnCount (collectNodeMetrics parent grand n) = 0
     /\ throwCount (collectNodeMetrics parent grand n) = 0).
  { intros parent grand n Hfn Hcb. unfold collectNodeMetrics.
    cbn [returnCount throwCount].
    destruct (visitNode_traversed n parent grand false initialState) as [_ H].
    apply H. by rewrite Hfn, Hcb. }
  split; [exact Hmain|].
  intros node path isTsx cd sym Hk Hsym.
  destruct (Hmain None None node) as [Hr Ht].
  { unfold isFunctionNode. by rewrite Hk. }
  { by apply declaration_is_no_callback. }
  pose proof Hk as Hkind. unfold is_kind in Hkind. apply bool_decide_eq_true in Hkind.
  unfold Parser.nodeToSymbol in Hsym. unfold is_kind in Hsym. rewrite Hkind in Hsym.
  cbn [bool_decide decide_rel orb andb] in Hsym.
  rewrite !bool_decide_eq_false_2 in Hsym by discriminate.
  rewrite (bool_decide_eq_true_2 (FunctionDeclaration = FunctionDeclaration)) in Hsym
    by reflexivity.
  cbn [orb andb] in Hsym.
  destruct (bool_decide (is_Some (name node))); [|discriminate].
  destruct (Parser.detectReactHookOrComponent _ _); [|discriminate].
  cbv zeta in Hsym. injection Hsym as <-. cbn [Parser.metrics].
  unfold collectNodeMetrics in Hr, Ht. cbn [returnCount throwCount] in Hr, Ht.
  rewrite Hr, Ht.
  split; apply list_elem_of_In; simpl; tauto.
Qed.

Lemma classMemberStep_counts (cls : Node) (seen : Z) (acc : NodeMetrics) (member : Node) :
  classCounts seen acc -> classCounts (seen + 1) (classMemberStep cls acc member).
Proof.
  intros [].
  pose proof (collectNodeMetrics_bounds (Some cls) None member) as Hm.
  cbv zeta in Hm. destruct Hm as (_ & H1 & H2 & H3 & H4 & H5 & H6 & H7).
  unfold classMemberStep, incr_if.
  generalize dependent (collectNodeMetrics (Some cls) None member). intros mm.
  destruct mm, acc. cbn in *. intros.
  destruct (is_kind MethodDeclaration member || is_kind Constructor member);
    [|destruct (is_kind PropertyDeclaration member);
      [|destruct (is_kind GetAccessor member || is_kind SetAccessor member)]];
    destruct (hasModifier StaticKeyword member), (hasModifier PrivateKeyword member),
             (hasModifier AsyncKeyword member);
    cbn; split; cbn; lia.
Qed.

Lemma collectClassMetrics_inv (cls : Node) :
  classCounts (Z.of_nat (List.length (members cls))) (collectClassMetrics cls).
Proof.
  unfold collectClassMetrics.
  assert (Hfold : forall l seen acc,
            classCounts seen acc ->
            classCounts (seen + Z.of_nat (List.length l))
                        (fold_left (classMemberStep cls) l acc)).
  { induction l as [|member l IH]; intros seen acc Hacc.
    - cbn. by rewrite Z.add_0_r.
    - cbn [fold_left List.length].
      replace (seen + Z.of_nat (S (List.length l)))
        with (seen + 1 + Z.of_nat (List.length l)) by lia.
      apply IH. by apply classMemberStep_counts. }
  apply (Hfold (members cls) 0). split; cbn; lia.
Qed.

(** X16. The counts that [collectClassMetrics] reports fit together:
    every method is private or public, the static and the asynchronous
    methods are among the methods, the static fields among the fields, the
    methods and fields together are at most the members of the class, and
    the cyclomatic complexity is at least one for the class and one for
    each method; no metric is negative. *)
Theorem collectClassMetrics_counts (cls : Node) :
  let m := collectClassMetrics cls in
  methodCount m = privateMethodCount m + publicMethodCount m
  /\ 0 <= privateMethodCount m
  /\ 0 <= publicMethodCount m
  /\ 0 <= staticMethodCount m <= methodCount m
  /\ 0 <= asyncMethodCount m <= methodCount m
  /\ 0 <= staticFieldCount m <= fieldCount m
  /\ methodCount m + fieldCount m <= Z.of_nat (List.length (members cls))
  /\ 1 + methodCount m <= cyclomaticComplexity m
  /\ 0 <= cognitiveComplexity m
  /\ 0 <= maxNestingDepth m
  /\ 0 <= returnCount m
  /\ 0 <= throwCount m
  /\ 0 <= callbackDepth m
  /\ 0 <= promiseChainLength m.
Proof.
  intros m. destruct (collectClassMetrics_inv cls).
  fold m in cc_methods0, cc_private0, cc_public0, cc_static0, cc_async0, cc_fields0,
            cc_members0, cc_cyclomatic0, cc_cognitive0, cc_nesting0, cc_return0,
            cc_throw0, cc_callback0, cc_chain0.
  repeat split; lia.
Qed.

Lemma height_positive (n : Node) : (1 <= height n)%nat.
Proof. destruct n. cbn. lia. Qed.

Lemma height_child (n c : Node) : In c (children n) -> (height c < height n)%nat.
Proof.
  destruct n as [k r tx sl sc el tk jd kids]. cbn [children height].
  induction kids as [|c' kids IH]; intros Hin; [destruct Hin|].
  destruct Hin as [->|Hin].
  - lia.
  - specialize (IH Hin). lia.
Qed.

Lemma head_childrenWith (r : Role) (n c : Node) :
  head (childrenWith r n) = Some c -> In c (children n).
Proof.
  unfold childrenWith. intros H.
  assert (Hin : In c (List.filter (fun c0 => bool_decide (role c0 = r)) (children n))).
  { destruct (List.filter _ _) as [|x l]; [discriminate|].
    injection H as ->. by left. }
  by apply filter_In in Hin as [Hin _].
Qed.

(** The loop of [measurePromiseChain] is over within the height of the
    node, and every step of the chain takes two levels of the tree. *)
Lemma measurePromiseChainFrom_height (fuel : nat) :
  forall (n : Node) (fuel' : nat),
    (height n <= fuel)%nat -> (height n <= fuel')%nat ->
    measurePromiseChainFrom fuel n = measurePromiseChainFrom fuel' n
    /\ 0 <= measurePromiseChainFrom fuel n
    /\ 2 * measurePromiseChainFrom fuel n <= Z.of_nat (height n).
Proof.
  induction fuel as [|fuel IH]; intros n fuel' Hf Hf'.
  - pose proof (height_positive n). lia.
  - destruct fuel' as [|fuel']; [pose proof (height_positive n); lia|].
    cbn [measurePromiseChainFrom].
    destruct (is_kind CallExpression n); [|lia].
    destruct (expression n) as [expr|] eqn:He; [|lia].
    apply head_childrenWith, height_child in He.
    destruct (is_kind PropertyAccessExpression expr); [|lia].
    destruct (name expr) as [m|]; [|lia].
    destruct (isPromiseMethod (text m)); [|lia].
    pose proof (height_positive expr).
    destruct (expression expr) as [next|] eqn:Hn; [|lia].
    apply head_childrenWith, height_child in Hn.
    destruct (IH next fuel' ltac:(lia) ltac:(lia)) as (-> & H0 & H2). lia.
Qed.

(** X17. [measurePromiseChain] ends: walking down from a call, the loop
    is over within the height of the node, so that more steps would give
    the same count; the count is not negative, and a chain of that many
    [then], [catch] and [finally] calls needs twice as many levels of the
    tree. *)
Theorem measurePromiseChain_ends (n : Node) (more : nat) :
  measurePromiseChainFrom (height n + more) n = measurePromiseChain n
  /\ 0 <= measurePromiseChain n
  /\ 2 * measurePromiseChain n <= Z.of_nat (height n).
Proof.
  unfold measurePromiseChain.
  destruct (measurePromiseChainFrom_height (height n + more) n (height n))
    as (H1 & _); [lia | lia |].
  destruct (measurePromiseChainFrom_height (height n) n (height n))
    as (_ & H2 & H3); [lia | lia |].
  auto.
Qed.

End Traversal.


(** The theorem at work: the scenario's function [f] returns a literal,
    and no return is counted for it. *)
Lemma function_returns_not_counted_witness :
  returnCount (collectNodeMetrics None None (Scenario.statementF "1")) = 0
  /\ throwCount (collectNodeMetrics None None (Scenario.statementF "1")) = 0.
Proof.
  destruct function_returns_not_counted as [Hmetrics _].
  apply Hmetrics; reflexivity.
Defined.

End MetricsProofs.

(* ===================================================================== *)
(** * Symbol extractor: the scenario, and the classification of hooks *)
(* ===================================================================== *)

Module ParserProofs.
Import Parser ParserSpec Examples.

Section Scenario.
Context {RT : Cache.Runtime (list LightweightSymbol)} {TC : Ts.Compiler}.

Lemma get_on_new_cache (fs : Cache.FileSystem) (mb : Z) (path : string) :
  (Cache.get fs (Cache.create ∅ mb) path).2 = None.
Proof.
  unfold Cache.get. destruct (Cache.getFileHash fs path) as [h|]; [|reflexivity].
  destruct (String.eqb h ""); [reflexivity|].
  unfold Cache.valid_entry. simpl. rewrite !lookup_empty. reflexivity.
Qed.

(** On a new parser, [parseFile] returns what [extractSymbols] finds in
    the tree of the file. *)
Lemma parseFile_on_new_parser (fs : Cache.FileSystem) (now mb : Z)
    (path content : string) :
  fs path = Some content ->
  (parseFile fs now (newParser mb) path).2
  = let isTsx := endsWith path ".tsx" in
    let isJsx := endsWith path ".jsx" in
    let sf := Ts.createSourceFile path content
                (Some (if isTsx || isJsx then Ts.TSX else Ts.TS)) in
    match extractSymbols sf path isTsx (commentDensityOf sf) with
    | Returns symbols => Some symbols
    | Throws => None
    end.
Proof.
  intros Hfs. unfold parseFile, newParser. cbn [cacheManager].
  pose proof (get_on_new_cache fs mb path) as Hget.
  destruct (Cache.get fs (Cache.create ∅ mb) path) as [cm [cached|]];
    [discriminate|].
  rewrite Hfs. cbv zeta. by destruct (extractSymbols _ _ _ _).
Qed.

(** C1 (amended). With the TypeScript trees of the two versions of
    "a.ts", [parseFile] on a new parser returns exactly two symbols, [X]
    and [f], and [f] has complexity 1. The function [f] stands on one
    line, so the edit of its literal is on line 2, the declaration line of
    [f]: after a first parse, [parseIncremental] with the new content and
    an edit range that covers line 2, or with no edit information, returns
    the strategy [full], and two symbols. *)
Theorem scenario_is_parsed_in_full (fs : Cache.FileSystem) (now mb : Z)
    (e : Incremental.EditInfo) :
  fs "a.ts"%string = Some Scenario.content1 ->
  Ts.createSourceFile "a.ts" Scenario.content1 (Some Ts.TS)
  = Scenario.sourceFileOf Scenario.content1 "1" ->
  Ts.createSourceFile "a.ts" Scenario.content1 None
  = Scenario.sourceFileOf Scenario.content1 "1" ->
  Ts.createSourceFile "a.ts" Scenario.content2 None
  = Scenario.sourceFileOf Scenario.content2 "2" ->
  Incremental.editStart e <= 2 <= Incremental.editEnd e ->
  let parsed := parseFile fs now (newParser mb) "a.ts" in
  let st := (Incremental.parseIncremental ∅ "a.ts" Scenario.content1 None).1 in
  let out := Incremental.parseIncremental st "a.ts" Scenario.content2 (Some e) in
  let out' := Incremental.parseIncremental st "a.ts" Scenario.content2 None in
  (List.length <$> parsed.2) = Some 2%nat
  /\ (name <$> symbolAt 0 parsed) = Some "X"%string
  /\ (name <$> symbolAt 1 parsed) = Some "f"%string
  /\ (complexity <$> symbolAt 1 parsed) = Some (Some 1)
  /\ Incremental.parseStrategy out.2 = Incremental.full
  /\ List.length (Incremental.resultSymbols out.2) = 2%nat
  /\ Incremental.parseStrategy out'.2 = Incremental.full
  /\ List.length (Incremental.resultSymbols out'.2) = 2%nat.
Proof.
  intros Hfs Hts1 Hinc1 Hinc2 Hrange parsed st out out'.
  assert (Hparsed : parsed.2
                    = match
                        extractSymbols (Scenario.sourceFileOf Scenario.content1 "1")
                          "a.ts" false
                          (commentDensityOf (Scenario.sourceFileOf Scenario.content1 "1"))
                      with
                      | Returns symbols => Some symbols
                      | Throws => None
                      end).
  { subst parsed. rewrite (parseFile_on_new_parser fs now mb "a.ts" _ Hfs).
    change (endsWith "a.ts" ".tsx") with false.
    change (endsWith "a.ts" ".jsx") with false.
    cbn [orb]. cbv zeta. rewrite Hts1. reflexivity. }
  assert (Hfull1 : Incremental.fullParse "a.ts" Scenario.content1
                   = [ Incremental.mkCachedSymbol "X" "variable" 1 1 1
                         (Incremental.quickHash "export const X = 1;");
                       Incremental.mkCachedSymbol "f" "function" 2 2 2
                         (Incremental.quickHash "export function f(){ return 1; }") ]).
  { unfold Incremental.fullParse. rewrite Hinc1. vm_compute. reflexivity. }
  assert (Hlen2 : List.length (Incremental.fullParse "a.ts" Scenario.content2) = 2%nat).
  { unfold Incremental.fullParse. rewrite Hinc2. vm_compute. reflexivity. }
  assert (Hst : exists cached,
             st !! "a.ts"%string = Some cached
             /\ Incremental.symbols cached = Incremental.fullParse "a.ts" Scenario.content1
             /\ Incremental.fileHash cached = Incremental.quickHash Scenario.content1).
  { subst st. unfold Incremental.parseIncremental. rewrite lookup_empty.
    unfold Incremental.parseFully, Incremental.cacheFile. cbn [fst].
    rewrite lookup_insert_eq. eauto. }
  destruct Hst as (cached & Hst & Hsyms & Hhash).
  assert (Hne : Incremental.quickHash Scenario.content2 <> Incremental.fileHash cached).
  { rewrite Hhash. vm_compute. discriminate. }
  assert (Hf : Incremental.mkCachedSymbol "f" "function" 2 2 2
                 (Incremental.quickHash "export function f(){ return 1; }")
               ∈ Incremental.symbols cached).
  { rewrite Hsyms, Hfull1. right. left. }
  split; [rewrite Hparsed; vm_compute; reflexivity|].
  unfold symbolAt. rewrite Hparsed.
  split; [vm_compute; reflexivity|].
  split; [vm_compute; reflexivity|].
  split; [vm_compute; reflexivity|].
  subst out out'.
  rewrite (IncrementalProofs.declaration_edit_is_full st "a.ts" Scenario.content2 e
             cached _ Hst Hne Hf Hrange).
  rewrite (IncrementalProofs.no_edit_info_is_full st "a.ts" Scenario.content2
             cached Hst Hne).
  cbn [snd Incremental.parseFully Incremental.parseStrategy Incremental.resultSymbols].
  repeat split; assumption.
Qed.

(** What [nodeToSymbol] makes of a named function declaration: its kind
    is the answer of [detectReactHookOrComponent]. *)
Lemma function_declaration_kind (node nm : Ts.Node) (path : string)
    (isTsx : bool) (density : Q) (k : SymbolKind) :
  Ts.kind node = Ts.FunctionDeclaration ->
  Ts.name node = Some nm ->
  detectReactHookOrComponent (Ts.text nm) isTsx = Returns k ->
  exists sym,
    nodeToSymbol node path isTsx density = Returns (Some sym) /\ kind sym = k.
Proof.
  intros Hk Hn Hd. unfold nodeToSymbol, Ts.is_kind, nameText. rewrite Hk, Hn.
  cbn. rewrite Hd. eexists. split; reflexivity.
Qed.

End Scenario.

Lemma toUpperCase_fixed (c : ascii) :
  Ascii.eqb c (toUpperCase c) = negb (isLowerLetter c).
Proof.
  unfold toUpperCase, isLowerLetter.
  destruct c as [[] [] [] [] [] [] [] []]; vm_compute; reflexivity.
Qed.

(** C9 (what the code does). A function declaration whose name is "use"
    followed by any character that is not a lowercase letter (an uppercase
    letter, but also a digit, an underscore or a dollar sign) becomes a
    symbol of kind hook. *)
Theorem hook_needs_no_uppercase_letter (node nm : Ts.Node) (path : string)
    (isTsx : bool) (density : Q) (c : ascii) (rest : string) :
  Ts.kind node = Ts.FunctionDeclaration ->
  Ts.name node = Some nm ->
  Ts.text nm = ("use" ++ String c rest)%string ->
  isLowerLetter c = false ->
  exists sym,
    nodeToSymbol node path isTsx density = Returns (Some sym)
    /\ kind sym = KindHook.
Proof.
  intros Hk Hn Ht Hc.
  apply (function_declaration_kind node nm path isTsx density KindHook Hk Hn).
  rewrite Ht. unfold detectReactHookOrComponent.
  change (String.prefix "use" ("use" ++ String c rest)) with true.
  change (String.get 3 ("use" ++ String c rest)) with (Some c).
  change (3 <? String.length ("use" ++ String c rest))%nat with true.
  cbv beta iota delta [andb].
  rewrite toUpperCase_fixed, Hc. reflexivity.
Qed.

(** The theorem at work: [use_state] is classified as a hook. *)
Lemma hook_needs_no_uppercase_letter_witness :
  exists sym,
    nodeToSymbol statementUseState "hooks.ts" false 0%Q = Returns (Some sym)
    /\ kind sym = KindHook.
Proof.
  apply (hook_needs_no_uppercase_letter statementUseState
           (Scenario.leaf Ts.Identifier Ts.RoleName "use_state" 0 16)
           "hooks.ts" false 0%Q "_"%char "state");
    reflexivity.
Defined.

Example hook_classification :
  detectReactHookOrComponent "useState" false = Returns KindHook
  /\ detectReactHookOrComponent "use_state" false = Returns KindHook
  /\ detectReactHookOrComponent "use1" true = Returns KindHook
  /\ detectReactHookOrComponent "user" false = Returns KindFunction
  /\ detectReactHookOrComponent "use" false = Returns KindFunction
  /\ detectReactHookOrComponent "Button" true = Returns KindComponent
  /\ detectReactHookOrComponent "Button" false = Returns KindFunction
  /\ detectReactHookOrComponent "" false = Returns KindFunction
  /\ detectReactHookOrComponent "" true = Throws.
Proof. vm_compute. repeat split; reflexivity. Qed.

Section Files.
Import Ts Parser.
Context {RT : Cache.Runtime (list LightweightSymbol)} {TC : Compiler}.

(** The two ways a call of [parseFile] can go for a file that can be
    read: with the symbols, from the cache or from the tree, or rejected
    because [extractSymbols] throws, with a miss counted and nothing
    stored. *)
Lemma parseFile_readable (fs : Cache.FileSystem) (now : Z) (st : State)
    (path content : string) :
  fs path = Some content ->
  let isTsx := endsWith path ".tsx" in
  let sf := createSourceFile path content
              (Some (if isTsx || endsWith path ".jsx" then TSX else TS)) in
  let r := parseFile fs now st path in
  match r.2 with
  | Some syms =>
      ((Cache.get fs (cacheManager st) path).2 = Some syms
       /\ r.1 = mkState (Cache.get fs (cacheManager st) path).1 (count_hit (stats st)))
      \/ ((Cache.get fs (cacheManager st) path).2 = None
          /\ extractSymbols sf path isTsx (commentDensityOf sf) = Returns syms
          /\ r.1 = mkState (Cache.set now (Cache.get fs (cacheManager st) path).1
                              path syms content)
                           (count_miss (stats st)))
  | None =>
      (Cache.get fs (cacheManager st) path).2 = None
      /\ extractSymbols sf path isTsx (commentDensityOf sf) = Throws
      /\ r.1 = mkState (Cache.get fs (cacheManager st) path).1 (count_miss (stats st))
  end.
Proof.
  intros Hfs isTsx sf r. subst r. unfold parseFile.
  destruct (Cache.get fs (cacheManager st) path) as [cm [cached|]].
  - left. by split.
  - rewrite Hfs. cbv zeta. fold isTsx. fold sf.
    destruct (extractSymbols sf path isTsx (commentDensityOf sf)) as [symbols|].
    + right. by repeat split.
    + by repeat split.
Qed.

(** X18. Take a file that can be read and whose content stays the same.
    When [parseFile] returns its symbols, the next call is served from the
    cache: it returns the same symbols, and the parser counts one more hit
    and no more miss. When [parseFile] is rejected, it is because
    [extractSymbols] throws; nothing is cached, so the next call is
    rejected again, the parser counts one more miss, and both tiers of
    the cache hold what they held before the first call. *)
Theorem parseFile_twice (fs : Cache.FileSystem) (now now' : Z) (st : State)
    (path content : string) :
  fs path = Some content ->
  Cache.computeHash content <> EmptyString ->
  let isTsx := endsWith path ".tsx" in
  let sf := createSourceFile path content
              (Some (if isTsx || endsWith path ".jsx" then TSX else TS)) in
  let first := parseFile fs now st path in
  let second := parseFile fs now' first.1 path in
  match first.2 with
  | Some syms =>
      second.2 = Some syms
      /\ Cache.hits (getCacheStats second.1) = Cache.hits (getCacheStats first.1) + 1
      /\ Cache.misses (getCacheStats second.1) = Cache.misses (getCacheStats first.1)
  | None =>
      extractSymbols sf path isTsx (commentDensityOf sf) = Throws
      /\ second.2 = None
      /\ Cache.hits (getCacheStats second.1) = Cache.hits (getCacheStats first.1)
      /\ Cache.misses (getCacheStats second.1)
         = Cache.misses (getCacheStats first.1) + 1
      /\ Cache.l1Cache (cacheManager second.1) = Cache.l1Cache (cacheManager st)
      /\ Cache.workspaceState (cacheManager second.1)
         = Cache.workspaceState (cacheManager st)
  end.
Proof.
  intros Hfs Hne isTsx sf first second.
  pose proof (parseFile_readable fs now st path content Hfs) as H1.
  pose proof (parseFile_readable fs now' first.1 path content Hfs) as H2.
  cbv zeta in H1, H2. fold isTsx in H1, H2. fold sf in H1, H2.
  fold first in H1. fold second in H2.
  destruct (Cache.get fs (cacheManager st) path) as [cm r] eqn:Hget.
  cbn [fst snd] in H1.
  destruct first.2 as [syms|].
  - assert (Hserved : (Cache.get fs (cacheManager first.1) path).2 = Some syms).
    { destruct H1 as [[-> ->]|(-> & _ & ->)]; cbn [cacheManager].
      - by rewrite (CacheProofs.hit_again fs _ _ _ _ Hget).
      - by destruct (CacheProofs.served_after_set fs now cm path syms content Hfs Hne)
          as [H _]. }
    rewrite Hserved in H2. destruct second.2 as [syms'|].
    + destruct H2 as [[[= ->] ->]|[[=] _]]. unfold getCacheStats. cbn. by repeat split.
    + by destruct H2 as [[=] _].
  - destruct H1 as (-> & Hthrows & Hfirst).
    destruct (CacheProofs.miss_again fs _ _ _ Hget) as (Hmiss & Hl1 & Hl2).
    rewrite Hfirst in H2 |- *. cbn [cacheManager stats] in H2.
    destruct second.2 as [syms'|].
    + destruct H2 as [[Hhit _]|(_ & Hreturns & _)]; congruence.
    + destruct H2 as (_ & _ & ->). unfold getCacheStats. cbn. by repeat split.
Qed.

(** X19. A file that cannot be read makes [parseFile] fail; the parser
    has counted a miss by then, while the cache manager has counted
    nothing and holds what it held. *)
Theorem parseFile_unreadable (fs : Cache.FileSystem) (now : Z) (st : State)
    (path : string) :
  fs path = None ->
  parseFile fs now st path
  = (mkState (cacheManager st) (count_miss (stats st)), None).
Proof.
  intros Hfs. unfold parseFile, Cache.get, Cache.getFileHash. rewrite Hfs. reflexivity.
Qed.

Lemma component_needs_tsx (nm : string) (isTsx : bool) :
  detectReactHookOrComponent nm isTsx = Returns KindComponent -> isTsx = true.
Proof.
  unfold detectReactHookOrComponent.
  destruct (_ && _ && _); [discriminate|].
  destruct isTsx; [reflexivity|]. discriminate.
Qed.

(** Where a symbol comes from: the node gives it its position, and its
    lines of code are the end line less the start line. *)
Lemma nodeToSymbol_position (node : Node) (path : string) (isTsx : bool)
    (commentDensity : Q) (sym : LightweightSymbol) :
  nodeToSymbol node path isTsx commentDensity = Returns (Some sym) ->
  filePath sym = path
  /\ line sym = startLine node + 1
  /\ endLine sym = Ts.endLine node + 1
  /\ column sym = startCharacter node + 1
  /\ linesOfCode sym = endLine sym - line sym
  /\ exported sym = hasExportModifier node
  /\ (kind sym = KindComponent -> isTsx = true).
Proof.
  unfold nodeToSymbol, variableSymbol, getEndLine.
  repeat match goal with
  | |- context [if ?b then _ else _] =>
      lazymatch b with
      | context [if _ then _ else _] => fail
      | context [match _ with _ => _ end] => fail
      | _ => destruct b eqn:?
      end
  | |- context [match ?x with Some _ => _ | None => _ end] =>
      lazymatch x with
      | context [if _ then _ else _] => fail
      | context [match _ with _ => _ end] => fail
      | _ => destruct x eqn:?
      end
  | |- context [match ?x with Returns _ => _ | Throws => _ end] =>
      lazymatch x with
      | context [if _ then _ else _] => fail
      | context [match _ with _ => _ end] => fail
      | _ => destruct x eqn:?
      end
  | |- context [let '(_, _) := ?x in _] => destruct x eqn:?
  end;
  try discriminate; intros [= <-]; cbn;
  repeat split; try lia; try discriminate;
  try (intros Hk; subst; by eapply component_needs_tsx).
Qed.

(** What [collect] returns is made of what the calls return. *)
Lemma collect_returns {A} (calls : list (Outcome (list A))) (l : list A) (x : A) :
  collect calls = Returns l -> In x l ->
  exists l', In (Returns l') calls /\ In x l'.
Proof.
  revert l. induction calls as [|call calls IH]; intros l Hc Hin.
  - injection Hc as <-. destruct Hin.
  - cbn [collect fold_right] in Hc. fold (collect calls) in Hc.
    destruct call as [l1|]; [|discriminate].
    destruct (collect calls) as [l2|]; [|discriminate].
    injection Hc as <-. apply in_app_iff in Hin as [Hin|Hin].
    + exists l1. split; [by left | exact Hin].
    + destruct (IH l2 eq_refl Hin) as (l' & Hl' & Hx). exists l'. split; [by right | exact Hx].
Qed.

Lemma visit_deep (path : string) (isTsx : bool) (cd : Q) (node : Node) (depth : Z) :
  1 < depth -> visit path isTsx cd node depth = Returns [].
Proof.
  intros Hd. destruct node. cbn [visit].
  destruct (Z.gtb_spec depth 1); [reflexivity | lia].
Qed.

Lemma visit_nested (path : string) (isTsx : bool) (cd : Q) (node : Node)
    (l : list LightweightSymbol) (sym : LightweightSymbol) :
  visit path isTsx cd node 1 = Returns l -> In sym l ->
  nodeToSymbol node path isTsx cd = Returns (Some sym).
Proof.
  destruct node as [k r tx sl sc el tk jd kids]. cbn [visit].
  change (1 >? 1) with false. cbv iota.
  destruct (nodeToSymbol _ _ _ _) as [symbol|]; [|discriminate].
  intros Hc Hin. destruct (collect_returns _ _ _ Hc Hin) as (l' & [Hl'|Hl'] & Hx).
  - injection Hl' as <-. destruct symbol as [sym'|]; [|destruct Hx].
    destruct Hx as [->|[]]. reflexivity.
  - destruct (_ || _); [|destruct Hl'].
    apply in_map_iff in Hl' as (child & Hv & _).
    rewrite visit_deep in Hv by lia. injection Hv as <-. destruct Hx.
Qed.

Lemma visit_top (path : string) (isTsx : bool) (cd : Q) (node : Node)
    (l : list LightweightSymbol) (sym : LightweightSymbol) :
  visit path isTsx cd node 0 = Returns l -> In sym l ->
  nodeToSymbol node path isTsx cd = Returns (Some sym)
  \/ (is_kind ModuleDeclaration node || is_kind ClassDeclaration node = true
      /\ exists child, In child (children node)
                       /\ nodeToSymbol child path isTsx cd = Returns (Some sym)).
Proof.
  destruct node as [k r tx sl sc el tk jd kids]. cbn [visit].
  change (0 >? 1) with false. cbv iota.
  destruct (nodeToSymbol _ _ _ _) as [symbol|]; [|discriminate].
  intros Hc Hin. destruct (collect_returns _ _ _ Hc Hin) as (l' & [Hl'|Hl'] & Hx).
  - left. injection Hl' as <-. destruct symbol as [sym'|]; [|destruct Hx].
    destruct Hx as [->|[]]. reflexivity.
  - right. destruct (_ || _); [|destruct Hl']. split; [reflexivity|].
    apply in_map_iff in Hl' as (child & Hv & Hchild). exists child.
    split; [exact Hchild|]. by apply (visit_nested _ _ _ _ l').
Qed.

(** X20. Every symbol that [extractSymbols] returns comes from a child of
    the source file, or from a child of such a node that is a namespace or
    a class, and from nothing deeper. It carries the path of the file; its
    line, end line and column are those of the node counted from 1; its
    lines of code are the end line less the line, so that a declaration on
    a single line has 0 lines of code; and it is a component only in a
    [.tsx] file. *)
Theorem extractSymbols_positions (sf : SourceFile) (path : string) (isTsx : bool)
    (commentDensity : Q) (syms : list LightweightSymbol) (sym : LightweightSymbol) :
  extractSymbols sf path isTsx commentDensity = Returns syms ->
  sym ∈ syms ->
  (exists node,
     (node ∈ sourceFileChildren sf
      \/ exists top, top ∈ sourceFileChildren sf
           /\ is_kind ModuleDeclaration top || is_kind ClassDeclaration top = true
           /\ node ∈ children top)
     /\ nodeToSymbol node path isTsx commentDensity = Returns (Some sym)
     /\ line sym = startLine node + 1
     /\ endLine sym = Ts.endLine node + 1
     /\ column sym = startCharacter node + 1)
  /\ filePath sym = path
  /\ linesOfCode sym = endLine sym - line sym
  /\ (kind sym = KindComponent -> isTsx = true).
Proof.
  intros Hex Hin. unfold extractSymbols in Hex. apply list_elem_of_In in Hin.
  destruct (collect_returns _ _ _ Hex Hin) as (l & Hl & Hx).
  apply in_map_iff in Hl as (top & Hv & Htop).
  apply list_elem_of_In in Htop.
  destruct (visit_top _ _ _ _ _ _ Hv Hx) as [Hs|(Hk & child & Hc & Hs)];
    pose proof (nodeToSymbol_position _ _ _ _ _ Hs) as (Hp & Hl & He & Hcol & Hloc & _ & Hcomp).
  - split; [|by repeat split]. exists top. by repeat split; auto.
  - split; [|by repeat split]. exists child. repeat split; auto.
    right. exists top. repeat split; auto. by apply list_elem_of_In.
Qed.

Lemma parseFile_counts_once (fs : Cache.FileSystem) (now : Z) (st : State) (path : string) :
  Cache.hits (stats (parseFile fs now st path).1)
  + Cache.misses (stats (parseFile fs now st path).1)
  = Cache.hits (stats st) + Cache.misses (stats st) + 1.
Proof.
  unfold parseFile.
  destruct (Cache.get fs (cacheManager st) path) as [cm [cached|]].
  - cbn. lia.
  - destruct (fs path); [|cbn; lia].
    cbv zeta. destruct (extractSymbols _ _ _ _); cbn; lia.
Qed.

Lemma parseFile_unreadable_result (fs : Cache.FileSystem) (now : Z) (st : State)
    (path : string) :
  fs path = None -> (parseFile fs now st path).2 = None.
Proof.
  intros H. unfold parseFile, Cache.get, Cache.getFileHash. by rewrite H.
Qed.

(** The loop of [parseFiles] over the first [k] files, none of them
    cancelled. *)
Lemma parseFilesFrom_spec (fs : Cache.FileSystem) (clock : nat -> Z)
    (cancelled : nat -> bool) (total : nat) (files : list string) :
  forall (k completed : nat) (st : State) (allSymbols : list LightweightSymbol)
         (progress : list (nat * nat)),
    (k <= List.length files)%nat ->
    (forall i, (i < k)%nat -> cancelled (completed + i)%nat = false) ->
    (k = List.length files \/ cancelled (completed + k)%nat = true) ->
    let out := parseFilesFrom fs clock cancelled total completed st allSymbols
                              progress files in
    Cache.hits (stats out.1.1) + Cache.misses (stats out.1.1)
    = Cache.hits (stats st) + Cache.misses (stats st) + Z.of_nat k
    /\ out.2
       = progress
         ++ List.map (fun c => (c, total))
              (List.filter (fun c => (c mod 10 =? 0)%nat) (seq (S completed) k))
    /\ exists found,
         out.1.2 = allSymbols ++ found
         /\ ((forall f, In f (firstn k files) -> fs f = None) -> found = []).
Proof.
  induction files as [|f files IH]; intros k completed st allSymbols progress Hk Hrun Hstop.
  - cbn in Hk. assert (k = O) by lia. subst k. cbn.
    split; [lia|]. split; [by rewrite app_nil_r|]. exists []. by rewrite app_nil_r.
  - cbn [parseFilesFrom]. destruct k as [|k].
    + destruct Hstop as [Hstop|Hstop]; [discriminate|].
      rewrite Nat.add_0_r in Hstop. rewrite Hstop. cbn.
      split; [lia|]. split; [by rewrite app_nil_r|]. exists []. by rewrite app_nil_r.
    + pose proof (Hrun O ltac:(lia)) as H0. rewrite Nat.add_0_r in H0. rewrite H0.
      pose proof (parseFile_counts_once fs (clock completed) st f) as Hcount.
      pose proof (parseFile_unreadable_result fs (clock completed) st f) as Hunread.
      destruct (parseFile fs (clock completed) st f) as [st1 result].
      cbn [fst snd] in Hcount, Hunread.
      match goal with
      | |- context [parseFilesFrom fs clock cancelled total (S completed) st1 ?all ?prog files] =>
          destruct (IH k (S completed) st1 all prog) as (Hc & Hp & found & Hf & Hnone)
      end.
      { cbn in Hk. lia. }
      { intros i Hi. replace (S completed + i)%nat with (completed + S i)%nat by lia.
        apply Hrun. lia. }
      { destruct Hstop as [Hstop|Hstop].
        - left. cbn in Hstop. lia.
        - right. by replace (S completed + k)%nat with (completed + S k)%nat by lia. }
      cbv zeta. split; [lia|]. split.
      * rewrite Hp. cbn [seq List.filter].
        destruct (S completed mod 10 =? 0)%nat; cbn [List.map];
          by rewrite <- ?app_assoc.
      * destruct result as [symbols|].
        -- exists (symbols ++ found). split; [by rewrite Hf, <- app_assoc|].
           intros Hall. specialize (Hunread (Hall f ltac:(by left))). discriminate.
        -- exists found. split; [exact Hf|].
           intros Hall. apply Hnone. intros g Hg. apply Hall. by right.
Qed.

(** X21. [parseFiles] goes through the files until the token asks to
    stop: when the first [k] files are reached without cancellation, and
    the list ends there or the token is set, exactly [k] files are counted
    by the parser, each as a hit or a miss; [onProgress] has been called
    after every tenth file and at no other time, with the number of files
    done and the length of the list; and a file that cannot be read adds no
    symbol and does not stop the loop. *)
Theorem parseFiles_progress (fs : Cache.FileSystem) (clock : nat -> Z)
    (cancelled : nat -> bool) (st : State) (files : list string) (k : nat) :
  (k <= List.length files)%nat ->
  (forall i, (i < k)%nat -> cancelled i = false) ->
  (k = List.length files \/ cancelled k = true) ->
  let out := parseFiles fs clock cancelled st files in
  Cache.hits (getCacheStats out.1.1) + Cache.misses (getCacheStats out.1.1)
  = Cache.hits (getCacheStats st) + Cache.misses (getCacheStats st) + Z.of_nat k
  /\ out.2
     = List.map (fun c => (c, List.length files))
         (List.filter (fun c => (c mod 10 =? 0)%nat) (seq 1 k))
  /\ ((forall f, In f (firstn k files) -> fs f = None) -> out.1.2 = []).
Proof.
  intros Hk Hrun Hstop out. subst out. unfold parseFiles.
  destruct (parseFilesFrom_spec fs clock cancelled (List.length files) files
              k O st [] [] Hk Hrun Hstop) as (Hc & Hp & found & Hf & Hnone).
  split; [exact Hc|]. split; [exact Hp|].
  intros Hall. rewrite Hf. cbn. by apply Hnone.
Qed.

End Files.

#[local] Existing Instance Scenario.compiler.
#[local] Existing Instance Scenario.runtime.

(** The theorem at work, with the trees of the scenario. *)
Lemma scenario_is_parsed_in_full_witness :
  let parsed := parseFile Scenario.files 0 (newParser 100) "a.ts" in
  let st := (Incremental.parseIncremental ∅ "a.ts" Scenario.content1 None).1 in
  let out := Incremental.parseIncremental st "a.ts" Scenario.content2
               (Some (Incremental.createEditInfo 2 2 2 2)) in
  (List.length <$> parsed.2) = Some 2%nat
  /\ (complexity <$> symbolAt 1 parsed) = Some (Some 1)
  /\ Incremental.parseStrategy out.2 = Incremental.full
  /\ List.length (Incremental.resultSymbols out.2) = 2%nat.
Proof.
  intros parsed st out.
  destruct (scenario_is_parsed_in_full Scenario.files 0 100
              (Incremental.createEditInfo 2 2 2 2))
    as (H1 & _ & _ & H2 & H3 & H4 & _).
  - reflexivity.
  - reflexivity.
  - reflexivity.
  - reflexivity.
  - vm_compute. split; discriminate.
  - repeat split; assumption.
Defined.

(** C1 (as stated) fails on the scenario: [f] has 0 lines of code, the
    difference of its end line and its start line, and the edit of its
    literal is parsed in full, not skipped. *)
Lemma scenario_counterexample :
  let parsed := parseFile Scenario.files 0 (newParser 100) "a.ts" in
  let st := (Incremental.parseIncremental ∅ "a.ts" Scenario.content1 None).1 in
  let out := Incremental.parseIncremental st "a.ts" Scenario.content2
               (Some (Incremental.createEditInfo 2 2 2 2)) in
  (List.map name <$> parsed.2) = Some ["X"; "f"]%string
  /\ (linesOfCode <$> symbolAt 1 parsed) = Some 0
  /\ (linesOfCode <$> symbolAt 1 parsed) <> Some 1
  /\ (complexity <$> symbolAt 1 parsed) = Some (Some 1)
  /\ Incremental.parseStrategy out.2 = Incremental.full
  /\ Incremental.parseStrategy out.2 <> Incremental.skip
  /\ List.length (Incremental.resultSymbols out.2) = 2%nat.
Proof. vm_compute. repeat split; try reflexivity; discriminate. Qed.

(** The theorem at work: "a.ts" is parsed twice, and so is "bad.tsx",
    whose unnamed function makes the extraction throw. *)
Lemma parseFile_twice_witness :
  let first := parseFile Scenario.files 0 (newParser 100) "a.ts" in
  let second := parseFile Scenario.files 1 first.1 "a.ts" in
  let bad := parseFile Scenario.files 0 (newParser 100) "bad.tsx" in
  let again := parseFile Scenario.files 1 bad.1 "bad.tsx" in
  (is_Some first.2
   /\ second.2 = first.2
   /\ Cache.hits (getCacheStats second.1) = Cache.hits (getCacheStats first.1) + 1)
  /\ (bad.2 = None
      /\ again.2 = None
      /\ Cache.misses (getCacheStats again.1) = Cache.misses (getCacheStats bad.1) + 1).
Proof.
  intros first second bad again.
  assert (Hne1 : Cache.computeHash Scenario.content1 <> EmptyString)
    by (vm_compute; discriminate).
  assert (Hne2 : Cache.computeHash Scenario.unnamedFunction <> EmptyString)
    by (vm_compute; discriminate).
  pose proof (parseFile_twice Scenario.files 0 1 (newParser 100) "a.ts"
                Scenario.content1 eq_refl Hne1) as H1.
  pose proof (parseFile_twice Scenario.files 0 1 (newParser 100) "bad.tsx"
                Scenario.unnamedFunction eq_refl Hne2) as H2.
  cbv zeta in H1, H2. fold first in H1. fold second in H1.
  fold bad in H2. fold again in H2.
  eassert (Hfirst : first.2 = Some _) by (vm_compute; reflexivity).
  assert (Hbad : bad.2 = None) by (vm_compute; reflexivity).
  rewrite Hfirst in H1 |- *. rewrite Hbad in H2.
  destruct H1 as (Hsame & Hhits & _). destruct H2 as (_ & Hagain & _ & Hmiss & _).
  split; [split; [by eexists | split; [exact Hsame | exact Hhits]]|].
  split; [reflexivity | split; [exact Hagain | exact Hmiss]].
Defined.

(** The theorem at work: "b.ts" is not in the file system. *)
Lemma parseFile_unreadable_witness :
  (parseFile Scenario.files 0 (newParser 100) "b.ts").2 = None
  /\ Cache.misses (stats (parseFile Scenario.files 0 (newParser 100) "b.ts").1) = 1.
Proof.
  rewrite (parseFile_unreadable Scenario.files 0 (newParser 100) "b.ts").
  - split; reflexivity.
  - reflexivity.
Defined.

(** The theorem at work: the first symbol of the scenario's file, the
    constant on its one line, has 0 lines of code. *)
Lemma extractSymbols_positions_witness :
  exists sym rest,
    extractSymbols (Scenario.sourceFileOf Scenario.content1 "1") "a.ts" false 0
    = Returns (sym :: rest)
    /\ filePath sym = "a.ts"%string
    /\ linesOfCode sym = endLine sym - line sym.
Proof.
  destruct (extractSymbols (Scenario.sourceFileOf Scenario.content1 "1") "a.ts" false 0)
    as [[|sym rest]|] eqn:Hsyms;
    [vm_compute in Hsyms; discriminate | | vm_compute in Hsyms; discriminate].
  destruct (extractSymbols_positions (Scenario.sourceFileOf Scenario.content1 "1")
              "a.ts" false 0 (sym :: rest) sym Hsyms) as (_ & Hpath & Hloc & _).
  - by left.
  - exists sym, rest. by repeat split.
Defined.

(** The theorem at work: two files, the second of which cannot be read. *)
Lemma parseFiles_progress_witness :
  let out := parseFiles Scenario.files (fun _ => 0) (fun _ => false) (newParser 100)
               ["a.ts"; "b.ts"]%string in
  Cache.hits (getCacheStats out.1.1) + Cache.misses (getCacheStats out.1.1) = 2
  /\ out.2 = [].
Proof.
  intros out.
  destruct (parseFiles_progress Scenario.files (fun _ => 0) (fun _ => false)
              (newParser 100) ["a.ts"; "b.ts"]%string 2) as (Hcount & Hprogress & _).
  - reflexivity.
  - reflexivity.
  - by left.
  - split; [exact Hcount | exact Hprogress].
Defined.

End ParserProofs.

(* ===================================================================== *)
(** * Dependency analyzer: termination, cycles and instability *)
(* ===================================================================== *)

Module DepsProofs.
Import Deps DepsSpec Examples.

Section Search.
Context {NP : NodePath}.
Implicit Types (g : Graph) (st : DfsState) (vis : list string).

Lemma inb_true (x : string) (s : list string) : inb x s = true <-> x ∈ s.
Proof.
  unfold inb. rewrite existsb_exists. split.
  - intros (y & Hy & Heq). apply String.eqb_eq in Heq as ->. by apply list_elem_of_In.
  - intros Hx. exists x. split; [by apply list_elem_of_In | apply String.eqb_refl].
Qed.

Lemma inb_false (x : string) (s : list string) : inb x s = false <-> x ∉ s.
Proof.
  rewrite <- inb_true. destruct (inb x s); split; intros; congruence.
Qed.

Lemma elem_of_setAdd (x y : string) (s : list string) :
  y ∈ setAdd x s <-> y = x \/ y ∈ s.
Proof.
  unfold setAdd. destruct (inb x s) eqn:Hx.
  - apply inb_true in Hx. split; [auto | intros [->|]; auto].
  - rewrite elem_of_app, list_elem_of_singleton. tauto.
Qed.

Lemma filter_length_le {A} (f f' : A -> bool) (l : list A) :
  (forall x, f' x = true -> f x = true) ->
  (List.length (List.filter f' l) <= List.length (List.filter f l))%nat.
Proof.
  intros H. induction l as [|x l IH]; simpl; [lia|].
  destruct (f' x) eqn:H'.
  - rewrite (H x H'). simpl. lia.
  - destruct (f x); simpl; lia.
Qed.

Lemma filter_length_lt {A} (f f' : A -> bool) (l : list A) (a : A) :
  (forall x, f' x = true -> f x = true) ->
  In a l -> f a = true -> f' a = false ->
  (List.length (List.filter f' l) < List.length (List.filter f l))%nat.
Proof.
  intros H Ha Hf Hf'. induction l as [|x l IH]; simpl; [contradiction|].
  destruct Ha as [->|Ha].
  - rewrite Hf, Hf'. simpl.
    pose proof (filter_length_le f f' l H). lia.
  - specialize (IH Ha). destruct (f' x) eqn:H'.
    + rewrite (H x H'). simpl. lia.
    + destruct (f x); simpl; lia.
Qed.

Lemma unvisited_mono g vis vis' :
  (forall x, x ∈ vis -> x ∈ vis') ->
  (List.length (unvisited g vis') <= List.length (unvisited g vis))%nat.
Proof.
  intros Hsub. apply filter_length_le. intros x Hx.
  apply negb_true_iff in Hx. apply negb_true_iff.
  apply inb_false. apply inb_false in Hx. auto.
Qed.

Lemma unvisited_visit g vis (node : string) :
  node ∈ nodesOf g -> node ∉ vis ->
  (List.length (unvisited g (setAdd node vis)) < List.length (unvisited g vis))%nat.
Proof.
  intros Hn Hv. apply (filter_length_lt _ _ _ node).
  - intros x Hx. apply negb_true_iff in Hx. apply negb_true_iff.
    apply inb_false. apply inb_false in Hx. intros Hin. apply Hx.
    apply elem_of_setAdd. by right.
  - by apply list_elem_of_In.
  - apply negb_true_iff. by apply inb_false.
  - apply negb_false_iff. apply inb_true. apply elem_of_setAdd. by left.
Qed.

Lemma mapGet_nodes {V} (k : string) (m : list (string * V)) (v : V) :
  mapGet k m = Some v -> In (k, v) m.
Proof.
  induction m as [|[k' v'] m IH]; simpl; [discriminate|].
  destruct (String.eqb_spec k' k) as [->|Hne].
  - intros [= ->]. by left.
  - intros H. right. auto.
Qed.

Lemma dependency_is_node g (node dep : string) :
  dep ∈ default [] (mapGet node g) -> dep ∈ nodesOf g.
Proof.
  destruct (mapGet node g) as [deps|] eqn:Hg; simpl;
    [|by intros ?%elem_of_nil].
  intros Hd. apply mapGet_nodes in Hg. unfold nodesOf.
  apply elem_of_app. right. apply list_elem_of_In. apply in_concat.
  exists deps. split; [|by apply list_elem_of_In].
  apply in_map_iff. by exists (node, deps).
Qed.

Lemma visited_recordCycle (dep : string) st :
  visited (recordCycle dep st) = visited st.
Proof.
  unfold recordCycle. destruct (sliceFrom dep (path st)); [|reflexivity].
  by destruct (isCycleAlreadyFound _ _).
Qed.

Lemma dfs_unfold (fuel : nat) g (node : string) st :
  dfs (S fuel) g node st
  = match visitDependencies fuel g (default [] (mapGet node g))
            (Some (mkDfs (cycles st) (setAdd node (visited st))
                         (setAdd node (recursionStack st)) (path st ++ [node]))) with
    | None => None
    | Some s =>
        Some (mkDfs (cycles s) (visited s) (setDelete node (recursionStack s))
                    (removelast (path s)))
    end.
Proof. reflexivity. Qed.

(** With more fuel than unvisited nodes, [dfs] returns, and it only adds
    to the visited set. *)
Lemma dfs_returns (fuel : nat) g :
  forall (node : string) st,
    node ∈ nodesOf g ->
    node ∉ visited st ->
    (List.length (unvisited g (visited st)) < fuel)%nat ->
    exists st', dfs fuel g node st = Some st'
                /\ (forall x, x ∈ visited st -> x ∈ visited st').
Proof.
  induction fuel as [|fuel IH]; intros node st Hnode Hnew Hfuel; [lia|].
  rewrite dfs_unfold.
  set (st1 := mkDfs (cycles st) (setAdd node (visited st))
                    (setAdd node (recursionStack st)) (path st ++ [node])).
  assert (Hst1 : (List.length (unvisited g (visited st1)) < fuel)%nat).
  { pose proof (unvisited_visit g (visited st) node Hnode Hnew). simpl. lia. }
  assert (Hloop : forall deps s,
             (forall d, d ∈ deps -> d ∈ nodesOf g) ->
             (forall x, x ∈ visited st1 -> x ∈ visited s) ->
             exists s', visitDependencies fuel g deps (Some s) = Some s'
                        /\ (forall x, x ∈ visited st1 -> x ∈ visited s')).
  { induction deps as [|d deps IHd]; intros s Hdeps Hsub.
    - exists s. split; [reflexivity | assumption].
    - simpl. destruct (inb d (visited s)) eqn:Hd; simpl.
      + destruct (inb d (recursionStack s)).
        * apply IHd; [intros; apply Hdeps; by right|].
          rewrite visited_recordCycle. assumption.
        * apply IHd; [intros; apply Hdeps; by right | assumption].
      + destruct (IH d s) as (s' & Hs' & Hsub').
        * apply Hdeps. by left.
        * by apply inb_false.
        * pose proof (unvisited_mono g (visited st1) (visited s) Hsub). lia.
        * rewrite Hs'. apply IHd; [intros; apply Hdeps; by right|].
          intros x Hx. apply Hsub'. by apply Hsub. }
  destruct (Hloop (default [] (mapGet node g)) st1) as (s' & Hs' & Hsub).
  - intros d Hd. by eapply dependency_is_node.
  - auto.
  - unfold visitDependencies in Hs'. unfold visitDependencies. rewrite Hs'.
    eexists. split; [reflexivity|]. simpl.
    intros x Hx. apply Hsub. simpl. apply elem_of_setAdd. by right.
Qed.

(** The search for cycles always returns. *)
Lemma detectCircularDependencies_returns g :
  is_Some (detectCircularDependencies g).
Proof.
  unfold detectCircularDependencies.
  set (fuel := S (List.length (nodesOf g))).
  assert (Hfuel : (List.length (nodesOf g) < fuel)%nat) by (unfold fuel; lia).
  clearbody fuel.
  assert (Hloop : forall keys s,
             (forall k, k ∈ keys -> k ∈ nodesOf g) ->
             is_Some (fold_left
               (fun acc node =>
                  match acc with
                  | None => None
                  | Some s =>
                      if negb (inb node (visited s)) then dfs fuel g node s
                      else Some s
                  end) keys (Some s))).
  { induction keys as [|k keys IHk]; intros s Hkeys; [by eexists|].
    simpl. destruct (inb k (visited s)) eqn:Hk; simpl.
    - apply IHk. intros; apply Hkeys; by right.
    - destruct (dfs_returns fuel g k s) as (s' & -> & _).
      + apply Hkeys. by left.
      + by apply inb_false.
      + unfold unvisited.
        pose proof (List.filter_length_le (fun x => negb (inb x (visited s)))
                      (nodesOf g)). lia.
      + apply IHk. intros; apply Hkeys; by right. }
  destruct (Hloop (List.map fst g) (mkDfs [] [] [] [])) as [s Hs].
  - intros k Hk. unfold nodesOf. apply elem_of_app. by left.
  - rewrite Hs. by eexists.
Qed.

Lemma analyze_returns (parsedFiles : list ParsedFile) :
  is_Some (analyze parsedFiles).
Proof.
  unfold analyze.
  destruct (detectCircularDependencies_returns (buildDependencyGraph parsedFiles))
    as [found ->].
  by eexists.
Qed.

Lemma mapSet_fresh {V} (k : string) (v : V) (m : list (string * V)) :
  k ∉ List.map fst m -> mapSet k v m = m ++ [(k, v)].
Proof.
  induction m as [|[k' v'] m IH]; intros Hk; [reflexivity|].
  simpl in *. destruct (String.eqb_spec k' k) as [->|Hne].
  - exfalso. apply Hk. by left.
  - f_equal. apply IH. intros Hin. apply Hk. by right.
Qed.

Lemma fold_mapSet_nodup {A V} (key : A -> string) (val : A -> V) (l : list A)
    (acc : list (string * V)) :
  NoDup (List.map fst acc ++ List.map key l) ->
  fold_left (fun m f => mapSet (key f) (val f) m) l acc
  = acc ++ List.map (fun f => (key f, val f)) l.
Proof.
  revert acc. induction l as [|f l IH]; intros acc Hnd; simpl.
  - by rewrite app_nil_r.
  - rewrite mapSet_fresh.
    + rewrite IH.
      * by rewrite <- app_assoc.
      * rewrite List.map_app. simpl. rewrite <- app_assoc. exact Hnd.
    + apply NoDup_app in Hnd as (_ & Hdisj & _). intros Hin.
      apply (Hdisj _ Hin). simpl. by left.
Qed.

Lemma mapGet_map {A V} (key : A -> string) (val : A -> V) (l : list A) (f : A) :
  NoDup (List.map key l) -> f ∈ l ->
  mapGet (key f) (List.map (fun f => (key f, val f)) l) = Some (val f).
Proof.
  induction l as [|x l IH]; intros Hnd Hf; [by apply elem_of_nil in Hf|].
  simpl in *. apply NoDup_cons in Hnd as [Hx Hnd].
  apply elem_of_cons in Hf as [->|Hf].
  - by rewrite String.eqb_refl.
  - destruct (String.eqb_spec (key x) (key f)) as [Heq|Hne].
    + exfalso. apply Hx. rewrite Heq. apply list_elem_of_In, in_map. by apply list_elem_of_In.
    + by apply IH.
Qed.


Lemma inb_app_false (x : string) (l1 l2 : list string) :
  inb x l1 = false -> inb x l2 = false -> inb x (l1 ++ l2) = false.
Proof. unfold inb. rewrite existsb_app. by intros -> ->. Qed.

Lemma inb_app_r (x : string) (l1 l2 : list string) :
  inb x l2 = true -> inb x (l1 ++ l2) = true.
Proof. unfold inb. rewrite existsb_app. intros ->. apply orb_true_r. Qed.

Lemma inb_app_l (x : string) (l1 l2 : list string) :
  inb x l1 = true -> inb x (l1 ++ l2) = true.
Proof. unfold inb. rewrite existsb_app. by intros ->. Qed.

Lemma inb_single_ne (x y : string) : x <> y -> inb x [y] = false.
Proof. intros Hne. unfold inb. simpl. by rewrite (proj2 (String.eqb_neq x y) Hne). Qed.

Lemma inb_single_eq (x : string) : inb x [x] = true.
Proof. unfold inb. simpl. by rewrite String.eqb_refl. Qed.

Lemma setAdd_new (x : string) (s : list string) :
  inb x s = false -> setAdd x s = s ++ [x].
Proof. unfold setAdd. by intros ->. Qed.

Lemma setDelete_last (x : string) (s : list string) :
  inb x s = false -> setDelete x (s ++ [x]) = s.
Proof.
  intros Hx. unfold setDelete. rewrite List.filter_app. simpl.
  rewrite String.eqb_refl. simpl. rewrite app_nil_r.
  induction s as [|y s IH]; [reflexivity|].
  unfold inb in Hx. simpl in *. apply orb_false_iff in Hx as [Hy Hs].
  rewrite Hy. simpl. f_equal. by apply IH.
Qed.

Lemma removelast_last {A} (l : list A) (x : A) : removelast (l ++ [x]) = l.
Proof. apply removelast_last. Qed.

(** [dfs] on a node without dependencies. *)
Lemma dfs_isolated (fuel : nat) (g : Graph) (k : string)
    (found : list CircularDependency) (vis : list string) :
  mapGet k g = Some [] ->
  inb k vis = false ->
  dfs (S fuel) g k (mkDfs found vis [] [])
  = Some (mkDfs found (vis ++ [k]) [] []).
Proof.
  intros Hg Hk. rewrite dfs_unfold, Hg. unfold visitDependencies.
  cbn [default from_option id fold_left cycles visited recursionStack path].
  rewrite (setAdd_new k vis Hk), (setAdd_new k [] eq_refl).
  rewrite (setDelete_last k [] eq_refl). reflexivity.
Qed.

(** [dfs] on one of two nodes that depend on each other and on nothing
    else, neither of them visited. *)
Lemma dfs_pair (fuel : nat) (g : Graph) (x y : string) (vis : list string) :
  x <> y ->
  mapGet x g = Some [y] ->
  mapGet y g = Some [x] ->
  inb x vis = false ->
  inb y vis = false ->
  dfs (S (S fuel)) g x (mkDfs [] vis [] [])
  = Some (mkDfs [mkCycle [x; y] 2] ((vis ++ [x]) ++ [y]) [] []).
Proof.
  intros Hne Hx Hy Hvx Hvy.
  assert (Hyx : inb y [x] = false) by (apply inb_single_ne; congruence).
  assert (H1 : inb y (vis ++ [x]) = false) by by apply inb_app_false.
  assert (H2 : inb x ((vis ++ [x]) ++ [y]) = true).
  { apply inb_app_l, inb_app_r, inb_single_eq. }
  assert (H3 : inb x ([x] ++ [y]) = true) by apply inb_app_l, inb_single_eq.
  rewrite dfs_unfold, Hx. unfold visitDependencies.
  cbn [default from_option id fold_left cycles visited recursionStack path].
  rewrite (setAdd_new x vis Hvx), (setAdd_new x [] eq_refl), H1.
  cbn [negb app]. rewrite dfs_unfold, Hy. unfold visitDependencies.
  cbn [default from_option id fold_left cycles visited recursionStack path].
  rewrite (setAdd_new y _ H1), (setAdd_new y [x] Hyx), H2, H3.
  cbn [negb]. unfold recordCycle.
  cbn [cycles visited recursionStack path app sliceFrom].
  rewrite String.eqb_refl.
  cbn [isCycleAlreadyFound existsb cycles visited recursionStack path app].
  change (setDelete y [x; y]) with (setDelete y ([x] ++ [y])).
  rewrite (setDelete_last y [x] Hyx).
  change (setDelete x [x]) with (setDelete x ([] ++ [x])).
  rewrite (setDelete_last x [] eq_refl). reflexivity.
Qed.


Lemma inb_app_single_ne (x k : string) (vis : list string) :
  x <> k -> inb x (vis ++ [k]) = inb x vis.
Proof.
  intros Hne. unfold inb. rewrite existsb_app. simpl.
  rewrite (proj2 (String.eqb_neq x k) Hne). by rewrite !orb_false_r.
Qed.

Lemma searchAfter_stays (fuel : nat) (g : Graph) (na nb : string) (keys : list string) :
  pairGraph g na nb ->
  (forall k, k ∈ keys -> k ∈ List.map fst g) ->
  forall s, searchAfter na nb s ->
    exists s', searchFrom (S fuel) g keys (Some s) = Some s' /\ searchAfter na nb s'.
Proof.
  intros (Hne & Ha & Hb & Hiso). induction keys as [|k keys IH]; intros Hkeys s Hs.
  - exists s. by split.
  - unfold searchFrom. cbn [fold_left]. fold (searchFrom (S fuel) g keys).
    destruct (inb k (visited s)) eqn:Hk; cbn [negb].
    + apply IH; [intros; apply Hkeys; by right | assumption].
    + destruct s as [found vis stack pth].
      destruct Hs as (Hc & Hst & Hp & Hva & Hvb). cbn [cycles visited recursionStack path] in Hc, Hst, Hp, Hva, Hvb, Hk.
      subst stack pth.
      assert (Hka : k <> na) by (intros ->; congruence).
      assert (Hkb : k <> nb) by (intros ->; congruence).
      rewrite (dfs_isolated fuel g k found vis); [|apply Hiso; auto; apply Hkeys; by left|assumption].
      apply IH; [intros; apply Hkeys; by right|].
      split; [assumption|]. repeat split; cbn [visited].
      * rewrite inb_app_single_ne by congruence. assumption.
      * rewrite inb_app_single_ne by congruence. assumption.
Qed.

Lemma searchBefore_finds (fuel : nat) (g : Graph) (na nb : string) (keys : list string) :
  pairGraph g na nb ->
  (forall k, k ∈ keys -> k ∈ List.map fst g) ->
  forall s, searchBefore na nb s ->
    exists s', searchFrom (S (S fuel)) g keys (Some s) = Some s'
               /\ (searchAfter na nb s'
                   \/ (searchBefore na nb s' /\ (na ∉ keys) /\ (nb ∉ keys))).
Proof.
  intros Hg. pose proof Hg as (Hne & Ha & Hb & Hiso).
  induction keys as [|k keys IH]; intros Hkeys s Hs.
  - exists s. split; [reflexivity|]. right. split; [assumption|].
    split; by intros ?%elem_of_nil.
  - unfold searchFrom. cbn [fold_left]. fold (searchFrom (S (S fuel)) g keys).
    destruct s as [found vis stack pth].
    destruct Hs as (Hc & Hst & Hp & Hva & Hvb). cbn [cycles visited recursionStack path] in Hc, Hst, Hp, Hva, Hvb.
    subst found stack pth. cbn [visited].
    assert (Hrest : forall k', k' ∈ keys -> k' ∈ List.map fst g)
      by (intros; apply Hkeys; by right).
    destruct (String.eqb_spec k na) as [->|Hka]; [|destruct (String.eqb_spec k nb) as [->|Hkb]].
    + rewrite Hva. cbn [negb]. rewrite (dfs_pair fuel g na nb vis Hne Ha Hb Hva Hvb).
      destruct (searchAfter_stays (S fuel) g na nb keys Hg Hrest
                  (mkDfs [mkCycle [na; nb] 2] ((vis ++ [na]) ++ [nb]) [] []))
        as (s' & Hs' & Hafter).
      { split; [exists na, nb; auto|]. repeat split; cbn [visited].
        - apply inb_app_l, inb_app_r, inb_single_eq.
        - apply inb_app_r, inb_single_eq. }
      exists s'. split; [assumption | by left].
    + rewrite Hvb. cbn [negb].
      rewrite (dfs_pair fuel g nb na vis (not_eq_sym Hne) Hb Ha Hvb Hva).
      destruct (searchAfter_stays (S fuel) g na nb keys Hg Hrest
                  (mkDfs [mkCycle [nb; na] 2] ((vis ++ [nb]) ++ [na]) [] []))
        as (s' & Hs' & Hafter).
      { split; [exists nb, na; auto|]. repeat split; cbn [visited].
        - apply inb_app_r, inb_single_eq.
        - apply inb_app_l, inb_app_r, inb_single_eq. }
      exists s'. split; [assumption | by left].
    + assert (Hnext : forall s1, searchBefore na nb s1 ->
                exists s', searchFrom (S (S fuel)) g keys (Some s1) = Some s'
                  /\ (searchAfter na nb s'
                      \/ (searchBefore na nb s' /\ (na ∉ k :: keys) /\ (nb ∉ k :: keys)))).
      { intros s1 Hs1. destruct (IH Hrest s1 Hs1) as (s' & Hs' & [Hafter|(Hbef & Hna & Hnb)]).
        - exists s'. split; [assumption | by left].
        - exists s'. split; [assumption|]. right. split; [assumption|].
          split; intros [?|?]%elem_of_cons; congruence. }
      destruct (inb k vis) eqn:Hk; cbn [negb].
      * apply Hnext. by repeat split.
      * rewrite (dfs_isolated (S fuel) g k [] vis);
          [|apply Hiso; auto; apply Hkeys; by left|assumption].
        apply Hnext. repeat split; cbn [visited].
        -- rewrite inb_app_single_ne by congruence. assumption.
        -- rewrite inb_app_single_ne by congruence. assumption.
Qed.

(** In such a graph the search reports the one cycle, from whichever of the
    two nodes comes first. *)
Lemma pair_cycle_detected (g : Graph) (na nb : string) :
  pairGraph g na nb ->
  na ∈ List.map fst g ->
  exists x y, detectCircularDependencies g = Some [mkCycle [x; y] 2]
              /\ ((x = na /\ y = nb) \/ (x = nb /\ y = na)).
Proof.
  intros Hg Hna. unfold detectCircularDependencies.
  assert (Hfuel : exists fuel, S (List.length (nodesOf g)) = S (S fuel)).
  { unfold nodesOf. rewrite length_app.
    destruct (List.map fst g) as [|k ks]; [by apply elem_of_nil in Hna|].
    simpl. eauto. }
  destruct Hfuel as [fuel ->].
  destruct (searchBefore_finds fuel g na nb (List.map fst g) Hg (fun k Hk => Hk)
              (mkDfs [] [] [] []))
    as (s' & Hs' & [Hafter|(_ & Hno & _)]).
  - by repeat split.
  - unfold searchFrom in Hs'. rewrite Hs'.
    destruct Hafter as ((x & y & Hc & Hxy) & _). exists x, y. cbn. by rewrite Hc.
  - contradiction.
Qed.


Lemma dependenciesOf_single (fileSet : list string) (f : ParsedFile)
    (i : ImportInfo) (n : string) :
  imports f = [i] ->
  resolveImportPath (filePath f) (modulePath i) = Some n ->
  inb n fileSet = true ->
  dependenciesOf fileSet f = [n].
Proof.
  intros Hi Hr Hn. unfold dependenciesOf. rewrite Hi. cbn [fold_left].
  by rewrite Hr, Hn.
Qed.

Lemma dependenciesOf_none (fileSet : list string) (f : ParsedFile) :
  imports f = [] -> dependenciesOf fileSet f = [].
Proof. intros Hi. unfold dependenciesOf. by rewrite Hi. Qed.

(** With no two files of the same normalized path, the graph has one
    entry per file, in the order of the files. *)
Lemma graph_of_files (files : list ParsedFile) :
  NoDup (List.map (fun f => normalizePath (filePath f)) files) ->
  buildDependencyGraph files
  = List.map (fun f => (normalizePath (filePath f),
                        dependenciesOf
                          (List.map (fun f => normalizePath (filePath f)) files) f))
             files.
Proof.
  intros Hnd. unfold buildDependencyGraph.
  exact (fold_mapSet_nodup (fun f => normalizePath (filePath f))
           (dependenciesOf (List.map (fun f => normalizePath (filePath f)) files))
           files [] Hnd).
Qed.

Lemma pair_files_graph (files : list ParsedFile) (a b : ParsedFile)
    (ia ib : ImportInfo) :
  NoDup (List.map (fun f => normalizePath (filePath f)) files) ->
  a ∈ files -> b ∈ files ->
  normalizePath (filePath a) <> normalizePath (filePath b) ->
  imports a = [ia] ->
  imports b = [ib] ->
  resolveImportPath (filePath a) (modulePath ia) = Some (normalizePath (filePath b)) ->
  resolveImportPath (filePath b) (modulePath ib) = Some (normalizePath (filePath a)) ->
  (forall f, f ∈ files -> f <> a -> f <> b -> imports f = []) ->
  pairGraph (buildDependencyGraph files)
            (normalizePath (filePath a)) (normalizePath (filePath b))
  /\ normalizePath (filePath a) ∈ List.map fst (buildDependencyGraph files).
Proof.
  intros Hnd Hain Hbin Hne Ha Hb Hra Hrb Hothers.
  rewrite (graph_of_files files Hnd).
  set (key := fun f => normalizePath (filePath f)) in *.
  set (fileSet := List.map key files).
  assert (Hkey : forall f, f ∈ files -> inb (key f) fileSet = true).
  { intros f Hf. apply inb_true. unfold fileSet.
    apply list_elem_of_In, in_map. by apply list_elem_of_In. }
  split; [split; [assumption|split; [|split]]|].
  - rewrite (mapGet_map key (dependenciesOf fileSet) files a Hnd Hain).
    f_equal. apply (dependenciesOf_single fileSet a ia); auto. exact (Hkey b Hbin).
  - rewrite (mapGet_map key (dependenciesOf fileSet) files b Hnd Hbin).
    f_equal. apply (dependenciesOf_single fileSet b ib); auto. exact (Hkey a Hain).
  - intros k Hk Hka Hkb. rewrite List.map_map in Hk.
    apply list_elem_of_In, in_map_iff in Hk as (f & <- & Hf). cbn [fst] in Hka, Hkb |- *.
    apply list_elem_of_In in Hf.
    rewrite (mapGet_map key (dependenciesOf fileSet) files f Hnd Hf).
    f_equal. apply dependenciesOf_none, Hothers; [assumption | |]; congruence.
  - rewrite List.map_map. apply list_elem_of_In, in_map_iff. exists a.
    split; [reflexivity | by apply list_elem_of_In].
Qed.

Lemma all_counted_insert ms k m :
  all_counted ms -> counted m -> all_counted (<[k := m]> ms).
Proof.
  intros Hms Hm k' m'. destruct (decide (k = k')) as [->|Hne].
  - rewrite lookup_insert_eq. by intros [= <-].
  - rewrite lookup_insert_ne by assumption. apply Hms.
Qed.

Lemma all_counted_alter ms k (from : string) :
  all_counted ms -> all_counted (alter (addDependent from) k ms).
Proof.
  intros Hms k' m'. destruct (decide (k = k')) as [->|Hne].
  - rewrite lookup_alter_eq.
    destruct (ms !! k') as [m|] eqn:Hm; [|discriminate].
    intros [= <-]. destruct (Hms k' m Hm). split; simpl; lia.
  - rewrite lookup_alter_ne by assumption. apply Hms.
Qed.

Lemma all_counted_initial (parsedFiles : list ParsedFile) :
  all_counted (initialMetrics parsedFiles).
Proof.
  unfold initialMetrics.
  assert (H : forall l acc, all_counted acc ->
            all_counted (fold_left
              (fun metrics file =>
                 <[normalizePath (filePath file) :=
                     mkCoupling (filePath file) 0 0 0%Q [] []]> metrics) l acc)).
  { induction l as [|f l IH]; intros acc Hacc; [assumption|].
    simpl. apply IH. apply all_counted_insert; [assumption|]. split; simpl; lia. }
  apply H. intros k m. by rewrite lookup_empty.
Qed.

Lemma all_counted_step ms (entry : string * list string) :
  all_counted ms -> all_counted (couplingStep ms entry).
Proof.
  intros Hms. destruct entry as [p deps]. unfold couplingStep.
  destruct (ms !! p) as [fm|] eqn:Hp; [|assumption].
  assert (H : forall l acc, all_counted acc ->
            all_counted (fold_left (fun ms0 dep => alter (addDependent p) dep ms0) l acc)).
  { induction l as [|d l IH]; intros acc Hacc; [assumption|].
    simpl. apply IH. by apply all_counted_alter. }
  apply H. apply all_counted_insert; [assumption|].
  destruct (Hms p fm Hp). split; simpl; lia.
Qed.

Lemma all_counted_graph g (parsedFiles : list ParsedFile) :
  all_counted (fold_left couplingStep g (initialMetrics parsedFiles)).
Proof.
  generalize (all_counted_initial parsedFiles).
  generalize (initialMetrics parsedFiles).
  induction g as [|entry g IH]; intros ms Hms; [assumption|].
  simpl. apply IH. by apply all_counted_step.
Qed.

(** A quotient of a count by a sum of counts that contains it lies
    between 0 and 1. *)
Lemma ratio_bounds (ce total : Z) :
  0 <= ce <= total -> 0 < total ->
  (0 <= inject_Z ce / inject_Z total)%Q /\ (inject_Z ce / inject_Z total <= 1)%Q.
Proof.
  intros [H0 H1] Ht. destruct total as [|p|p]; try lia.
  unfold Qle, Qdiv, Qmult, Qinv, inject_Z. simpl. split; nia.
Qed.

(** The metrics that [calculateCouplingMetrics] gives to a file. *)
Lemma coupling_metrics_bounds g (parsedFiles : list ParsedFile) (k : string)
    (m : FileCouplingMetrics) :
  calculateCouplingMetrics g parsedFiles !! k = Some m ->
  counted m
  /\ instability m
     = (if afferentCoupling m + efferentCoupling m >? 0
        then inject_Z (efferentCoupling m)
             / inject_Z (afferentCoupling m + efferentCoupling m)
        else 0)%Q
  /\ (0 <= instability m)%Q /\ (instability m <= 1)%Q.
Proof.
  unfold calculateCouplingMetrics. rewrite lookup_fmap.
  destruct (fold_left couplingStep g (initialMetrics parsedFiles) !! k) as [m0|] eqn:Hk;
    [|discriminate].
  intros [= <-]. destruct (all_counted_graph g parsedFiles k m0 Hk) as [Ha He].
  split; [by split|]. split; [reflexivity|]. simpl.
  destruct (Z.gtb_spec (afferentCoupling m0 + efferentCoupling m0) 0) as [Hpos|Hzero].
  - apply ratio_bounds; lia.
  - split; discriminate.
Qed.

(** Where the imports are resolved: when no two files have the same
    normalized path, two of them each have a single import that
    [resolveImportPath] maps to the other, and no other file imports
    anything, the analysis reports exactly one circular dependency, of
    length 2, made of these two files, wherever they stand in the list; and
    in every analysis the afferent and efferent coupling of every file are
    counts, its instability is Ce / (Ca + Ce) when the sum is positive and
    0 otherwise, and it lies between 0 and 1. *)
Lemma two_cycle_and_instability :
  (forall (files : list ParsedFile) (a b : ParsedFile) (ia ib : ImportInfo),
     NoDup (List.map (fun f => normalizePath (filePath f)) files) ->
     a ∈ files -> b ∈ files ->
     normalizePath (filePath a) <> normalizePath (filePath b) ->
     imports a = [ia] ->
     imports b = [ib] ->
     resolveImportPath (filePath a) (modulePath ia) = Some (normalizePath (filePath b)) ->
     resolveImportPath (filePath b) (modulePath ib) = Some (normalizePath (filePath a)) ->
     (forall f, f ∈ files -> f <> a -> f <> b -> imports f = []) ->
     exists r x y, analyze files = Some r
       /\ circularDependencies r = [mkCycle [x; y] 2]
       /\ totalCircularDependencies r = 1
       /\ ((x = normalizePath (filePath a) /\ y = normalizePath (filePath b))
           \/ (x = normalizePath (filePath b) /\ y = normalizePath (filePath a))))
  /\ (forall parsedFiles : list ParsedFile,
        exists r, analyze parsedFiles = Some r
          /\ forall k m, fileMetrics r !! k = Some m ->
               0 <= afferentCoupling m
               /\ 0 <= efferentCoupling m
               /\ instability m
                  = (if afferentCoupling m + efferentCoupling m >? 0
                     then inject_Z (efferentCoupling m)
                          / inject_Z (afferentCoupling m + efferentCoupling m)
                     else 0)%Q
               /\ (0 <= instability m)%Q
               /\ (instability m <= 1)%Q
               /\ (afferentCoupling m = 0 -> efferentCoupling m = 0 ->
                   instability m = 0%Q)).
Proof.
  split.
  - intros files a b ia ib Hnd Hain Hbin Hne Ha Hb Hra Hrb Hothers.
    destruct (pair_files_graph files a b ia ib Hnd Hain Hbin Hne Ha Hb Hra Hrb Hothers)
      as [Hg Hin].
    destruct (pair_cycle_detected _ _ _ Hg Hin) as (x & y & Hd & Hxy).
    unfold analyze. rewrite Hd. cbn. eexists _, x, y. eauto.
  - intros parsedFiles.
    destruct (analyze_returns parsedFiles) as [r Hr]. exists r. split; [assumption|].
    unfold analyze in Hr.
    destruct (detectCircularDependencies _) as [found|]; [|discriminate].
    injection Hr as <-. simpl. intros k m Hm.
    destruct (coupling_metrics_bounds _ _ _ _ Hm) as ([Ha He] & Hi & H0 & H1).
    repeat split; try assumption.
    intros Hca Hce. rewrite Hi, Hca, Hce. reflexivity.
Qed.

End Search.

Section Graphs.
Context {NP : NodePath}.

Lemma substring_all (t : string) : substring 0 (String.length t) t = t.
Proof. induction t as [|c t IH]; cbn; [reflexivity|]. by rewrite IH. Qed.

Lemma substring_skip (s t : string) :
  substring (String.length s) (String.length t) (s ++ t) = t.
Proof. induction s as [|c s IH]; cbn; [apply substring_all | exact IH]. Qed.

Lemma length_append (s t : string) :
  String.length (s ++ t) = (String.length s + String.length t)%nat.
Proof. induction s as [|c s IH]; simpl; [reflexivity | by f_equal]. Qed.

Lemma endsWith_append (s t : string) : Parser.endsWith (s ++ t) t = true.
Proof.
  unfold Parser.endsWith. rewrite length_append.
  replace (String.length s + String.length t - String.length t)%nat
    with (String.length s) by lia.
  rewrite substring_skip, String.eqb_refl.
  apply andb_true_iff. split; [apply Nat.leb_le; lia | reflexivity].
Qed.

(** The first extension tried always looks like a known file. *)
Lemma resolveImportPath_ts (fromFile importPath : string) :
  resolveImportPath fromFile importPath
  = if String.prefix "." importPath || String.prefix "/" importPath
    then Some (normalizePath (resolve (dirname fromFile) importPath ++ ".ts"))
    else None.
Proof.
  unfold resolveImportPath.
  destruct (String.prefix "." importPath), (String.prefix "/" importPath);
    cbn [negb andb orb]; try reflexivity.
  all: cbn [List.map List.find]; unfold isKnownFile at 1;
    by rewrite endsWith_append.
Qed.

(** X22. [resolveImportPath] answers [null] for an import that starts
    neither with a dot nor with a slash, and for every other import the
    resolved path with [.ts] added, normalized: the first extension tried
    always looks like a known file, so the other extensions and the index
    files are never used, also when the import names its extension. *)
Theorem resolveImportPath_cases (fromFile importPath : string) :
  resolveImportPath fromFile importPath
  = if String.prefix "." importPath || String.prefix "/" importPath
    then Some (normalizePath (resolve (dirname fromFile) importPath ++ ".ts"))
    else None.
Proof. exact (resolveImportPath_ts fromFile importPath). Qed.

Lemma lowerSlash_fixed (c : ascii) :
  isUpperOrBackslash (lowerSlash c) = false /\ lowerSlash (lowerSlash c) = lowerSlash c.
Proof.
  destruct c as [[] [] [] [] [] [] [] []]; split; reflexivity.
Qed.

(** X23. A normalized path holds no uppercase ASCII letter and no
    backslash, and normalizing its letters and slashes again changes
    nothing. *)
Theorem normalizePath_form (p : string) :
  anyChar isUpperOrBackslash (normalizePath p) = false
  /\ mapString lowerSlash (normalizePath p) = normalizePath p.
Proof.
  unfold normalizePath. induction (normalize p) as [|c s [IH1 IH2]]; [by split|].
  cbn [mapString anyChar]. destruct (lowerSlash_fixed c) as [-> ->].
  rewrite IH1, IH2. by split.
Qed.


Lemma mapSet_In {V} (k : string) (v : V) (m : list (string * V)) (k' : string) (v' : V) :
  In (k', v') (mapSet k v m) -> (k' = k /\ v' = v) \/ In (k', v') m.
Proof.
  induction m as [|[k0 v0] m IH]; cbn.
  - intros [[= <- <-]|[]]. by left.
  - destruct (String.eqb k0 k).
    + intros [[= <- <-]|Hin]; [by left | right; by right].
    + intros [[= <- <-]|Hin]; [right; by left|].
      destruct (IH Hin) as [?|?]; [by left | right; by right].
Qed.

Lemma mapSet_keys {V} (k : string) (v : V) (m : list (string * V)) :
  List.map fst (mapSet k v m) = setAdd k (List.map fst m).
Proof.
  unfold setAdd, inb. induction m as [|[k0 v0] m IH]; cbn; [reflexivity|].
  destruct (String.eqb_spec k0 k) as [->|Hne].
  - by rewrite String.eqb_refl.
  - rewrite (proj2 (String.eqb_neq k k0)) by congruence. cbn.
    rewrite IH. by destruct (existsb _ _).
Qed.

Lemma setAdd_NoDup (x : string) (s : list string) : NoDup s -> NoDup (setAdd x s).
Proof.
  intros Hs. unfold setAdd. destruct (inb x s) eqn:Hx; [assumption|].
  apply NoDup_app. split; [assumption|]. split.
  - intros y Hy Hy'. apply list_elem_of_singleton in Hy'. subst y.
    by apply inb_false in Hx.
  - apply NoDup_singleton.
Qed.

(** The dependencies of a file: no duplicates, each a file of the set and
    the resolved path of an import of the file. *)
Lemma dependenciesOf_spec (fileSet : list string) (file : ParsedFile) :
  NoDup (dependenciesOf fileSet file)
  /\ forall d, d ∈ dependenciesOf fileSet file ->
       d ∈ fileSet
       /\ exists imp, imp ∈ imports file
            /\ resolveImportPath (filePath file) (modulePath imp) = Some d.
Proof.
  unfold dependenciesOf.
  assert (H : forall l acc,
    (forall imp, imp ∈ l -> imp ∈ imports file) ->
    NoDup acc ->
    (forall d, d ∈ acc ->
       d ∈ fileSet
       /\ exists imp, imp ∈ imports file
            /\ resolveImportPath (filePath file) (modulePath imp) = Some d) ->
    let out :=
      fold_left
        (fun deps imp =>
           match resolveImportPath (filePath file) (modulePath imp) with
           | Some resolvedPath =>
               if inb resolvedPath fileSet then setAdd resolvedPath deps else deps
           | None => deps
           end) l acc in
    NoDup out
    /\ forall d, d ∈ out ->
         d ∈ fileSet
         /\ exists imp, imp ∈ imports file
              /\ resolveImportPath (filePath file) (modulePath imp) = Some d).
  { induction l as [|imp l IH]; intros acc Hl Hnd Hacc; [by split|].
    cbn [fold_left]. apply IH.
    - intros i Hi. apply Hl. by right.
    - destruct (resolveImportPath _ _) as [r|]; [|assumption].
      destruct (inb r fileSet); [by apply setAdd_NoDup | assumption].
    - destruct (resolveImportPath _ _) as [r|] eqn:Hr; [|assumption].
      destruct (inb r fileSet) eqn:Hin; [|assumption].
      intros d Hd. apply elem_of_setAdd in Hd as [->|Hd]; [|by apply Hacc].
      split; [by apply inb_true|]. exists imp. split; [apply Hl; by left | assumption]. }
  apply H; [auto | apply NoDup_nil_2 | by intros d ?%elem_of_nil].
Qed.

Lemma graph_keys (files : list ParsedFile) :
  NoDup (List.map fst (buildDependencyGraph files))
  /\ forall k, k ∈ List.map fst (buildDependencyGraph files)
               <-> exists f, f ∈ files /\ normalizePath (filePath f) = k.
Proof.
  unfold buildDependencyGraph.
  set (fileSet := List.map (fun f => normalizePath (filePath f)) files).
  assert (H : forall l (acc : Graph),
    NoDup (List.map fst acc) ->
    let out := fold_left
                 (fun graph file =>
                    mapSet (normalizePath (filePath file)) (dependenciesOf fileSet file) graph)
                 l acc in
    NoDup (List.map fst out)
    /\ forall k, k ∈ List.map fst out
                 <-> k ∈ List.map fst acc
                     \/ exists f, f ∈ l /\ normalizePath (filePath f) = k).
  { induction l as [|f l IH]; intros acc Hnd.
    - cbn. split; [assumption|]. intros k. split; [auto|].
      intros [?|(f & Hf & _)]; [assumption | by apply elem_of_nil in Hf].
    - cbn [fold_left]. destruct (IH (mapSet (normalizePath (filePath f))
                                           (dependenciesOf fileSet f) acc)) as [Hn Hk].
      { rewrite mapSet_keys. by apply setAdd_NoDup. }
      split; [exact Hn|]. intros k. rewrite Hk, mapSet_keys, elem_of_setAdd.
      split.
      + intros [[->|?]|(f' & Hf' & <-)]; [right; exists f; split; [by left | reflexivity]
                                          | by left
                                          | right; exists f'; split; [by right | reflexivity]].
      + intros [?|(f' & Hf' & <-)]; [left; by right|].
        apply elem_of_cons in Hf' as [->|Hf']; [left; by left|].
        right. by exists f'. }
  destruct (H files []) as [Hn Hk]; [apply NoDup_nil_2|].
  split; [exact Hn|]. intros k. rewrite Hk. split; [|auto].
  intros [Hin|?]; [by apply elem_of_nil in Hin | assumption].
Qed.

Lemma graph_entries (files : list ParsedFile) (k : string) (deps : list string) :
  In (k, deps) (buildDependencyGraph files) ->
  exists f, f ∈ files /\ normalizePath (filePath f) = k
    /\ deps = dependenciesOf (List.map (fun f => normalizePath (filePath f)) files) f.
Proof.
  unfold buildDependencyGraph.
  set (fileSet := List.map (fun f => normalizePath (filePath f)) files).
  assert (H : forall l (acc : Graph),
    In (k, deps)
       (fold_left
          (fun graph file =>
             mapSet (normalizePath (filePath file)) (dependenciesOf fileSet file) graph)
          l acc) ->
    In (k, deps) acc
    \/ exists f, f ∈ l /\ normalizePath (filePath f) = k
         /\ deps = dependenciesOf fileSet f).
  { induction l as [|f l IH]; intros acc Hin; [by left|].
    cbn [fold_left] in Hin. apply IH in Hin as [Hin|(f' & Hf' & Hk & Hd)].
    - apply mapSet_In in Hin as [[-> ->]|Hin]; [|by left].
      right. exists f. split; [by left | by split].
    - right. exists f'. split; [by right | by split]. }
  intros Hin. apply H in Hin as [[]|?]. assumption.
Qed.

Lemma mapGet_In {V} (k : string) (v : V) (m : list (string * V)) :
  NoDup (List.map fst m) -> In (k, v) m -> mapGet k m = Some v.
Proof.
  induction m as [|[k0 v0] m IH]; intros Hnd Hin; [destruct Hin|].
  cbn in *. apply NoDup_cons in Hnd as [Hk0 Hnd].
  destruct Hin as [[= -> ->]|Hin].
  - by rewrite String.eqb_refl.
  - destruct (String.eqb_spec k0 k) as [->|Hne]; [|by apply IH].
    exfalso. apply Hk0. apply list_elem_of_In.
    change k with (fst (k, v)). by apply in_map.
Qed.

(** The keys and the dependencies of the graph. *)
Lemma graph_shape (files : list ParsedFile) :
  let g := buildDependencyGraph files in
  NoDup (List.map fst g)
  /\ (forall k, k ∈ List.map fst g
                <-> exists f, f ∈ files /\ normalizePath (filePath f) = k)
  /\ forall k deps,
       mapGet k g = Some deps ->
       NoDup deps
       /\ forall d, d ∈ deps ->
            d ∈ List.map fst g
            /\ exists f imp,
                 f ∈ files /\ normalizePath (filePath f) = k
                 /\ imp ∈ imports f
                 /\ resolveImportPath (filePath f) (modulePath imp) = Some d.
Proof.
  intros g. destruct (graph_keys files) as [Hnd Hkeys].
  split; [exact Hnd|]. split; [exact Hkeys|].
  intros k deps Hget. apply mapGet_nodes, graph_entries in Hget as (f & Hf & Hk & ->).
  destruct (dependenciesOf_spec (List.map (fun f => normalizePath (filePath f)) files) f)
    as [Hn Hd].
  split; [exact Hn|]. intros d Hin. destruct (Hd d Hin) as (Hset & imp & Himp & Hr).
  split.
  - apply Hkeys. apply list_elem_of_In, in_map_iff in Hset as (f' & Hf'k & Hf').
    exists f'. split; [by apply list_elem_of_In | assumption].
  - by exists f, imp.
Qed.

(** X24. The dependency graph has one key for every normalized path of
    the input and no other; the dependencies of a key hold no duplicate,
    each of them is again a key of the graph, and each is the resolved path
    of an import of a file with that key. *)
Theorem dependency_graph_shape (files : list ParsedFile) :
  let g := buildDependencyGraph files in
  NoDup (List.map fst g)
  /\ (forall k, k ∈ List.map fst g
                <-> exists f, f ∈ files /\ normalizePath (filePath f) = k)
  /\ forall k deps,
       mapGet k g = Some deps ->
       NoDup deps
       /\ forall d, d ∈ deps ->
            d ∈ List.map fst g
            /\ exists f imp,
                 f ∈ files /\ normalizePath (filePath f) = k
                 /\ imp ∈ imports f
                 /\ resolveImportPath (filePath f) (modulePath imp) = Some d.
Proof. exact (graph_shape files). Qed.


Lemma mapGet_None {V} (k : string) (m : list (string * V)) :
  mapGet k m = None <-> k ∉ List.map fst m.
Proof.
  induction m as [|[k0 v0] m IH]; cbn.
  - split; [intros _ ?%elem_of_nil; contradiction | reflexivity].
  - destruct (String.eqb_spec k0 k) as [->|Hne].
    + split; [discriminate | intros H; exfalso; apply H; by left].
    + rewrite IH, elem_of_cons. intuition congruence.
Qed.

Lemma mapGet_snoc {V} (k p : string) (v : V) (m : list (string * V)) :
  mapGet k (m ++ [(p, v)])
  = match mapGet k m with
    | Some x => Some x
    | None => if String.eqb p k then Some v else None
    end.
Proof.
  induction m as [|[k0 v0] m IH]; cbn; [reflexivity|].
  by destruct (String.eqb k0 k).
Qed.

Lemma fold_alter_lookup {V} (F : V -> V) (deps : list string) (ms : gmap string V)
    (k : string) :
  NoDup deps ->
  fold_left (fun ms0 d => alter F d ms0) deps ms !! k
  = if bool_decide (k ∈ deps) then F <$> ms !! k else ms !! k.
Proof.
  intros Hnd. revert ms. induction Hnd as [|d deps Hd Hnd IH]; intros ms; [reflexivity|].
  cbn [fold_left]. rewrite IH.
  destruct (decide (k = d)) as [->|Hne].
  - rewrite (bool_decide_eq_false_2 (d ∈ deps)) by assumption.
    rewrite (bool_decide_eq_true_2 (d ∈ d :: deps)) by left.
    apply lookup_alter_eq.
  - rewrite lookup_alter_ne by congruence.
    rewrite (bool_decide_ext (k ∈ d :: deps) (k ∈ deps)); [reflexivity|].
    rewrite elem_of_cons. intuition.
Qed.

Lemma couplingInv_initial (files : list ParsedFile) :
  couplingInv files [] (initialMetrics files).
Proof.
  unfold initialMetrics.
  assert (H : forall l (acc : gmap string FileCouplingMetrics),
    (forall f, f ∈ l -> f ∈ files) ->
    (forall k m, acc !! k = Some m ->
       (exists f, f ∈ files /\ normalizePath (filePath f) = k /\ metricsPath m = filePath f)
       /\ afferentCoupling m = 0 /\ efferentCoupling m = 0
       /\ dependsOn m = [] /\ dependedOnBy m = []) ->
    let out := fold_left
                 (fun metrics file =>
                    <[normalizePath (filePath file) :=
                        mkCoupling (filePath file) 0 0 0%Q [] []]> metrics) l acc in
    (forall k, is_Some (out !! k)
               <-> is_Some (acc !! k)
                   \/ exists f, f ∈ l /\ normalizePath (filePath f) = k)
    /\ forall k m, out !! k = Some m ->
         (exists f, f ∈ files /\ normalizePath (filePath f) = k /\ metricsPath m = filePath f)
         /\ afferentCoupling m = 0 /\ efferentCoupling m = 0
         /\ dependsOn m = [] /\ dependedOnBy m = []).
  { induction l as [|f l IH]; intros acc Hl Hacc.
    - cbn. split; [|assumption]. intros k. split; [auto|].
      intros [?|(f & Hf & _)]; [assumption | by apply elem_of_nil in Hf].
    - cbn [fold_left].
      destruct (IH (<[normalizePath (filePath f) :=
                        mkCoupling (filePath f) 0 0 0%Q [] []]> acc)) as [Hdom Hval].
      { intros f' Hf'. apply Hl. by right. }
      { intros k m. destruct (decide (normalizePath (filePath f) = k)) as [<-|Hne].
        - rewrite lookup_insert_eq. intros [= <-]. cbn. split; [|auto].
          exists f. split; [apply Hl; by left | auto].
        - rewrite lookup_insert_ne by assumption. apply Hacc. }
      split; [|exact Hval]. intros k. rewrite Hdom. split.
      + intros [His|(f' & Hf' & <-)].
        * destruct (decide (normalizePath (filePath f) = k)) as [<-|Hne].
          -- right. exists f. split; [by left | reflexivity].
          -- rewrite lookup_insert_ne in His by assumption. by left.
        * right. exists f'. split; [by right | reflexivity].
      + intros [His|(f' & Hf' & <-)].
        * left. destruct (decide (normalizePath (filePath f) = k)) as [<-|Hne].
          -- rewrite lookup_insert_eq. by eexists.
          -- by rewrite lookup_insert_ne by assumption.
        * apply elem_of_cons in Hf' as [->|Hf'].
          -- left. rewrite lookup_insert_eq. by eexists.
          -- right. by exists f'. }
  destruct (H files ∅) as [Hdom Hval]; [auto | by intros k m; rewrite lookup_empty|].
  split.
  - intros k. rewrite Hdom. split; [|auto].
    intros [[m Hm]|?]; [by rewrite lookup_empty in Hm | assumption].
  - intros k m Hm. by destruct (Hval k m Hm) as (? & _).
  - intros k m Hm. destruct (Hval k m Hm) as (_ & -> & -> & -> & ->). by split.
  - intros k m Hm. by destruct (Hval k m Hm) as (_ & _ & _ & -> & _).
  - intros k m Hm. destruct (Hval k m Hm) as (_ & _ & _ & _ & ->).
    split; [apply NoDup_nil_2|]. intros x. unfold edge. cbn.
    split; by intros ?%elem_of_nil.
Qed.

Lemma couplingInv_step (files : list ParsedFile) (done : Graph)
    (ms : gmap string FileCouplingMetrics) (p : string) (deps : list string) :
  couplingInv files done ms ->
  p ∉ List.map fst done ->
  NoDup deps ->
  is_Some (ms !! p) ->
  couplingInv files (done ++ [(p, deps)]) (couplingStep ms (p, deps)).
Proof.
  intros [Hdom Hpath Hcounts Hon Hby] Hp Hnd [fm Hfm].
  unfold couplingStep. rewrite Hfm.
  set (fm' := mkCoupling (metricsPath fm) (afferentCoupling fm)
                (Z.of_nat (List.length deps)) (instability fm) deps (dependedOnBy fm)).
  assert (Hlookup : forall k,
    fold_left (fun ms0 dep => alter (addDependent p) dep ms0) deps (<[p := fm']> ms) !! k
    = (fun m => if bool_decide (k ∈ deps) then addDependent p m else m)
        <$> (if bool_decide (k = p) then Some fm' else ms !! k)).
  { intros k. rewrite fold_alter_lookup by assumption.
    destruct (decide (k = p)) as [->|Hne].
    - rewrite (bool_decide_eq_true_2 (p = p)) by reflexivity. rewrite lookup_insert_eq.
      by case_bool_decide.
    - rewrite (bool_decide_eq_false_2 (k = p)) by assumption.
      rewrite lookup_insert_ne by congruence.
      case_bool_decide; [reflexivity|]. by destruct (ms !! k). }
  assert (Hpnone : mapGet p done = None) by by apply mapGet_None.
  assert (Hedge : forall x k, edge (done ++ [(p, deps)]) x k
                              <-> edge done x k \/ (x = p /\ k ∈ deps)).
  { intros x k. unfold edge. rewrite mapGet_snoc.
    destruct (mapGet x done) as [v|] eqn:Hx; cbn.
    - split; [auto|]. intros [?|[-> _]]; [assumption | congruence].
    - destruct (String.eqb_spec p x) as [->|Hne]; cbn.
      + split; [auto|]. intros [?%elem_of_nil|[_ ?]]; [contradiction | assumption].
      + split; [by intros ?%elem_of_nil|].
        intros [?%elem_of_nil|[-> _]]; [contradiction | congruence]. }
  assert (Hold : forall k m',
    fold_left (fun ms0 dep => alter (addDependent p) dep ms0) deps (<[p := fm']> ms) !! k
    = Some m' ->
    exists m, ms !! k = Some m
      /\ m' = (if bool_decide (k ∈ deps) then addDependent p else id)
                (if bool_decide (k = p) then fm' else m)).
  { intros k m'. rewrite Hlookup. destruct (decide (k = p)) as [->|Hkp].
    - rewrite !(bool_decide_eq_true_2 (p = p)) by reflexivity.
      cbn. intros [= <-]. exists fm. split; [assumption|]. by case_bool_decide.
    - rewrite !(bool_decide_eq_false_2 (k = p)) by assumption.
      destruct (ms !! k) as [m|]; cbn; [|discriminate].
      intros [= <-]. exists m. split; [reflexivity|]. by case_bool_decide. }
  split.
  - intros k. rewrite <- Hdom. rewrite Hlookup.
    destruct (decide (k = p)) as [->|Hkp].
    + rewrite (bool_decide_eq_true_2 (p = p)) by reflexivity. cbn. split; eauto.
    + rewrite (bool_decide_eq_false_2 (k = p)) by assumption.
      destruct (ms !! k); cbn; split; intros [? ?]; eauto; discriminate.
  - intros k m' Hm'. destruct (Hold k m' Hm') as (m & Hm & ->).
    destruct (Hpath k m Hm) as (f & Hf & Hk & Hmp). exists f. split; [assumption|].
    split; [assumption|].
    repeat case_bool_decide; subst; cbn; try assumption;
      rewrite Hfm in Hm; injection Hm as <-; assumption.
  - intros k m' Hm'. destruct (Hold k m' Hm') as (m & Hm & ->).
    destruct (Hcounts k m Hm) as [Ha He].
    repeat case_bool_decide; subst; cbn; rewrite ?length_app; cbn;
      try (rewrite Hfm in Hm; injection Hm as <-); split; lia.
  - intros k m' Hm'. destruct (Hold k m' Hm') as (m & Hm & ->).
    rewrite mapGet_snoc. specialize (Hon k m Hm).
    destruct (decide (k = p)) as [->|Hkp].
    + rewrite (bool_decide_eq_true_2 (p = p)) by reflexivity.
      rewrite Hpnone, String.eqb_refl. by case_bool_decide.
    + rewrite (bool_decide_eq_false_2 (k = p)) by assumption.
      assert (Hd : dependsOn ((if bool_decide (k ∈ deps) then addDependent p else id) m)
                   = dependsOn m) by (by case_bool_decide).
      rewrite Hd, Hon. destruct (mapGet k done); [reflexivity|].
      destruct (String.eqb_spec p k); [congruence | reflexivity].
  - intros k m' Hm'. destruct (Hold k m' Hm') as (m & Hm & ->).
    destruct (Hby k m Hm) as [Hnodup Hiff].
    assert (Hsame : dependedOnBy (if bool_decide (k = p) then fm' else m) = dependedOnBy m).
    { destruct (decide (k = p)) as [->|Hkp].
      - rewrite (bool_decide_eq_true_2 (p = p)) by reflexivity.
        rewrite Hfm in Hm. by injection Hm as <-.
      - by rewrite (bool_decide_eq_false_2 (k = p)) by assumption. }
    assert (Hpnew : p ∉ dependedOnBy m).
    { intros Hin. apply Hiff in Hin. unfold edge in Hin. rewrite Hpnone in Hin.
      by apply elem_of_nil in Hin. }
    destruct (decide (k ∈ deps)) as [Hkd|Hkd];
      [rewrite (bool_decide_eq_true_2 (k ∈ deps)) by assumption
      |rewrite (bool_decide_eq_false_2 (k ∈ deps)) by assumption];
      cbn [addDependent dependedOnBy id]; rewrite Hsame.
    + split.
      * apply NoDup_app. split; [assumption|]. split; [|apply NoDup_singleton].
        intros y Hy Hy'. apply list_elem_of_singleton in Hy'. by subst y.
      * intros x. rewrite elem_of_app, list_elem_of_singleton, Hedge, Hiff. tauto.
    + split; [assumption|]. intros x. rewrite Hedge, Hiff. tauto.
Qed.

Lemma couplingInv_graph (files : list ParsedFile) (rest : Graph) :
  forall (done : Graph) (ms : gmap string FileCouplingMetrics),
    couplingInv files done ms ->
    NoDup (List.map fst (done ++ rest)) ->
    (forall p deps, In (p, deps) rest -> NoDup deps /\ is_Some (ms !! p)) ->
    couplingInv files (done ++ rest) (fold_left couplingStep rest ms).
Proof.
  induction rest as [|[p deps] rest IH]; intros done ms Hinv Hnd Hrest.
  - cbn. by rewrite app_nil_r.
  - cbn [fold_left].
    replace (done ++ (p, deps) :: rest) with ((done ++ [(p, deps)]) ++ rest)
      by (by rewrite <- app_assoc).
    destruct (Hrest p deps ltac:(by left)) as [Hdeps Hsome].
    assert (Hp : p ∉ List.map fst done).
    { rewrite List.map_app in Hnd. apply NoDup_app in Hnd as (_ & Hdisj & _).
      intros Hin. apply (Hdisj p Hin). cbn. by left. }
    pose proof (couplingInv_step files done ms p deps Hinv Hp Hdeps Hsome) as Hstep.
    apply IH.
    + exact Hstep.
    + by rewrite <- app_assoc.
    + intros q deps' Hin. destruct (Hrest q deps' ltac:(by right)) as [Hn Hs].
      split; [assumption|]. apply (ci_dom _ _ _ Hstep). by apply (ci_dom _ _ _ Hinv).
Qed.

(** The metrics of an analysis, before the instability is filled in. *)
Lemma couplingInv_analysis (files : list ParsedFile) :
  couplingInv files (buildDependencyGraph files)
    (fold_left couplingStep (buildDependencyGraph files) (initialMetrics files)).
Proof.
  destruct (graph_shape files) as (Hnd & Hkeys & Hdeps).
  apply (couplingInv_graph files (buildDependencyGraph files) []
           (initialMetrics files) (couplingInv_initial files) Hnd).
  intros p deps Hin. split.
  - by apply (Hdeps p deps), mapGet_In.
  - apply (ci_dom _ _ _ (couplingInv_initial files)). apply Hkeys.
    apply list_elem_of_In. change p with (fst (p, deps)). by apply in_map.
Qed.

Lemma analyze_metrics (files : list ParsedFile) :
  exists r, analyze files = Some r
    /\ fileMetrics r
       = withInstability <$> fold_left couplingStep (buildDependencyGraph files)
                                       (initialMetrics files).
Proof.
  unfold analyze, calculateCouplingMetrics.
  destruct (detectCircularDependencies_returns (buildDependencyGraph files)) as [found ->].
  by eexists.
Qed.

(** X25. The analysis has a metrics entry for a path exactly when the
    path normalizes like the path of one of the files, so
    [getCouplingForFile] finds every file of the input, whatever the case
    of its letters and the direction of its slashes; the entry carries the
    path of a file of the input with that normalized path. *)
Theorem getCouplingForFile_finds (files : list ParsedFile) :
  exists r, analyze files = Some r
    /\ (forall p, is_Some (getCouplingForFile r p)
                  <-> exists f, f ∈ files
                        /\ normalizePath (filePath f) = normalizePath p)
    /\ (forall p m, getCouplingForFile r p = Some m ->
          exists f, f ∈ files
            /\ normalizePath (filePath f) = normalizePath p
            /\ metricsPath m = filePath f).
Proof.
  destruct (analyze_metrics files) as (r & Hr & Hm). exists r. split; [exact Hr|].
  pose proof (couplingInv_analysis files) as [Hdom Hpath _ _ _].
  unfold getCouplingForFile. rewrite Hm. split.
  - intros p. rewrite lookup_fmap, <- Hdom.
    destruct (_ !! normalizePath p); cbn; split; intros [? ?]; eauto; discriminate.
  - intros p m. rewrite lookup_fmap.
    destruct (_ !! normalizePath p) as [m0|] eqn:Hp; cbn; [|discriminate].
    intros [= <-]. exact (Hpath _ _ Hp).
Qed.

(** X26. In the metrics of a file, [dependsOn] is the list of its
    dependencies in the graph and the efferent coupling its length;
    [dependedOnBy] holds exactly the files that depend on it, each once,
    and the afferent coupling is its length. *)
Theorem coupling_lists (files : list ParsedFile) :
  exists r, analyze files = Some r
    /\ forall k m, fileMetrics r !! k = Some m ->
         mapGet k (buildDependencyGraph files) = Some (dependsOn m)
         /\ efferentCoupling m = Z.of_nat (List.length (dependsOn m))
         /\ afferentCoupling m = Z.of_nat (List.length (dependedOnBy m))
         /\ NoDup (dependedOnBy m)
         /\ forall x, x ∈ dependedOnBy m <-> edge (buildDependencyGraph files) x k.
Proof.
  destruct (analyze_metrics files) as (r & Hr & Hm). exists r. split; [exact Hr|].
  pose proof (couplingInv_analysis files) as [Hdom Hpath Hcounts Hon Hby].
  destruct (graph_shape files) as (_ & Hkeys & _).
  intros k m. rewrite Hm, lookup_fmap.
  destruct (_ !! k) as [m0|] eqn:Hk; cbn; [|discriminate].
  intros [= <-]. cbn.
  destruct (Hcounts k m0 Hk) as [Ha He]. destruct (Hby k m0 Hk) as [Hn Hiff].
  split; [|split; [assumption|]; split; [assumption|]; split; [assumption | exact Hiff]].
  rewrite (Hon k m0 Hk).
  destruct (mapGet k (buildDependencyGraph files)) as [deps|] eqn:Hg; [reflexivity|].
  exfalso. apply mapGet_None in Hg. apply Hg, Hkeys, Hdom. by eexists.
Qed.


Lemma chain_suffix (g : Graph) (pre p : list string) : chain g (pre ++ p) -> chain g p.
Proof.
  induction pre as [|x pre IH]; [auto|].
  intros H. apply IH. destruct pre as [|y pre]; cbn in H |- *.
  - destruct p; [exact I | by destruct H].
  - by destruct H.
Qed.

Lemma chain_snoc (g : Graph) (p : list string) (x y : string) :
  chain g (p ++ [x]) -> edge g x y -> chain g ((p ++ [x]) ++ [y]).
Proof.
  intros Hp He. induction p as [|z p IH]; cbn in *; [by split|].
  destruct p as [|w p]; cbn in *.
  - destruct Hp as [Hzx _]. by repeat split.
  - destruct Hp as [Hzw Hp]. split; [assumption | by apply IH].
Qed.

Lemma sliceFrom_spec (dep : string) (p cyc : list string) :
  sliceFrom dep p = Some cyc ->
  exists pre, p = pre ++ cyc /\ head cyc = Some dep.
Proof.
  induction p as [|x p IH]; cbn; [discriminate|].
  destruct (String.eqb_spec x dep) as [->|Hne].
  - intros [= <-]. by exists [].
  - intros H. destruct (IH H) as (pre & -> & Hh). by exists (x :: pre).
Qed.

Lemma recordCycle_sound (g : Graph) (node dep : string) (front : list string)
    (st : DfsState) :
  path st = front ++ [node] ->
  chain g (path st) ->
  edge g node dep ->
  cyclesOk g (cycles st) ->
  path (recordCycle dep st) = path st /\ cyclesOk g (cycles (recordCycle dep st)).
Proof.
  intros Hpath Hchain Hedge Hok. unfold recordCycle.
  destruct (sliceFrom dep (path st)) as [cyc|] eqn:Hs; [|by split].
  destruct (isCycleAlreadyFound (cycles st) cyc); [by split|].
  cbn. split; [reflexivity|].
  apply sliceFrom_spec in Hs as (pre & Hp & Hhead).
  apply Forall_app. split; [assumption|]. apply Forall_singleton. cbn.
  split; [|reflexivity]. split.
  - rewrite Hp in Hchain. by eapply chain_suffix.
  - exists dep, node. split; [assumption|]. split; [|assumption].
    assert (Hlast : last (pre ++ cyc) = Some node) by (rewrite <- Hp, Hpath; apply last_snoc).
    destruct cyc as [|c cyc]; [discriminate|].
    by rewrite last_app_cons in Hlast.
Qed.

(** [dfs] leaves the path as it found it, and every cycle it records is a
    cycle of the graph. *)
Lemma dfs_sound (g : Graph) (fuel : nat) :
  forall (node : string) (st st' : DfsState),
    dfs fuel g node st = Some st' ->
    chain g (path st ++ [node]) ->
    cyclesOk g (cycles st) ->
    path st' = path st /\ cyclesOk g (cycles st').
Proof.
  induction fuel as [|fuel IH]; intros node st st' Hdfs Hchain Hok; [discriminate|].
  rewrite dfs_unfold in Hdfs.
  set (st1 := mkDfs (cycles st) (setAdd node (visited st))
                    (setAdd node (recursionStack st)) (path st ++ [node])) in Hdfs.
  assert (Hloop : forall deps s s',
    (forall d, d ∈ deps -> edge g node d) ->
    path s = path st ++ [node] ->
    cyclesOk g (cycles s) ->
    visitDependencies fuel g deps (Some s) = Some s' ->
    path s' = path st ++ [node] /\ cyclesOk g (cycles s')).
  { induction deps as [|d deps IHd]; intros s s' Hdeps Hp Hc Hrun.
    - cbn in Hrun. injection Hrun as <-. by split.
    - cbn [visitDependencies fold_left] in Hrun.
      fold (visitDependencies fuel g deps) in Hrun.
      assert (Hrest : forall d', d' ∈ deps -> edge g node d')
        by (intros; apply Hdeps; by right).
      destruct (inb d (visited s)); cbn [negb] in Hrun.
      + destruct (inb d (recursionStack s)).
        * destruct (recordCycle_sound g node d (path st) s Hp) as [Hp' Hc'];
            [by rewrite Hp | apply Hdeps; by left | assumption|].
          apply (IHd _ _ Hrest) in Hrun; [assumption | congruence | assumption].
        * by apply (IHd _ _ Hrest) in Hrun.
      + destruct (dfs fuel g d s) as [s1|] eqn:Hd.
        * destruct (IH d s s1 Hd) as [Hp1 Hc1]; [|assumption|].
          { rewrite Hp. apply chain_snoc; [assumption | apply Hdeps; by left]. }
          apply (IHd _ _ Hrest) in Hrun; [assumption | congruence | assumption].
        * exfalso. clear -Hrun. induction deps as [|d' deps IHd']; [discriminate|].
          cbn in Hrun. by apply IHd'. }
  destruct (visitDependencies fuel g (default [] (mapGet node g)) (Some st1)) as [s|] eqn:Hrun;
    [|discriminate].
  injection Hdfs as <-. cbn [path cycles].
  destruct (Hloop _ st1 s (fun d Hd => Hd) eq_refl Hok Hrun) as [Hp Hc].
  split; [|assumption]. rewrite Hp. apply removelast_last.
Qed.

(** The cycles that the search reports. *)
Lemma detect_sound (g : Graph) :
  exists found, detectCircularDependencies g = Some found /\ cyclesOk g found.
Proof.
  destruct (detectCircularDependencies_returns g) as [found Hfound].
  exists found. split; [assumption|].
  unfold detectCircularDependencies in Hfound.
  set (fuel := S (List.length (nodesOf g))) in Hfound. clearbody fuel.
  assert (Hloop : forall keys s s',
    path s = [] -> cyclesOk g (cycles s) ->
    searchFrom fuel g keys (Some s) = Some s' ->
    path s' = [] /\ cyclesOk g (cycles s')).
  { induction keys as [|k keys IHk]; intros s s' Hp Hc Hrun.
    - cbn in Hrun. injection Hrun as <-. by split.
    - cbn [searchFrom fold_left] in Hrun. fold (searchFrom fuel g keys) in Hrun.
      destruct (inb k (visited s)); cbn [negb] in Hrun.
      + by apply IHk in Hrun.
      + destruct (dfs fuel g k s) as [s1|] eqn:Hd.
        * destruct (dfs_sound g fuel k s s1 Hd) as [Hp1 Hc1];
            [by rewrite Hp | assumption|].
          apply IHk in Hrun; [assumption | congruence | assumption].
        * exfalso. clear -Hrun. induction keys as [|k' keys IHk']; [discriminate|].
          cbn in Hrun. by apply IHk'. }
  fold (searchFrom fuel g (List.map fst g) (Some (mkDfs [] [] [] []))) in Hfound.
  destruct (searchFrom fuel g (List.map fst g) (Some (mkDfs [] [] [] []))) as [s|] eqn:Hrun;
    [|discriminate].
  cbn in Hfound. injection Hfound as <-.
  by destruct (Hloop (List.map fst g) (mkDfs [] [] [] []) s eq_refl (Forall_nil_2 _) Hrun).
Qed.

(** X27. The search for circular dependencies is sound: it returns, and
    every cycle it reports is a cycle of the graph - each file of the list
    depends on the next one and the last one on the first - with its length
    as [length]; so a graph without such a cycle has no circular dependency
    reported, and [totalCircularDependencies] is the number of cycles
    reported. *)
Theorem reported_cycles_are_cycles :
  (forall g : Graph,
     exists found,
       detectCircularDependencies g = Some found
       /\ forall c, c ∈ found ->
            isCycle g (cycle c)
            /\ cycleLength c = Z.of_nat (List.length (cycle c)))
  /\ (forall files : list ParsedFile,
        exists r, analyze files = Some r
          /\ (forall c, c ∈ circularDependencies r ->
                isCycle (buildDependencyGraph files) (cycle c)
                /\ cycleLength c = Z.of_nat (List.length (cycle c)))
          /\ totalCircularDependencies r
             = Z.of_nat (List.length (circularDependencies r))
          /\ ((forall c, ~ isCycle (buildDependencyGraph files) c) ->
              circularDependencies r = [])).
Proof.
  split.
  - intros g. destruct (detect_sound g) as (found & Hfound & Hok).
    exists found. split; [assumption|]. intros c Hc.
    unfold cyclesOk in Hok. rewrite Forall_forall in Hok. by apply Hok.
  - intros files. unfold analyze.
    destruct (detect_sound (buildDependencyGraph files)) as (found & -> & Hok).
    eexists. split; [reflexivity|]. cbn.
    unfold cyclesOk in Hok. rewrite Forall_forall in Hok.
    split; [exact Hok|]. split; [reflexivity|].
    intros Hnone. destruct found as [|c found]; [reflexivity|].
    destruct (Hok c) as [Hc _]; [by left|]. by apply Hnone in Hc.
Qed.

(** C8 (what the code does). [resolveImportPath] only ever answers with
    the resolved path followed by [.ts]. So when no import of the input,
    resolved and followed by [.ts], is the path of a file of the input - as
    in a project of [.tsx] files, or when the imports are written with
    their extension - the graph has no edge, whatever imports whatever:
    the analysis reports no circular dependency, and every file has its
    entry, with nothing it depends on, nothing that depends on it,
    efferent and afferent coupling 0 and instability 0. *)
Theorem unresolved_imports_are_dropped (files : list ParsedFile) :
  (forall f imp g,
     f ∈ files -> imp ∈ imports f -> g ∈ files ->
     normalizePath (resolve (dirname (filePath f)) (modulePath imp) ++ ".ts")
     <> normalizePath (filePath g)) ->
  exists r, analyze files = Some r
    /\ circularDependencies r = []
    /\ totalCircularDependencies r = 0
    /\ (forall f, f ∈ files -> is_Some (getCouplingForFile r (filePath f)))
    /\ forall k m, fileMetrics r !! k = Some m ->
         dependsOn m = [] /\ dependedOnBy m = []
         /\ efferentCoupling m = 0 /\ afferentCoupling m = 0
         /\ instability m = 0%Q.
Proof.
  intros Hdrop.
  set (fileSet := List.map (fun f => normalizePath (filePath f)) files).
  assert (Hnone : forall f, f ∈ files -> dependenciesOf fileSet f = []).
  { intros f Hf. destruct (dependenciesOf_spec fileSet f) as [_ Hd].
    destruct (dependenciesOf fileSet f) as [|d deps]; [reflexivity|].
    exfalso. destruct (Hd d) as (Hset & imp & Himp & Hr); [by left|].
    rewrite resolveImportPath_ts in Hr.
    destruct (_ || _); [|discriminate]. injection Hr as <-.
    apply list_elem_of_In, in_map_iff in Hset as (g & Hg & Hgin).
    apply (Hdrop f imp g Hf Himp); [by apply list_elem_of_In | by symmetry]. }
  assert (Hedge : forall x y, ~ edge (buildDependencyGraph files) x y).
  { intros x y. unfold edge.
    destruct (mapGet x (buildDependencyGraph files)) as [deps|] eqn:Hget; cbn.
    - apply mapGet_nodes, graph_entries in Hget as (f & Hf & _ & ->).
      fold fileSet. rewrite (Hnone f Hf). apply not_elem_of_nil.
    - apply not_elem_of_nil. }
  assert (Hempty : forall l : list string, (forall x, x ∉ l) -> l = []).
  { intros [|x l] Hl; [reflexivity|]. exfalso. apply (Hl x). by left. }
  pose proof (couplingInv_analysis files) as [Hdom Hpath Hcounts Hon Hby].
  unfold analyze, calculateCouplingMetrics.
  destruct (detect_sound (buildDependencyGraph files)) as (found & -> & Hok).
  eexists. split; [reflexivity|]. cbn.
  assert (Hfound : found = []).
  { destruct found as [|c found]; [reflexivity|]. exfalso.
    apply Forall_cons in Hok as [[[_ (first & lst & _ & _ & He)] _] _].
    by apply Hedge in He. }
  subst found. split; [reflexivity|]. split; [reflexivity|]. split.
  - intros f Hf. unfold getCouplingForFile. cbn. rewrite lookup_fmap.
    apply fmap_is_Some, Hdom. by exists f.
  - intros k m. rewrite lookup_fmap.
    destruct (_ !! k) as [m0|] eqn:Hk; cbn; [|discriminate].
    intros [= <-]. cbn.
    destruct (Hcounts k m0 Hk) as [Ha He]. destruct (Hby k m0 Hk) as [_ Hiff].
    assert (Hd : dependsOn m0 = []).
    { apply Hempty. intros x Hx. rewrite (Hon k m0 Hk) in Hx.
      by apply (Hedge k x). }
    assert (Hb : dependedOnBy m0 = []).
    { apply Hempty. intros x Hx. apply Hiff in Hx. by apply (Hedge x k). }
    rewrite Hd in He. rewrite Hb in Ha. cbn in Ha, He.
    rewrite Ha, He. by repeat split.
Qed.

End Graphs.

#[local] Existing Instance posixPath.

(** The lemma at work: "/p/a.ts" and "/p/b.ts" import each other, and
    "/p/c.ts", which imports nothing, is analyzed first. *)
Lemma two_cycle_and_instability_witness :
  exists r x y, analyze [fileC; fileA; fileB] = Some r
    /\ circularDependencies r = [mkCycle [x; y] 2]
    /\ totalCircularDependencies r = 1
    /\ ((x = "/p/a.ts"%string /\ y = "/p/b.ts"%string)
        \/ (x = "/p/b.ts"%string /\ y = "/p/a.ts"%string)).
Proof.
  destruct two_cycle_and_instability as [Hcycle _].
  apply (Hcycle [fileC; fileA; fileB] fileA fileB (mkImport "./b") (mkImport "./a")).
  - repeat constructor; vm_compute; intros H; inversion H; subst;
      repeat match goal with
             | H' : _ ∈ _ |- _ => inversion H'; clear H'; subst
             end.
  - right. left.
  - right. right. left.
  - vm_compute. discriminate.
  - reflexivity.
  - reflexivity.
  - vm_compute. reflexivity.
  - vm_compute. reflexivity.
  - intros f Hf Hfa Hfb.
    apply elem_of_cons in Hf as [->|Hf]; [reflexivity|].
    apply elem_of_cons in Hf as [->|Hf]; [congruence|].
    apply list_elem_of_singleton in Hf. congruence.
Defined.

Example two_cycle_metrics :
  (fun r => (fun m => (afferentCoupling m, efferentCoupling m, instability m))
              <$> fileMetrics r !! "/p/a.ts"%string) <$> analyze [fileA; fileB]
  = Some (Some (1, 1, (1 # 2)%Q)).
Proof. vm_compute. reflexivity. Qed.

(** The theorem at work: "/p/app.tsx" and "/p/button.tsx" import each
    other, and no cycle is reported; neither has a dependency. *)
Lemma unresolved_imports_are_dropped_witness :
  exists r m,
    analyze [appTsx; buttonTsx] = Some r
    /\ circularDependencies r = []
    /\ totalCircularDependencies r = 0
    /\ getCouplingForFile r "/p/app.tsx" = Some m
    /\ efferentCoupling m = 0
    /\ afferentCoupling m = 0.
Proof.
  destruct (unresolved_imports_are_dropped [appTsx; buttonTsx])
    as (r & Hr & Hcycles & Htotal & Hentry & Hmetrics).
  - intros f imp g Hf Himp Hg.
    repeat match goal with
           | H : _ ∈ _ :: _ |- _ => apply elem_of_cons in H as [->|H]
           | H : _ ∈ [] |- _ => by apply elem_of_nil in H
           | H : _ ∈ imports _ |- _ => cbn in H
           end; vm_compute; discriminate.
  - destruct (Hentry appTsx) as [m Hm]; [by left|].
    exists r, m. destruct (Hmetrics _ _ Hm) as (_ & _ & He & Ha & _).
    by repeat split.
Defined.

(** The same pairs of files, as the analysis answers: two [.tsx] files
    and two files whose imports name the extension are taken to import
    nothing, where the pair "/p/a.ts", "/p/b.ts" with the imports "./b"
    and "./a" gives one cycle and coupling 1. *)
Example dropped_imports :
  buildDependencyGraph [appTsx; buttonTsx]
  = [("/p/app.tsx", []); ("/p/button.tsx", [])]%string
  /\ resolveImportPath "/p/app.tsx" "./button" = Some "/p/button.ts"%string
  /\ (circularDependencies <$> analyze [appTsx; buttonTsx]) = Some []
  /\ buildDependencyGraph [fileAExt; fileBExt]
     = [("/p/a.ts", []); ("/p/b.ts", [])]%string
  /\ resolveImportPath "/p/a.ts" "./b.ts" = Some "/p/b.ts.ts"%string
  /\ (circularDependencies <$> analyze [fileAExt; fileBExt]) = Some []
  /\ (circularDependencies <$> analyze [fileA; fileB])
     = Some [mkCycle ["/p/a.ts"; "/p/b.ts"]%string 2].
Proof. vm_compute. repeat split; reflexivity. Qed.

(** The theorem at work: "/p/a.ts" depends on "/p/b.ts" alone. *)
Lemma dependency_graph_shape_witness :
  NoDup ["/p/b.ts"%string]
  /\ "/p/b.ts"%string ∈ List.map fst (buildDependencyGraph [fileC; fileA; fileB]).
Proof.
  destruct (dependency_graph_shape [fileC; fileA; fileB]) as (_ & _ & Hdeps).
  destruct (Hdeps "/p/a.ts"%string ["/p/b.ts"%string]) as [Hnd Hin].
  - vm_compute. reflexivity.
  - split; [exact Hnd|]. apply Hin. by left.
Defined.

(** The theorem at work: the metrics of "/p/a.ts" are found under a path
    in capital letters. *)
Lemma getCouplingForFile_finds_witness :
  exists r, analyze [fileA; fileB] = Some r
            /\ is_Some (getCouplingForFile r "/P/A.TS").
Proof.
  destruct (getCouplingForFile_finds [fileA; fileB]) as (r & Hr & Hdom & _).
  exists r. split; [exact Hr|]. apply Hdom. exists fileA.
  split; [by left | reflexivity].
Defined.

(** The theorem at work: "/p/a.ts" depends on "/p/b.ts" and is depended
    on by it. *)
Lemma coupling_lists_witness :
  exists r m,
    analyze [fileA; fileB] = Some r
    /\ fileMetrics r !! "/p/a.ts"%string = Some m
    /\ efferentCoupling m = Z.of_nat (List.length (dependsOn m))
    /\ afferentCoupling m = Z.of_nat (List.length (dependedOnBy m)).
Proof.
  destruct (coupling_lists [fileA; fileB]) as (r & Hr & Hm).
  destruct (fileMetrics r !! "/p/a.ts"%string) as [m|] eqn:Hlookup.
  - destruct (Hm _ _ Hlookup) as (_ & He & Ha & _). by exists r, m.
  - exfalso.
    assert (H : (fun r0 => fileMetrics r0 !! "/p/a.ts"%string) <$> analyze [fileA; fileB]
                = Some None) by (by rewrite Hr; cbn; rewrite Hlookup).
    vm_compute in H. discriminate.
Defined.

(** The theorem at work: the cycle of "/p/a.ts" and "/p/b.ts". *)
Lemma reported_cycles_are_cycles_witness :
  exists r c,
    analyze [fileA; fileB] = Some r
    /\ head (circularDependencies r) = Some c
    /\ isCycle (buildDependencyGraph [fileA; fileB]) (cycle c).
Proof.
  destruct reported_cycles_are_cycles as [_ Hanalyze].
  destruct (Hanalyze [fileA; fileB]) as (r & Hr & Hcycles & _).
  destruct (circularDependencies r) as [|c rest] eqn:Hfound.
  - exfalso.
    assert (H : circularDependencies <$> analyze [fileA; fileB] = Some [])
      by (by rewrite Hr; cbn; rewrite Hfound).
    vm_compute in H. discriminate.
  - exists r, c. split; [exact Hr|]. split; [by rewrite Hfound|].
    apply Hcycles. by left.
Defined.

End DepsProofs.

(* ===================================================================== *)
(** * Update manager: the incremental parser as it is called *)
(* ===================================================================== *)

Module UpdateProofs.
Import Incremental IncrementalSpec UpdateManager.

Section Update.
Context {TC : Ts.Compiler}.

(** X28. With the edit information of the file watcher, a file whose
    content has changed is parsed in full as soon as the cache holds one
    symbol for it whose declaration line lies between 1 and the larger of
    the two line counts: the range covers every such line, so the
    strategies [skip] and [partial] are out of reach. *)
Theorem watcher_edit_is_full (st : State) (path newContent : string)
    (oldLineCount newLineCount : Z) (cached : FileCache) (s : CachedSymbol) :
  st !! path = Some cached ->
  quickHash newContent <> fileHash cached ->
  s ∈ symbols cached ->
  1 <= declarationLine s <= Z.max oldLineCount newLineCount ->
  parseIncremental st path newContent
    (Some (watcherEditInfo oldLineCount newLineCount))
  = parseFully st path newContent.
Proof.
  intros Hst Hhash Hs Hline.
  by apply (IncrementalProofs.declaration_edit_is_full st path newContent _ cached s).
Qed.

(** X29. The two ways to a symbol disagree on its lines of code: for a
    statement from which both the incremental parser and the lightweight
    parser make a symbol, the symbol that the update manager builds from
    the cached one has the same line and end line as the symbol of the
    lightweight parser, and one more line of code; it is always exported
    and of complexity 1. *)
Theorem converted_symbol_lines (statement : Ts.Node) (lines : list string)
    (path : string) (isTsx : bool) (commentDensity : Q)
    (cs : CachedSymbol) (sym : Parser.LightweightSymbol) :
  0 <= Ts.endLine statement ->
  extractSymbol statement lines = Some cs ->
  Parser.nodeToSymbol statement path isTsx commentDensity
  = Parser.Returns (Some sym) ->
  exists converted,
    toLightweightSymbol path cs = Some converted
    /\ Parser.line converted = Parser.line sym
    /\ Parser.endLine converted = Parser.endLine sym
    /\ Parser.linesOfCode converted = Parser.linesOfCode sym + 1
    /\ Parser.filePath converted = Parser.filePath sym
    /\ Parser.exported converted = true
    /\ Parser.complexity converted = Some 1.
Proof.
  intros Hend Hcs Hsym.
  destruct (IncrementalProofs.extractSymbol_shape statement lines cs Hcs)
    as (_ & Hkind & Hstart & Hendl & _).
  destruct (ParserProofs.nodeToSymbol_position statement path isTsx commentDensity sym Hsym)
    as (Hp & Hl & He & _ & Hloc & _).
  assert (Hk : is_Some (symbolKindOf (kind cs))).
  { unfold declarationKinds in Hkind.
    repeat (apply elem_of_cons in Hkind as [->|Hkind]; [by eexists|]).
    by apply elem_of_nil in Hkind. }
  destruct Hk as [k Hk]. unfold toLightweightSymbol. rewrite Hk. cbn.
  eexists. split; [reflexivity|]. cbn.
  destruct (Z.eqb_spec (endLine cs) 0); repeat split; try congruence; lia.
Qed.

End Update.


#[local] Existing Instance Scenario.compiler.

(** The theorem at work: the body edit that is skipped with its own edit
    range is parsed in full with the range of the file watcher. *)
Lemma watcher_edit_is_full_witness :
  parseStrategy (parseIncremental Examples.bodyState "c.ts" Scenario.bodyFileEdited
                   (Some (watcherEditInfo 4 5))).2 = full.
Proof.
  eassert (Hc : Examples.bodyState !! "c.ts"%string = Some _)
    by (vm_compute; reflexivity).
  erewrite (watcher_edit_is_full Examples.bodyState "c.ts" Scenario.bodyFileEdited
              4 5 _ _ Hc).
  - reflexivity.
  - vm_compute. discriminate.
  - vm_compute. left.
  - vm_compute. split; discriminate.
Defined.

(** The theorem at work: the scenario's function [f], on its one line. *)
Lemma converted_symbol_lines_witness :
  exists cs sym converted,
    extractSymbol (Scenario.statementF "1") (splitLines Scenario.content1) = Some cs
    /\ Parser.nodeToSymbol (Scenario.statementF "1") "a.ts" false 0
       = Parser.Returns (Some sym)
    /\ toLightweightSymbol "a.ts" cs = Some converted
    /\ Parser.linesOfCode sym = 0
    /\ Parser.linesOfCode converted = 1.
Proof.
  destruct (extractSymbol (Scenario.statementF "1") (splitLines Scenario.content1))
    as [cs|] eqn:Hcs; [|vm_compute in Hcs; discriminate].
  destruct (Parser.nodeToSymbol (Scenario.statementF "1") "a.ts" false 0)
    as [[sym|]|] eqn:Hsym;
    [ | vm_compute in Hsym; discriminate | vm_compute in Hsym; discriminate].
  destruct (converted_symbol_lines (Scenario.statementF "1")
              (splitLines Scenario.content1) "a.ts" false 0 cs sym)
    as (converted & Hconv & _ & _ & Hloc & _).
  - vm_compute. discriminate.
  - exact Hcs.
  - exact Hsym.
  - assert (H0 : Parser.linesOfCode sym = 0).
    { vm_compute in Hsym. by injection Hsym as <-. }
    exists cs, sym, converted. repeat split; try assumption. lia.
Defined.

End UpdateProofs.
